(** * ShotMaster 1.4: settings resolution, output paths and render orchestration

    A shallow embedding of the [ShotMasterManager] static methods of
    [shotmaster_1_4.py] that resolve render settings through the
    camera > group > master hierarchy, derive output directories, drive the
    per-pass render loop and restore the scene afterwards, together with the
    engine tally of [get_camera_statistics].

    The host application (Blender's [bpy]) is not part of the add-on.  Its
    state is an explicit [World] record threaded through a state-and-exception
    monad; the points where it may raise (property setters, [os.makedirs], the
    render operators) are decided by a [Host] record. *)

From Stdlib Require Import ZArith Ascii String List Bool Lia.
From stdpp Require Import base option list strings pretty gmap.

Local Open Scope string_scope.
Local Open Scope Z_scope.

(** ** Python strings

    A [str] is modelled as a Rocq [string] whose characters are the code
    points 0..255; the character classes below are Python's [str.isalnum] and
    [str.isspace] on that range. *)

Definition in_range (lo hi n : N) : bool := (N.leb lo n && N.leb n hi)%bool.

Definition isalnum (c : ascii) : bool :=
  let n := N_of_ascii c in
  (in_range 48 57 n || in_range 65 90 n || in_range 97 122 n
   || N.eqb n 170 || N.eqb n 178 || N.eqb n 179 || N.eqb n 181
   || N.eqb n 185 || N.eqb n 186 || in_range 188 190 n
   || (in_range 192 255 n && negb (N.eqb n 215) && negb (N.eqb n 247)))%bool.

Definition isspace (c : ascii) : bool :=
  let n := N_of_ascii c in
  (in_range 9 13 n || in_range 28 32 n || N.eqb n 133 || N.eqb n 160)%bool.

(** [if s:] on a string. *)
Definition truthy (s : string) : bool :=
  match s with EmptyString => false | String _ _ => true end.

(** ["".join(c for c in s if p c)] *)
Fixpoint str_filter (p : ascii -> bool) (s : string) : string :=
  match s with
  | EmptyString => EmptyString
  | String c s' => if p c then String c (str_filter p s') else str_filter p s'
  end.

Fixpoint lstrip (s : string) : string :=
  match s with
  | EmptyString => EmptyString
  | String c s' => if isspace c then lstrip s' else s
  end.

Fixpoint rstrip (s : string) : string :=
  match s with
  | EmptyString => EmptyString
  | String c s' =>
      match rstrip s' with
      | EmptyString => if isspace c then EmptyString else String c EmptyString
      | r => String c r
      end
  end.

(** [s.strip()] *)
Definition strip (s : string) : string := rstrip (lstrip s).

(** [s.replace(old, new)] for one-character [old] and [new]. *)
Fixpoint replace (old new : ascii) (s : string) : string :=
  match s with
  | EmptyString => EmptyString
  | String c s' =>
      String (if Ascii.eqb c old then new else c) (replace old new s')
  end.

(** [c.isalnum() or c in " _-"] *)
Definition keep_char (c : ascii) : bool :=
  (isalnum c || Ascii.eqb c " " || Ascii.eqb c "_" || Ascii.eqb c "-")%bool.

(** The sanitisation applied to group and camera names in
    [get_camera_output_path]. *)
Definition sanitize (name : string) : string :=
  replace " " "_" (strip (str_filter keep_char name)).

Definition startswith (s pre : string) : bool := String.prefix pre s.

Fixpoint endswith_char (s : string) (c : ascii) : bool :=
  match s with
  | EmptyString => false
  | String d EmptyString => Ascii.eqb d c
  | String _ s' => endswith_char s' c
  end.

Fixpoint str_drop (n : nat) (s : string) : string :=
  match n, s with
  | O, _ => s
  | S n', String _ s' => str_drop n' s'
  | S _, EmptyString => EmptyString
  end.

(** ** Paths

    [os.path.join] on a POSIX host ([posixpath.join]): an absolute component
    discards what precedes it, otherwise components are glued with one
    separator. *)
Definition join_step (path b : string) : string :=
  if startswith b "/" then b
  else if (negb (truthy path) || endswith_char path "/")%bool then path ++ b
  else path ++ "/" ++ b.

Definition os_path_join (a : string) (p : list string) : string :=
  fold_left join_step p a.

(** ** Data model: the add-on's property groups *)

Module RenderPass.
Record t := mk {
    enabled : bool;
    pass_type : string;
    name : string
  }.
End RenderPass.

Module CameraGroup.
Record t := mk {
    name : string;
    use_custom_output_path : bool;
    output_path : string;
    use_custom_render_settings : bool;
    render_engine : string;
    cycles_samples : Z;
    eevee_samples : Z;
    use_custom_resolution : bool;
    resolution_x : Z;
    resolution_y : Z;
    resolution_percentage : Z;
    use_custom_view_layer : bool;
    view_layer : string
  }.
End CameraGroup.

Module ShotMasterCamera.
Record t := mk {
    use_custom_render_settings : bool;
    use_custom_resolution : bool;
    resolution_x : Z;
    resolution_y : Z;
    resolution_percentage : Z;
    render_engine : string;
    cycles_samples : Z;
    eevee_samples : Z;
    use_render_passes : bool;
    render_passes : list RenderPass.t;
    use_custom_output_path : bool;
    output_path : string;
    file_format : string;
    filename : string;
    use_custom_view_layer : bool;
    view_layer : string;
    group : string;
    use_custom_frames : bool;
    start_frame : Z;
    end_frame : Z
  }.
End ShotMasterCamera.

Module ShotMasterSettings.
Record t := mk {
    master_start_frame : Z;
    master_end_frame : Z;
    master_output_path : string;
    master_resolution_x : Z;
    master_resolution_y : Z;
    master_resolution_percentage : Z;
    master_render_engine : string;
    master_cycles_samples : Z;
    master_eevee_samples : Z;
    total_renders : Z;
    last_render_time : Z;
    total_render_time : Z
  }.
End ShotMasterSettings.

(** A scene object carrying the add-on's camera properties; [type] is
    [obj.type] (['CAMERA'] for cameras). *)
Module Object.
Record t := mk {
    name : string;
    type : string;
    shotmaster_camera : ShotMasterCamera.t
  }.
End Object.

(** ** The shared render environment

    Every host property that [setup_render_settings] or the pass loop assigns:
    [scene.render.*], [scene.camera], the frame range, the per-engine sample
    counts and the window's view layer.  Objects and view layers are referred
    to by name. *)
Module RenderEnv.
Record t := mk {
    engine : string;
    resolution_x : Z;
    resolution_y : Z;
    resolution_percentage : Z;
    filepath : string;
    file_format : string;
    camera : option string;
    frame_start : Z;
    frame_end : Z;
    cycles_samples : Z;
    eevee_taa_render_samples : Z;
    view_layer : string
  }.
End RenderEnv.

(** One assignment to a host property.  An accepted value is stored as it
    was assigned, which is what a host does for a value inside the range of
    the property; a number outside that range the host adjusts without an
    exception.  The statements below that equate a number read back from the
    host with the number assigned carry the range as a hypothesis
    ([resolution_in_range], [samples_in_range], [frames_in_range]). *)
Inductive HostWrite :=
  | SetEngine (e : string)
  | SetResolutionX (n : Z)
  | SetResolutionY (n : Z)
  | SetResolutionPercentage (n : Z)
  | SetFilepath (p : string)
  | SetFileFormat (f : string)
  | SetCamera (c : option string)
  | SetFrameStart (n : Z)
  | SetFrameEnd (n : Z)
  | SetCyclesSamples (n : Z)
  | SetEeveeSamples (n : Z)
  | SetViewLayer (l : string).

Definition apply_write (w : HostWrite) (r : RenderEnv.t) : RenderEnv.t :=
  let 'RenderEnv.mk en rx ry rp fp ff cam fs fe cs es vl := r in
  match w with
  | SetEngine e => RenderEnv.mk e rx ry rp fp ff cam fs fe cs es vl
  | SetResolutionX n => RenderEnv.mk en n ry rp fp ff cam fs fe cs es vl
  | SetResolutionY n => RenderEnv.mk en rx n rp fp ff cam fs fe cs es vl
  | SetResolutionPercentage n => RenderEnv.mk en rx ry n fp ff cam fs fe cs es vl
  | SetFilepath p => RenderEnv.mk en rx ry rp p ff cam fs fe cs es vl
  | SetFileFormat f => RenderEnv.mk en rx ry rp fp f cam fs fe cs es vl
  | SetCamera c => RenderEnv.mk en rx ry rp fp ff c fs fe cs es vl
  | SetFrameStart n => RenderEnv.mk en rx ry rp fp ff cam n fe cs es vl
  | SetFrameEnd n => RenderEnv.mk en rx ry rp fp ff cam fs n cs es vl
  | SetCyclesSamples n => RenderEnv.mk en rx ry rp fp ff cam fs fe n es vl
  | SetEeveeSamples n => RenderEnv.mk en rx ry rp fp ff cam fs fe cs n vl
  | SetViewLayer l => RenderEnv.mk en rx ry rp fp ff cam fs fe cs es l
  end.

(** An invocation of the host's renderer: [bpy.ops.render.render] with
    [write_still] or [animation] (recorded with [scene.render.filepath] at the
    time of the call), or [bpy.ops.render.opengl]; [ok] tells whether it
    returned normally. *)
Inductive EngineCall :=
  | RenderStill (path : string) (ok : bool)
  | RenderAnimation (path : string) (ok : bool)
  | RenderOpenGL (ok : bool).

Definition call_ok (c : EngineCall) : bool :=
  match c with
  | RenderStill _ ok | RenderAnimation _ ok | RenderOpenGL ok => ok
  end.

(** [bpy.context] as the add-on sees it, plus the trace of renderer calls. *)
Record World := mkWorld {
  env : RenderEnv.t;
  view_layers : list string;
  shotmaster_settings : ShotMasterSettings.t;
  shotmaster_camera_groups : list CameraGroup.t;
  objects : list Object.t;
  calls : list EngineCall
}.

(** What the host decides: which property assignments raise, which
    directories can be created, which renderer invocations (numbered in call
    order) fail, where the blend file lives, and the two [time.time()]
    readings of a job, in clock ticks. *)
Record Host := mkHost {
  accepts : HostWrite -> bool;
  makedirs_ok : string -> bool;
  render_ok : nat -> bool;
  blend_dir : string;
  time_start : Z;
  time_end : Z
}.

Inductive Exn :=
  | PropertyError (w : HostWrite)
  | OSError (path : string)
  | RuntimeError.

(** ** State and exceptions

    A computation runs on a world and returns a value or raises; either way
    the world it leaves behind keeps every mutation made so far. *)
Definition M (A : Type) : Type := World -> (Exn + A) * World.

Definition ret {A} (a : A) : M A := fun w => (inr a, w).

Definition raise {A} (e : Exn) : M A := fun w => (inl e, w).

Definition bind {A B} (m : M A) (k : A -> M B) : M B :=
  fun w => match m w with
           | (inl e, w') => (inl e, w')
           | (inr a, w') => k a w'
           end.

Definition get : M World := fun w => (inr w, w).

(** [try: m  except Exception: h] *)
Definition try_except {A} (m : M A) (h : Exn -> M A) : M A :=
  fun w => match m w with
           | (inl e, w') => h e w'
           | (inr a, w') => (inr a, w')
           end.

Declare Scope py_scope.
Delimit Scope py_scope with py.
Notation "x <- m ;; k" := (bind m (fun x => k))
  (at level 100, m at next level, right associativity) : py_scope.
Notation "m ;; k" := (bind m (fun _ => k))
  (at level 100, right associativity) : py_scope.
Local Open Scope py_scope.

Definition when (b : bool) (m : M unit) : M unit := if b then m else ret tt.

Definition with_env (f : RenderEnv.t -> RenderEnv.t) (w : World) : World :=
  mkWorld (f (env w)) (view_layers w) (shotmaster_settings w)
          (shotmaster_camera_groups w) (objects w) (calls w).

Definition with_settings (s : ShotMasterSettings.t) (w : World) : World :=
  mkWorld (env w) (view_layers w) s
          (shotmaster_camera_groups w) (objects w) (calls w).

Definition log_call (c : EngineCall) (w : World) : World :=
  mkWorld (env w) (view_layers w) (shotmaster_settings w)
          (shotmaster_camera_groups w) (objects w) (calls w ++ [c]).

(** Assign a host property; the host may refuse, which raises and leaves the
    property as it was. *)
Definition write (h : Host) (x : HostWrite) : M unit :=
  fun w => if accepts h x then (inr tt, with_env (apply_write x) w)
           else (inl (PropertyError x), w).

(** [os.makedirs(path, exist_ok=True)] *)
Definition makedirs (h : Host) (path : string) : M unit :=
  if makedirs_ok h path then ret tt else raise (OSError path).

(** A renderer invocation: recorded in the trace, raises when the host fails
    it. *)
Definition invoke (h : Host) (mk : bool -> EngineCall) : M unit :=
  fun w => let ok := render_ok h (length (calls w)) in
           (if ok then inr tt else inl RuntimeError, log_call (mk ok) w).

(** [bpy.path.abspath]: a path with the ["//"] prefix is relative to the
    directory of the blend file, any other path is returned as it is. *)
Definition abspath (h : Host) (path : string) : string :=
  if startswith path "//" then os_path_join (blend_dir h) [str_drop 2 path]
  else path.

(** [if pass_name:] for a pass name that may be [None]. *)
Definition pass_given (pass_name : option string) : option string :=
  match pass_name with
  | Some p => if truthy p then Some p else None
  | None => None
  end.

(** ** ShotMasterManager.get_camera_output_path *)

(** The base directory chosen by the first half of the method: the master
    path, replaced by the path of the first group that bears the camera's
    group name and has its own path switched on (when that path is not
    empty), replaced in turn by the camera's own path. *)
Definition base_path_of (h : Host) (w : World) (camera : Object.t) : string :=
  let cam := Object.shotmaster_camera camera in
  let base_path :=
    abspath h (ShotMasterSettings.master_output_path (shotmaster_settings w)) in
  let group_name := ShotMasterCamera.group cam in
  let base_path :=
    if truthy group_name then
      match find (fun g => (CameraGroup.name g =? group_name)%string
                           && CameraGroup.use_custom_output_path g)
                 (shotmaster_camera_groups w) with
      | Some g => if truthy (CameraGroup.output_path g)
                  then abspath h (CameraGroup.output_path g) else base_path
      | None => base_path
      end
    else base_path in
  if ShotMasterCamera.use_custom_output_path cam
     && truthy (ShotMasterCamera.output_path cam)
  then abspath h (ShotMasterCamera.output_path cam)
  else base_path.

(** The second half of the method: the mode folder ("animation" or
    "stills") under the camera folder, and the pass folder when a pass name
    is given. *)
Definition final_path (group_path sanitized_camera_name : string)
    (render_animation : bool) (pass_name : option string) : string :=
  if render_animation then
    match pass_given pass_name with
    | Some p => os_path_join group_path [sanitized_camera_name; "animation"; p]
    | None => os_path_join group_path [sanitized_camera_name; "animation"]
    end
  else
    match pass_given pass_name with
    | Some p => os_path_join group_path [sanitized_camera_name; "stills"; p]
    | None => os_path_join group_path [sanitized_camera_name; "stills"]
    end.

Definition get_camera_output_path (h : Host) (w : World) (camera : Object.t)
    (render_animation : bool) (pass_name : option string) : string :=
  let base_path := base_path_of h w camera in
  let group_name := ShotMasterCamera.group (Object.shotmaster_camera camera) in
  let group_path :=
    if truthy group_name
    then os_path_join base_path [sanitize group_name]
    else os_path_join base_path ["ungrouped"] in
  let sanitized_camera_name := sanitize (Object.name camera) in
  final_path group_path sanitized_camera_name render_animation pass_name.

(** ** ShotMasterManager.setup_render_settings *)

(** The [original_settings] dictionary. *)
Module Original.
Record t := mk {
    engine : string;
    resolution_x : Z;
    resolution_y : Z;
    resolution_percentage : Z;
    filepath : string;
    file_format : string;
    active_camera : option string;
    frame_start : Z;
    frame_end : Z
  }.
End Original.

Definition snapshot (r : RenderEnv.t) : Original.t :=
  Original.mk (RenderEnv.engine r) (RenderEnv.resolution_x r)
    (RenderEnv.resolution_y r) (RenderEnv.resolution_percentage r)
    (RenderEnv.filepath r) (RenderEnv.file_format r) (RenderEnv.camera r)
    (RenderEnv.frame_start r) (RenderEnv.frame_end r).

(** The sample count goes to the engine that is current at that point:
    [if render.engine == 'CYCLES': ... elif render.engine == 'BLENDER_EEVEE': ...] *)
Definition apply_samples (h : Host) (cycles eevee : Z) : M unit :=
  w <- get ;;
  if (RenderEnv.engine (env w) =? "CYCLES")%string
  then write h (SetCyclesSamples cycles)
  else if (RenderEnv.engine (env w) =? "BLENDER_EEVEE")%string
  then write h (SetEeveeSamples eevee)
  else ret tt.

Definition apply_view_layer (h : Host) (use_custom : bool) (layer : string)
  : M unit :=
  w <- get ;;
  when (use_custom && bool_decide (layer ∈ view_layers w))
       (write h (SetViewLayer layer)).

(** The body of the group loop for the first group with the camera's group
    name (the loop breaks there). *)
Definition apply_group_settings (h : Host) (g : CameraGroup.t) : M unit :=
  when (CameraGroup.use_custom_render_settings g)
    (write h (SetEngine (CameraGroup.render_engine g)) ;;
     when (CameraGroup.use_custom_resolution g)
       (write h (SetResolutionX (CameraGroup.resolution_x g)) ;;
        write h (SetResolutionY (CameraGroup.resolution_y g)) ;;
        write h (SetResolutionPercentage (CameraGroup.resolution_percentage g))) ;;
     apply_samples h (CameraGroup.cycles_samples g) (CameraGroup.eevee_samples g)) ;;
  apply_view_layer h (CameraGroup.use_custom_view_layer g) (CameraGroup.view_layer g).

(** "Start with master settings". *)
Definition apply_master_settings (h : Host) (settings : ShotMasterSettings.t)
  : M unit :=
  write h (SetEngine (ShotMasterSettings.master_render_engine settings)) ;;
  write h (SetResolutionX (ShotMasterSettings.master_resolution_x settings)) ;;
  write h (SetResolutionY (ShotMasterSettings.master_resolution_y settings)) ;;
  write h (SetResolutionPercentage
             (ShotMasterSettings.master_resolution_percentage settings)) ;;
  apply_samples h (ShotMasterSettings.master_cycles_samples settings)
                  (ShotMasterSettings.master_eevee_samples settings).

(** "Apply group settings if applicable": the loop over the groups, which
    stops at the first one named like the camera's group. *)
Definition apply_camera_group (h : Host) (cam : ShotMasterCamera.t) : M unit :=
  w <- get ;;
  let group_name := ShotMasterCamera.group cam in
  when (truthy group_name)
    match find (fun g => (CameraGroup.name g =? group_name)%string)
               (shotmaster_camera_groups w) with
    | Some g => apply_group_settings h g
    | None => ret tt
    end.

(** "Finally apply camera-specific settings", and the camera's view layer. *)
Definition apply_camera_settings (h : Host) (cam : ShotMasterCamera.t)
  : M unit :=
  when (ShotMasterCamera.use_custom_render_settings cam)
    (write h (SetEngine (ShotMasterCamera.render_engine cam)) ;;
     when (ShotMasterCamera.use_custom_resolution cam)
       (write h (SetResolutionX (ShotMasterCamera.resolution_x cam)) ;;
        write h (SetResolutionY (ShotMasterCamera.resolution_y cam)) ;;
        write h (SetResolutionPercentage
                   (ShotMasterCamera.resolution_percentage cam))) ;;
     apply_samples h (ShotMasterCamera.cycles_samples cam)
                     (ShotMasterCamera.eevee_samples cam)) ;;
  apply_view_layer h (ShotMasterCamera.use_custom_view_layer cam)
                     (ShotMasterCamera.view_layer cam).

(** "Set frame range based on camera settings or master settings". *)
Definition apply_frame_range (h : Host) (settings : ShotMasterSettings.t)
    (cam : ShotMasterCamera.t) : M unit :=
  if ShotMasterCamera.use_custom_frames cam then
    write h (SetFrameStart (ShotMasterCamera.start_frame cam)) ;;
    write h (SetFrameEnd (ShotMasterCamera.end_frame cam))
  else
    write h (SetFrameStart (ShotMasterSettings.master_start_frame settings)) ;;
    write h (SetFrameEnd (ShotMasterSettings.master_end_frame settings)).

Definition setup_render_settings (h : Host) (camera : Object.t)
    (is_viewport : bool) : M Original.t :=
  w <- get ;;
  let cam := Object.shotmaster_camera camera in
  let settings := shotmaster_settings w in
  let original_settings := snapshot (env w) in
  apply_master_settings h settings ;;
  apply_camera_group h cam ;;
  apply_camera_settings h cam ;;
  apply_frame_range h settings cam ;;
  write h (SetCamera (Some (Object.name camera))) ;;
  (if is_viewport then ret tt
   else write h (SetFileFormat (ShotMasterCamera.file_format cam))) ;;
  ret original_settings.

(** ** ShotMasterManager.restore_render_settings *)
Definition restore_render_settings (h : Host) (original_settings : Original.t)
  : M unit :=
  write h (SetEngine (Original.engine original_settings)) ;;
  write h (SetResolutionX (Original.resolution_x original_settings)) ;;
  write h (SetResolutionY (Original.resolution_y original_settings)) ;;
  write h (SetResolutionPercentage
             (Original.resolution_percentage original_settings)) ;;
  write h (SetFilepath (Original.filepath original_settings)) ;;
  write h (SetFileFormat (Original.file_format original_settings)) ;;
  write h (SetCamera (Original.active_camera original_settings)) ;;
  write h (SetFrameStart (Original.frame_start original_settings)) ;;
  write h (SetFrameEnd (Original.frame_end original_settings)).

(** ** ShotMasterManager.render_from_camera *)

(** [passes_to_render]: the names of the enabled passes, in order, or the
    single entry [None]. *)
Definition passes_to_render (cam : ShotMasterCamera.t) : list (option string) :=
  if ShotMasterCamera.use_render_passes cam
  then map (fun p => Some (RenderPass.name p))
           (filter (fun p => RenderPass.enabled p = true)
                   (ShotMasterCamera.render_passes cam))
  else [None].

Definition pass_filename (camera : Object.t) (pass_name : option string)
  : string :=
  let pass_suffix :=
    match pass_given pass_name with Some p => "_" ++ p | None => "" end in
  ShotMasterCamera.filename (Object.shotmaster_camera camera)
    ++ "_" ++ Object.name camera ++ pass_suffix.

(** The body of the inner [try] of the pass loop, up to [success = True]. *)
Definition render_pass (h : Host) (camera : Object.t) (render_animation : bool)
    (pass_name : option string) : M unit :=
  w <- get ;;
  let output_dir :=
    get_camera_output_path h w camera render_animation pass_name in
  output_dir <-
    try_except (makedirs h output_dir ;; ret output_dir)
      (fun _ => let output_dir := abspath h "//renders/" in
                makedirs h output_dir ;; ret output_dir) ;;
  let filename := pass_filename camera pass_name in
  write h (SetFilepath (os_path_join output_dir [filename])) ;;
  w <- get ;;
  if render_animation
  then invoke h (RenderAnimation (RenderEnv.filepath (env w)))
  else invoke h (RenderStill (RenderEnv.filepath (env w))).

(** [for pass_name in passes_to_render: try: ...; success = True
    except Exception: (continue)], threading the [success] flag. *)
Fixpoint render_passes_loop (h : Host) (camera : Object.t)
    (render_animation : bool) (passes : list (option string)) (success : bool)
  : M bool :=
  match passes with
  | [] => ret success
  | pass_name :: rest =>
      success <- try_except
                   (render_pass h camera render_animation pass_name ;; ret true)
                   (fun _ => ret success) ;;
      render_passes_loop h camera render_animation rest success
  end.

(** The three counter assignments of the "Update render statistics" block.
    Durations are clock ticks.  The count is computed on unbounded integers
    and the durations exactly; the properties are a 32-bit integer and two
    single-precision floats with minimum 0, so this is what the source does
    while the count is below 2147483647 and the durations are whole ticks
    that single precision holds exactly ([counters_in_range]). *)
Definition count_render (render_time : Z) (s : ShotMasterSettings.t)
  : ShotMasterSettings.t :=
  ShotMasterSettings.mk
    (ShotMasterSettings.master_start_frame s)
    (ShotMasterSettings.master_end_frame s)
    (ShotMasterSettings.master_output_path s)
    (ShotMasterSettings.master_resolution_x s)
    (ShotMasterSettings.master_resolution_y s)
    (ShotMasterSettings.master_resolution_percentage s)
    (ShotMasterSettings.master_render_engine s)
    (ShotMasterSettings.master_cycles_samples s)
    (ShotMasterSettings.master_eevee_samples s)
    (ShotMasterSettings.total_renders s + 1)
    render_time
    (ShotMasterSettings.total_render_time s + render_time).

Definition update_render_statistics (h : Host) : M unit :=
  fun w =>
    let render_time := time_end h - time_start h in
    (inr tt, with_settings (count_render render_time (shotmaster_settings w)) w).

(** The outer [try] block after the setup call, down to [return success]. *)
Definition render_body (h : Host) (camera : Object.t)
    (render_animation is_viewport : bool) : M bool :=
  success <-
    (if is_viewport then
       if render_animation then ret false
       else (invoke h RenderOpenGL ;; ret true)
     else
       render_passes_loop h camera render_animation
         (passes_to_render (Object.shotmaster_camera camera)) false) ;;
  update_render_statistics h ;;
  ret success.

(** The whole method.  [camera] is [None] for a missing object.  When the
    setup call raises, [original_settings] is never bound: the [finally]
    clause then fails on the unbound name, which its own [except] swallows,
    and nothing is restored.  An exception of the restoration is swallowed
    the same way. *)
Definition render_from_camera (h : Host) (camera : option Object.t)
    (render_animation is_viewport : bool) (w : World) : bool * World :=
  match camera with
  | None => (false, w)
  | Some camera =>
      if negb (Object.type camera =? "CAMERA")%string then (false, w)
      else
        match setup_render_settings h camera is_viewport w with
        | (inl _, w1) => (false, w1)
        | (inr original_settings, w1) =>
            let '(r, w2) := render_body h camera render_animation is_viewport w1 in
            let '(_, w3) := restore_render_settings h original_settings w2 in
            (match r with inr success => success | inl _ => false end, w3)
        end
  end.

(** ** ShotMasterManager.get_camera_statistics (engine tally) *)

Definition get_all_cameras (w : World) : list Object.t :=
  filter (fun obj => Object.type obj = "CAMERA") (objects w).

(** The engine a camera is counted under: the conditional expression bound
    to [engine] in the camera loop. *)
Definition stats_engine (w : World) (camera : Object.t) : string :=
  let cam := Object.shotmaster_camera camera in
  if ShotMasterCamera.use_custom_render_settings cam
  then ShotMasterCamera.render_engine cam
  else ShotMasterSettings.master_render_engine (shotmaster_settings w).

(** [stats['render_engines']] as initialised. *)
Definition render_engines_init : gmap string Z :=
  <["CYCLES" := 0]> (<["BLENDER_EEVEE" := 0]> (<["BLENDER_WORKBENCH" := 0]> ∅)).

(** [stats['render_engines'][engine] += 1]; [None] is Python's [KeyError]. *)
Definition count_engine (engine : string) (tally : gmap string Z)
  : option (gmap string Z) :=
  n ← tally !! engine; Some (<[engine := n + 1]> tally).

Fixpoint count_engines (w : World) (cameras : list Object.t)
    (tally : gmap string Z) : option (gmap string Z) :=
  match cameras with
  | [] => Some tally
  | camera :: rest =>
      tally ← count_engine (stats_engine w camera) tally;
      count_engines w rest tally
  end.

Definition stats_render_engines (w : World) : option (gmap string Z) :=
  count_engines w (get_all_cameras w) render_engines_init.

(** ** ShotMasterManager.get_cameras_in_group, get_ungrouped_cameras *)

Definition get_cameras_in_group (w : World) (group_name : string)
  : list Object.t :=
  if negb (truthy group_name) then []
  else filter (fun cam => ShotMasterCamera.group (Object.shotmaster_camera cam)
                          = group_name)
              (get_all_cameras w).

Definition get_ungrouped_cameras (w : World) : list Object.t :=
  filter (fun cam => truthy (ShotMasterCamera.group
                               (Object.shotmaster_camera cam)) = false)
         (get_all_cameras w).

(** ** ShotMasterManager.get_camera_statistics (group tally, frame total) *)

(** [stats['cameras_by_group']] after the two initialisation steps: one
    bucket per declared group, then the bucket "Ungrouped". *)
Definition cameras_by_group_init (w : World) : gmap string Z :=
  <["Ungrouped" := 0]>
    (fold_left (fun m g => <[CameraGroup.name g := 0]> m)
       (shotmaster_camera_groups w) ∅).

(** The "Update group count" step for one camera; [None] is Python's
    [KeyError] on the bucket "Ungrouped". *)
Definition count_group (group_name : string) (tally : gmap string Z)
  : option (gmap string Z) :=
  if truthy group_name then
    match tally !! group_name with
    | Some n => Some (<[group_name := n + 1]> tally)
    | None => Some (<[group_name := 1]> tally)
    end
  else
    n ← tally !! "Ungrouped"; Some (<["Ungrouped" := n + 1]> tally).

Fixpoint count_groups (cameras : list Object.t) (tally : gmap string Z)
  : option (gmap string Z) :=
  match cameras with
  | [] => Some tally
  | camera :: rest =>
      tally ← count_group
                (ShotMasterCamera.group (Object.shotmaster_camera camera))
                tally;
      count_groups rest tally
  end.

Definition stats_cameras_by_group (w : World) : option (gmap string Z) :=
  count_groups (get_all_cameras w) (cameras_by_group_init w).

(** The frames one camera adds to [stats['total_frames']]. *)
Definition camera_frames (w : World) (camera : Object.t) : Z :=
  let cam := Object.shotmaster_camera camera in
  let settings := shotmaster_settings w in
  if ShotMasterCamera.use_custom_frames cam
  then ShotMasterCamera.end_frame cam - ShotMasterCamera.start_frame cam + 1
  else ShotMasterSettings.master_end_frame settings
       - ShotMasterSettings.master_start_frame settings + 1.

Definition stats_total_frames (w : World) : Z :=
  fold_left (fun total camera => total + camera_frames w camera)
    (get_all_cameras w) 0.

(** ** Operators

    What [execute] returns, and the one report it may leave with
    [self.report]. *)
Inductive Status := FINISHED | CANCELLED.

Inductive Level := INFO | WARNING | ERROR.

Definition Report : Type := Level * string.

(** [bpy.data.objects]: the objects of the scene, and the objects of the file
    that are not linked to it. *)
Record Data := mkData {
  scene : World;
  unlinked : list Object.t
}.

Definition data_objects (d : Data) : list Object.t :=
  (objects (scene d) ++ unlinked d)%list.

(** [bpy.data.objects.get(name)] *)
Definition data_objects_get (d : Data) (name : string) : option Object.t :=
  find (fun obj => (Object.name obj =? name)%string) (data_objects d).

(** *** SHOTMASTER_OT_render_from_camera *)

Definition render_camera_message (render_animation is_viewport : bool)
    (name : string) : string :=
  if render_animation then
    if is_viewport
    then "Successfully rendered viewport animation from " ++ name
    else "Successfully rendered animation from " ++ name
  else
    if is_viewport
    then "Successfully rendered viewport still from " ++ name
    else "Successfully rendered still from " ++ name.

Definition SHOTMASTER_OT_render_from_camera (h : Host) (camera_name : string)
    (render_animation is_viewport : bool) (d : Data)
  : Status * Report * Data :=
  let could_not := (ERROR, "Could not render from " ++ camera_name) in
  match data_objects_get d camera_name with
  | Some camera =>
      if (Object.type camera =? "CAMERA")%string then
        let '(ok, w) := render_from_camera h (Some camera) render_animation
                          is_viewport (scene d) in
        if ok : bool
        then (FINISHED,
              (INFO, render_camera_message render_animation is_viewport
                       (Object.name camera)),
              mkData w (unlinked d))
        else (CANCELLED, could_not, mkData w (unlinked d))
      else (CANCELLED, could_not, d)
  | None => (CANCELLED, could_not, d)
  end.

(** *** SHOTMASTER_OT_render_all_cameras, SHOTMASTER_OT_render_group_cameras *)

(** [for camera in cameras: if render_from_camera(...): success_count += 1].
    [h k] is the host as the job of the [k]-th camera finds it, with the two
    clock readings of that job.  No job changes a scene object, so the
    cameras can be read from the list computed before the loop. *)
Fixpoint render_each (h : nat -> Host) (k : nat) (cameras : list Object.t)
    (render_animation is_viewport : bool) (success_count : Z) (w : World)
  : Z * World :=
  match cameras with
  | [] => (success_count, w)
  | camera :: rest =>
      let '(ok, w) := render_from_camera (h k) (Some camera) render_animation
                        is_viewport w in
      render_each h (S k) rest render_animation is_viewport
        (if ok : bool then success_count + 1 else success_count) w
  end.

Definition render_all_message (render_animation is_viewport : bool)
    (success_count : Z) (cameras : list Object.t) : string :=
  let counts :=
    pretty success_count ++ " of " ++ pretty (Z.of_nat (length cameras)) in
  if render_animation then
    if is_viewport
    then "Successfully rendered viewport animations for " ++ counts
         ++ " cameras"
    else "Successfully rendered animations for " ++ counts ++ " cameras"
  else
    if is_viewport
    then "Successfully rendered viewport stills for " ++ counts ++ " cameras"
    else "Successfully rendered " ++ counts ++ " cameras".

Definition SHOTMASTER_OT_render_all_cameras (h : nat -> Host)
    (render_animation is_viewport : bool) (w : World)
  : Status * Report * World :=
  let cameras := get_all_cameras w in
  match cameras with
  | [] => (CANCELLED, (WARNING, "No cameras found to render"), w)
  | _ :: _ =>
      let '(success_count, w') :=
        render_each h 0 cameras render_animation is_viewport 0 w in
      (FINISHED,
       (INFO, render_all_message render_animation is_viewport success_count
                cameras),
       w')
  end.

Definition render_group_message (render_animation is_viewport : bool)
    (success_count : Z) (cameras : list Object.t) (group_name : string)
  : string :=
  let counts :=
    pretty success_count ++ " of " ++ pretty (Z.of_nat (length cameras)) in
  let tail := " cameras in group " ++ group_name in
  if render_animation then
    if is_viewport
    then "Successfully rendered viewport animations for " ++ counts ++ tail
    else "Successfully rendered animations for " ++ counts ++ tail
  else
    if is_viewport
    then "Successfully rendered viewport stills for " ++ counts ++ tail
    else "Successfully rendered stills for " ++ counts ++ tail.

Definition SHOTMASTER_OT_render_group_cameras (h : nat -> Host)
    (group_name : string) (render_animation is_viewport : bool) (w : World)
  : Status * Report * World :=
  let cameras := get_cameras_in_group w group_name in
  match cameras with
  | [] => (CANCELLED, (WARNING, "No cameras found in group " ++ group_name), w)
  | _ :: _ =>
      let '(success_count, w') :=
        render_each h 0 cameras render_animation is_viewport 0 w in
      (FINISHED,
       (INFO, render_group_message render_animation is_viewport success_count
                cameras group_name),
       w')
  end.

(** *** The camera group operators *)

#[global] Instance RenderPass_eq_dec : EqDecision RenderPass.t.
Proof. solve_decision. Defined.

#[global] Instance ShotMasterCamera_eq_dec : EqDecision ShotMasterCamera.t.
Proof. solve_decision. Defined.

#[global] Instance Object_eq_dec : EqDecision Object.t.
Proof. solve_decision. Defined.

Definition with_groups (groups : list CameraGroup.t) (w : World) : World :=
  mkWorld (env w) (view_layers w) (shotmaster_settings w) groups (objects w)
          (calls w).

Definition with_objects (objs : list Object.t) (w : World) : World :=
  mkWorld (env w) (view_layers w) (shotmaster_settings w)
          (shotmaster_camera_groups w) objs (calls w).

(** A group as [shotmaster_camera_groups.add()] creates it: every property
    at its declared default. *)
Definition new_camera_group : CameraGroup.t :=
  CameraGroup.mk "Camera Group" false "" false "CYCLES" 128 64 false
    1920 1080 100 false "".

(** [group.name = name] *)
Definition set_name (name : string) (g : CameraGroup.t) : CameraGroup.t :=
  CameraGroup.mk name
    (CameraGroup.use_custom_output_path g) (CameraGroup.output_path g)
    (CameraGroup.use_custom_render_settings g) (CameraGroup.render_engine g)
    (CameraGroup.cycles_samples g) (CameraGroup.eevee_samples g)
    (CameraGroup.use_custom_resolution g) (CameraGroup.resolution_x g)
    (CameraGroup.resolution_y g) (CameraGroup.resolution_percentage g)
    (CameraGroup.use_custom_view_layer g) (CameraGroup.view_layer g).

(** [camera.shotmaster_camera.group = group] *)
Definition set_group (group : string) (camera : Object.t) : Object.t :=
  let c := Object.shotmaster_camera camera in
  Object.mk (Object.name camera) (Object.type camera)
    (ShotMasterCamera.mk
       (ShotMasterCamera.use_custom_render_settings c)
       (ShotMasterCamera.use_custom_resolution c)
       (ShotMasterCamera.resolution_x c)
       (ShotMasterCamera.resolution_y c)
       (ShotMasterCamera.resolution_percentage c)
       (ShotMasterCamera.render_engine c)
       (ShotMasterCamera.cycles_samples c)
       (ShotMasterCamera.eevee_samples c)
       (ShotMasterCamera.use_render_passes c)
       (ShotMasterCamera.render_passes c)
       (ShotMasterCamera.use_custom_output_path c)
       (ShotMasterCamera.output_path c)
       (ShotMasterCamera.file_format c)
       (ShotMasterCamera.filename c)
       (ShotMasterCamera.use_custom_view_layer c)
       (ShotMasterCamera.view_layer c)
       group
       (ShotMasterCamera.use_custom_frames c)
       (ShotMasterCamera.start_frame c)
       (ShotMasterCamera.end_frame c)).

(** [for group in groups: if group.name == group_name: ...] as a test. *)
Definition group_exists (group_name : string) (w : World) : bool :=
  existsb (fun group => (CameraGroup.name group =? group_name)%string)
          (shotmaster_camera_groups w).

Definition SHOTMASTER_OT_add_camera_group (group_name : string) (w : World)
  : Status * Report * World :=
  if negb (truthy group_name) then
    (CANCELLED, (ERROR, "Group name cannot be empty"), w)
  else if group_exists group_name w then
    (CANCELLED, (ERROR, "Group '" ++ group_name ++ "' already exists"), w)
  else
    let new_group := set_name group_name new_camera_group in
    (FINISHED, (INFO, "Added camera group '" ++ group_name ++ "'"),
     with_groups (shotmaster_camera_groups w ++ [new_group])%list w).

(** "Find the group index": the index of the first group of that name,
    counted from [i], or [-1]. *)
Fixpoint find_group_index (group_name : string) (i : Z)
    (groups : list CameraGroup.t) : Z :=
  match groups with
  | [] => -1
  | group :: rest =>
      if (CameraGroup.name group =? group_name)%string then i
      else find_group_index group_name (i + 1) rest
  end.

(** "Unassign all cameras from this group": the scene objects that
    [get_cameras_in_group] returns get an empty group. *)
Definition unassign_cameras (group_name : string) (w : World) : World :=
  let cameras := get_cameras_in_group w group_name in
  with_objects
    (map (fun obj => if decide (obj ∈ cameras) then set_group "" obj else obj)
         (objects w))
    w.

Definition SHOTMASTER_OT_remove_camera_group (group_name : string) (w : World)
  : Status * Report * World :=
  let group_index :=
    find_group_index group_name 0 (shotmaster_camera_groups w) in
  if group_index =? -1 then
    (CANCELLED, (ERROR, "Could not find group '" ++ group_name ++ "'"), w)
  else
    let w := unassign_cameras group_name w in
    let w := with_groups
               (delete (Z.to_nat group_index) (shotmaster_camera_groups w)) w in
    (FINISHED, (INFO, "Removed camera group '" ++ group_name ++ "'"), w).

(** An assignment to the object that [bpy.data.objects.get(name)] returned:
    the first object of that name, in the scene or outside it. *)
Fixpoint update_first (name : string) (f : Object.t -> Object.t)
    (objs : list Object.t) : option (list Object.t) :=
  match objs with
  | [] => None
  | obj :: rest =>
      if (Object.name obj =? name)%string then Some (f obj :: rest)
      else option_map (cons obj) (update_first name f rest)
  end.

Definition data_objects_update (d : Data) (name : string)
    (f : Object.t -> Object.t) : Data :=
  match update_first name f (objects (scene d)) with
  | Some objs => mkData (with_objects objs (scene d)) (unlinked d)
  | None =>
      match update_first name f (unlinked d) with
      | Some objs => mkData (scene d) objs
      | None => d
      end
  end.

Definition SHOTMASTER_OT_assign_camera_to_group
    (camera_name group_name : string) (d : Data) : Status * Report * Data :=
  match data_objects_get d camera_name with
  | None => (CANCELLED, (ERROR, "Invalid camera"), d)
  | Some camera =>
      if negb (Object.type camera =? "CAMERA")%string then
        (CANCELLED, (ERROR, "Invalid camera"), d)
      else if truthy group_name && negb (group_exists group_name (scene d))
      then
        (CANCELLED,
         (ERROR, "Group '" ++ group_name ++ "' does not exist"), d)
      else
        let d' := data_objects_update d camera_name (set_group group_name) in
        (FINISHED,
         (INFO,
          if truthy group_name
          then "Assigned camera '" ++ Object.name camera ++ "' to group '"
               ++ group_name ++ "'"
          else "Removed camera '" ++ Object.name camera ++ "' from group"),
         d')
  end.

(** *** The render pass operators

    They work on the [render_passes] of a camera and on its
    [active_pass_index], the row selected in the pass list of the panel.
    [camera] is the object that [bpy.data.objects.get] returned, with that
    index; [None] for a missing object. *)
Record PassCamera := mkPassCamera {
  camera_object : Object.t;
  active_pass_index : Z
}.

(** [collection.remove(index)]: an index out of range removes nothing. *)
Definition collection_remove {A} (index : Z) (l : list A) : list A :=
  if (0 <=? index) && (index <? Z.of_nat (length l))
  then delete (Z.to_nat index) l
  else l.

(** [collection.move(key, pos)]: the item at [key] is taken out and put back
    at [pos]; nothing moves when an index is out of range. *)
Definition collection_move {A} (key pos : Z) (l : list A) : list A :=
  let len := Z.of_nat (length l) in
  if (0 <=? key) && (key <? len) && (0 <=? pos) && (pos <? len)
     && negb (key =? pos)
  then
    match l !! Z.to_nat key with
    | Some x =>
        let rest := delete (Z.to_nat key) l in
        (take (Z.to_nat pos) rest ++ x :: drop (Z.to_nat pos) rest)%list
    | None => l
    end
  else l.

(** The camera with another pass list. *)
Definition set_render_passes (passes : list RenderPass.t) (camera : Object.t)
  : Object.t :=
  let c := Object.shotmaster_camera camera in
  Object.mk (Object.name camera) (Object.type camera)
    (ShotMasterCamera.mk
       (ShotMasterCamera.use_custom_render_settings c)
       (ShotMasterCamera.use_custom_resolution c)
       (ShotMasterCamera.resolution_x c)
       (ShotMasterCamera.resolution_y c)
       (ShotMasterCamera.resolution_percentage c)
       (ShotMasterCamera.render_engine c)
       (ShotMasterCamera.cycles_samples c)
       (ShotMasterCamera.eevee_samples c)
       (ShotMasterCamera.use_render_passes c)
       passes
       (ShotMasterCamera.use_custom_output_path c)
       (ShotMasterCamera.output_path c)
       (ShotMasterCamera.file_format c)
       (ShotMasterCamera.filename c)
       (ShotMasterCamera.use_custom_view_layer c)
       (ShotMasterCamera.view_layer c)
       (ShotMasterCamera.group c)
       (ShotMasterCamera.use_custom_frames c)
       (ShotMasterCamera.start_frame c)
       (ShotMasterCamera.end_frame c)).

Definition render_passes_of (camera : PassCamera) : list RenderPass.t :=
  ShotMasterCamera.render_passes
    (Object.shotmaster_camera (camera_object camera)).

(** [if not camera or camera.type != 'CAMERA'] *)
Definition invalid_camera (camera : option PassCamera) : bool :=
  match camera with
  | None => true
  | Some c => negb (Object.type (camera_object c) =? "CAMERA")%string
  end.

Definition SHOTMASTER_OT_add_render_pass (camera : option PassCamera)
  : Status * option Report * option PassCamera :=
  match camera with
  | None => (CANCELLED, Some (ERROR, "Invalid camera"), camera)
  | Some c =>
      if invalid_camera camera then
        (CANCELLED, Some (ERROR, "Invalid camera"), camera)
      else
        (* [new_pass = render_passes.add()] and its three assignments;
           [len(render_passes)] counts the new pass *)
        let count := Z.of_nat (length (render_passes_of c)) + 1 in
        let new_pass :=
          RenderPass.mk true "BEAUTY" ("pass_" ++ pretty count) in
        let passes := (render_passes_of c ++ [new_pass])%list in
        (FINISHED, None,
         Some (mkPassCamera (set_render_passes passes (camera_object c))
                 (count - 1)))
  end.

Definition SHOTMASTER_OT_delete_render_pass (camera : option PassCamera)
  : Status * option Report * option PassCamera :=
  match camera with
  | None => (CANCELLED, Some (ERROR, "Invalid camera"), camera)
  | Some c =>
      if invalid_camera camera then
        (CANCELLED, Some (ERROR, "Invalid camera"), camera)
      else if Z.of_nat (length (render_passes_of c)) <=? 0 then
        (CANCELLED, Some (ERROR, "No render passes to delete"), camera)
      else
        let index := active_pass_index c in
        let passes := collection_remove index (render_passes_of c) in
        let active :=
          if index >=? Z.of_nat (length passes)
          then Z.max 0 (Z.of_nat (length passes) - 1)
          else index in
        (FINISHED, None,
         Some (mkPassCamera (set_render_passes passes (camera_object c))
                 active))
  end.

Definition SHOTMASTER_OT_move_render_pass_up (camera : option PassCamera)
  : Status * option Report * option PassCamera :=
  match camera with
  | None => (CANCELLED, Some (ERROR, "Invalid camera"), camera)
  | Some c =>
      if invalid_camera camera then
        (CANCELLED, Some (ERROR, "Invalid camera"), camera)
      else
        let index := active_pass_index c in
        if (index <=? 0)
           || (index >=? Z.of_nat (length (render_passes_of c)))
        then (CANCELLED, None, camera)
        else
          let passes :=
            collection_move index (index - 1) (render_passes_of c) in
          (FINISHED, None,
           Some (mkPassCamera (set_render_passes passes (camera_object c))
                   (index - 1)))
  end.

Definition SHOTMASTER_OT_move_render_pass_down (camera : option PassCamera)
  : Status * option Report * option PassCamera :=
  match camera with
  | None => (CANCELLED, Some (ERROR, "Invalid camera"), camera)
  | Some c =>
      if invalid_camera camera then
        (CANCELLED, Some (ERROR, "Invalid camera"), camera)
      else
        let index := active_pass_index c in
        if (index <? 0)
           || (index >=? Z.of_nat (length (render_passes_of c)) - 1)
        then (CANCELLED, None, camera)
        else
          let passes :=
            collection_move index (index + 1) (render_passes_of c) in
          (FINISHED, None,
           Some (mkPassCamera (set_render_passes passes (camera_object c))
                   (index + 1)))
  end.

(** ** Auxiliary notions used in the statements *)

(** A host on which no property assignment raises. *)
Definition accepting (h : Host) : Prop := forall x, accepts h x = true.

(** The same camera with its group reference cleared. *)
Definition ungroup (camera : Object.t) : Object.t :=
  let c := Object.shotmaster_camera camera in
  Object.mk (Object.name camera) (Object.type camera)
    (ShotMasterCamera.mk
       (ShotMasterCamera.use_custom_render_settings c)
       (ShotMasterCamera.use_custom_resolution c)
       (ShotMasterCamera.resolution_x c)
       (ShotMasterCamera.resolution_y c)
       (ShotMasterCamera.resolution_percentage c)
       (ShotMasterCamera.render_engine c)
       (ShotMasterCamera.cycles_samples c)
       (ShotMasterCamera.eevee_samples c)
       (ShotMasterCamera.use_render_passes c)
       (ShotMasterCamera.render_passes c)
       (ShotMasterCamera.use_custom_output_path c)
       (ShotMasterCamera.output_path c)
       (ShotMasterCamera.file_format c)
       (ShotMasterCamera.filename c)
       (ShotMasterCamera.use_custom_view_layer c)
       (ShotMasterCamera.view_layer c)
       ""
       (ShotMasterCamera.use_custom_frames c)
       (ShotMasterCamera.start_frame c)
       (ShotMasterCamera.end_frame c)).

(** The group record that the group loop of [setup_render_settings] stops
    at, if any. *)
Definition camera_group (w : World) (cam : ShotMasterCamera.t)
  : option CameraGroup.t :=
  if truthy (ShotMasterCamera.group cam)
  then find (fun g => (CameraGroup.name g =? ShotMasterCamera.group cam)%string)
            (shotmaster_camera_groups w)
  else None.

(** Every character of [s] satisfies [p]. *)
Fixpoint all_chars (p : ascii -> bool) (s : string) : bool :=
  match s with
  | EmptyString => true
  | String c s' => p c && all_chars p s'
  end.

(** A character that sanitisation leaves alone: kept by the filter and not
    white space. *)
Definition settled (c : ascii) : bool := keep_char c && negb (isspace c).

(** The part of the render environment that the precedence chain decides:
    engine, resolution (width, height, percentage) and frame range. *)
Definition resolution_of (r : RenderEnv.t) : Z * Z * Z :=
  (RenderEnv.resolution_x r, RenderEnv.resolution_y r,
   RenderEnv.resolution_percentage r).

Definition frame_range_of (r : RenderEnv.t) : Z * Z :=
  (RenderEnv.frame_start r, RenderEnv.frame_end r).

Definition summary (w : World) : string * (Z * Z * Z) * (Z * Z) :=
  (RenderEnv.engine (env w), resolution_of (env w), frame_range_of (env w)).

Definition master_resolution (s : ShotMasterSettings.t) : Z * Z * Z :=
  (ShotMasterSettings.master_resolution_x s,
   ShotMasterSettings.master_resolution_y s,
   ShotMasterSettings.master_resolution_percentage s).

Definition group_resolution (g : CameraGroup.t) : Z * Z * Z :=
  (CameraGroup.resolution_x g, CameraGroup.resolution_y g,
   CameraGroup.resolution_percentage g).

Definition camera_resolution (cam : ShotMasterCamera.t) : Z * Z * Z :=
  (ShotMasterCamera.resolution_x cam, ShotMasterCamera.resolution_y cam,
   ShotMasterCamera.resolution_percentage cam).

(** The effect of one assignment on the summary. *)
Definition upd (x : HostWrite) (s : string * (Z * Z * Z) * (Z * Z))
  : string * (Z * Z * Z) * (Z * Z) :=
  let '(e, (rx, ry, rp), (fs, fe)) := s in
  match x with
  | SetEngine e' => (e', (rx, ry, rp), (fs, fe))
  | SetResolutionX n => (e, (n, ry, rp), (fs, fe))
  | SetResolutionY n => (e, (rx, n, rp), (fs, fe))
  | SetResolutionPercentage n => (e, (rx, ry, n), (fs, fe))
  | SetFrameStart n => (e, (rx, ry, rp), (n, fe))
  | SetFrameEnd n => (e, (rx, ry, rp), (fs, n))
  | _ => s
  end.

(** The effect of an override block (of a group or of the camera) on the
    summary: the engine is replaced under the render-settings toggle, the
    resolution under both toggles. *)
Definition override (on on_resolution : bool) (engine : string)
    (resolution : Z * Z * Z) (s : string * (Z * Z * Z) * (Z * Z))
  : string * (Z * Z * Z) * (Z * Z) :=
  let '(e, r, f) := s in
  (if on then engine else e,
   if on && on_resolution then resolution else r, f).

(** A computation that returns on every world and changes the summary by
    [F]. *)
Definition tracks (m : M unit)
    (F : string * (Z * Z * Z) * (Z * Z) -> string * (Z * Z * Z) * (Z * Z))
  : Prop :=
  forall w, exists w', m w = (inr tt, w') /\ summary w' = F (summary w).

(** What a camera gets from the tiers below it: the engine of its group when
    the group has its render settings switched on, else the master's; the
    resolution of its group when the group has both its render settings and
    its resolution switched on, else the master's. *)
Definition inherited_engine (w : World) (cam : ShotMasterCamera.t) : string :=
  match camera_group w cam with
  | Some g =>
      if CameraGroup.use_custom_render_settings g
      then CameraGroup.render_engine g
      else ShotMasterSettings.master_render_engine (shotmaster_settings w)
  | None => ShotMasterSettings.master_render_engine (shotmaster_settings w)
  end.

Definition inherited_resolution (w : World) (cam : ShotMasterCamera.t)
  : Z * Z * Z :=
  match camera_group w cam with
  | Some g =>
      if CameraGroup.use_custom_render_settings g
         && CameraGroup.use_custom_resolution g
      then group_resolution g
      else master_resolution (shotmaster_settings w)
  | None => master_resolution (shotmaster_settings w)
  end.

(** What a job leaves alone: the view layers, the add-on's settings and
    groups, and the scene objects. *)
Definition frame (w w' : World) : Prop :=
  view_layers w' = view_layers w
  /\ shotmaster_settings w' = shotmaster_settings w
  /\ shotmaster_camera_groups w' = shotmaster_camera_groups w
  /\ objects w' = objects w.

(** [frame], and no renderer call either. *)
Definition quiet (w w' : World) : Prop :=
  frame w w' /\ calls w' = calls w.

(** A computation whose final world is always related to its initial one. *)
Definition keeps {A} (R : World -> World -> Prop) (m : M A) : Prop :=
  forall w, R w (snd (m w)).

(** A computation that never raises. *)
Definition returns {A} (m : M A) : Prop :=
  forall w, exists a w', m w = (inr a, w').

Definition setup_ok (h : Host) (camera : Object.t) (is_viewport : bool)
    (w : World) : bool :=
  match fst (setup_render_settings h camera is_viewport w) with
  | inr _ => true
  | inl _ => false
  end.

(** The job gets as far as the statistics block: the object is a camera, the
    setup call returns, and in a viewport still the OpenGL render returns. *)
Definition reaches_statistics (h : Host) (camera : option Object.t)
    (render_animation is_viewport : bool) (w : World) : bool :=
  match camera with
  | None => false
  | Some c =>
      (Object.type c =? "CAMERA")%string
      && setup_ok h c is_viewport w
      && (negb is_viewport || render_animation
          || render_ok h (length (calls w)))
  end.

(** The directory a pass is rendered into: the one derived for it, or the
    fallback of the pass loop when that one cannot be created. *)
Definition pass_output_dir (h : Host) (w : World) (camera : Object.t)
    (render_animation : bool) (pass_name : option string) : string :=
  let output_dir :=
    get_camera_output_path h w camera render_animation pass_name in
  if makedirs_ok h output_dir then output_dir else abspath h "//renders/".

(** The value of [scene.render.filepath] for a pass. *)
Definition pass_filepath (h : Host) (w : World) (camera : Object.t)
    (render_animation : bool) (pass_name : option string) : string :=
  os_path_join (pass_output_dir h w camera render_animation pass_name)
    [pass_filename camera pass_name].

Definition pass_call (render_animation : bool) (path : string) (ok : bool)
  : EngineCall :=
  if render_animation then RenderAnimation path ok else RenderStill path ok.

(** The renderer calls of a pass sequence whose first call is the [n]-th of
    the host. *)
Fixpoint pass_calls (h : Host) (w : World) (camera : Object.t)
    (render_animation : bool) (n : nat) (passes : list (option string))
  : list EngineCall :=
  match passes with
  | [] => []
  | pass_name :: rest =>
      pass_call render_animation
        (pass_filepath h w camera render_animation pass_name) (render_ok h n)
      :: pass_calls h w camera render_animation (S n) rest
  end.

(** The three-valued outcome of the specification, written after its words:
    success when every pass succeeded, failure when none did, partial
    otherwise. *)
Inductive Outcome := Success | Partial | Failure.

Definition spec_outcome (pass_results : list bool) : Outcome :=
  if forallb (fun ok => ok) pass_results then Success
  else if existsb (fun ok => ok) pass_results then Partial
  else Failure.

(** ** Sample scenes

    Concrete records on which the methods are run below.  The defaults are
    those of the property declarations. *)

Definition beauty_pass : RenderPass.t := RenderPass.mk true "BEAUTY" "beauty".

(** A camera as [create_camera] leaves it: no override, one "beauty" pass,
    passes not in use. *)
Definition default_camera : ShotMasterCamera.t :=
  ShotMasterCamera.mk false false 1920 1080 100 "CYCLES" 128 64
    false [beauty_pass] false "" "PNG" "shot" false "" "" false 1 250.

Definition shot_a : Object.t := Object.mk "Shot A" "CAMERA" default_camera.

Definition default_settings : ShotMasterSettings.t :=
  ShotMasterSettings.mk 1 250 "//renders/" 1920 1080 100 "CYCLES" 128 64 0 0 0.

(** A scene the user has set up for Workbench at 1280x720, 64 Cycles
    samples. *)
Definition user_env : RenderEnv.t :=
  RenderEnv.mk "BLENDER_WORKBENCH" 1280 720 75 "/tmp/" "JPEG" None 10 20
    64 16 "ViewLayer".

Definition user_world : World :=
  mkWorld user_env ["ViewLayer"; "Mattes"] default_settings [] [shot_a] [].

(** A host on which nothing fails; a job takes 5 ticks. *)
Definition cooperative_host : Host :=
  mkHost (fun _ => true) (fun _ => true) (fun _ => true) "/proj" 100 105.

(** The same host with a renderer that fails every time. *)
Definition broken_renderer_host : Host :=
  mkHost (fun _ => true) (fun _ => true) (fun _ => false) "/proj" 100 105.

(** A camera that uses passes, with its only pass switched off. *)
Definition no_pass_camera : Object.t :=
  Object.mk "Shot A" "CAMERA"
    (ShotMasterCamera.mk false false 1920 1080 100 "CYCLES" 128 64
       true [RenderPass.mk false "BEAUTY" "beauty"]
       false "" "PNG" "shot" false "" "" false 1 250).

(** A camera with three enabled passes. *)
Definition three_pass_camera : Object.t :=
  Object.mk "Shot A" "CAMERA"
    (ShotMasterCamera.mk false false 1920 1080 100 "CYCLES" 128 64
       true
       [RenderPass.mk true "BEAUTY" "beauty";
        RenderPass.mk true "Z" "depth";
        RenderPass.mk true "MIST" "mist"]
       false "" "PNG" "shot" false "" "" false 1 250).

(** A host whose second renderer call fails. *)
Definition flaky_host : Host :=
  mkHost (fun _ => true) (fun _ => true) (fun n => negb (Nat.eqb n 1))
    "/proj" 100 105.

(** A camera whose group reference names a group that does not exist. *)
Definition ghost_camera : Object.t :=
  Object.mk "Shot A" "CAMERA"
    (ShotMasterCamera.mk false false 1920 1080 100 "CYCLES" 128 64
       false [beauty_pass] false "" "PNG" "shot" false "" "Ghost"
       false 1 250).

(** The camera "Shot A" in the group "Ext", which has no path of its own,
    under the master path "root/". *)
Definition ext_group : CameraGroup.t :=
  CameraGroup.mk "Ext" false "" false "CYCLES" 128 64 false 1920 1080 100
    false "".

Definition ext_camera : Object.t :=
  Object.mk "Shot A" "CAMERA"
    (ShotMasterCamera.mk false false 1920 1080 100 "CYCLES" 128 64
       false [beauty_pass] false "" "PNG" "shot" false "" "Ext"
       false 1 250).

Definition ext_world : World :=
  mkWorld user_env ["ViewLayer"]
    (ShotMasterSettings.mk 1 250 "root/" 1920 1080 100 "CYCLES" 128 64 0 0 0)
    [ext_group] [ext_camera] [].

(** A camera with its resolution switch on (640x480 at 50%) and its render
    settings switch off. *)
Definition resolution_only_camera : Object.t :=
  Object.mk "Shot A" "CAMERA"
    (ShotMasterCamera.mk false true 640 480 50 "BLENDER_EEVEE" 128 64
       false [beauty_pass] false "" "PNG" "shot" false "" "" false 1 250).

(** A camera that asks for the view layer "Mattes". *)
Definition layered_camera : Object.t :=
  Object.mk "Shot A" "CAMERA"
    (ShotMasterCamera.mk false false 1920 1080 100 "CYCLES" 128 64
       false [beauty_pass] false "" "PNG" "shot" true "Mattes" ""
       false 1 250).

(** A camera with its own engine, Eevee under the identifier the add-on
    offers. *)
Definition eevee_camera : Object.t :=
  Object.mk "Shot A" "CAMERA"
    (ShotMasterCamera.mk true false 1920 1080 100 "BLENDER_EEVEE" 128 64
       false [beauty_pass] false "" "PNG" "shot" false "" "" false 1 250).

(** A host whose [render.engine] has no item ['BLENDER_EEVEE'] (Blender 4.2
    to 4.5 call that engine ['BLENDER_EEVEE_NEXT']): assigning it raises. *)
Definition eevee_next_host : Host :=
  mkHost (fun x => match x with
                   | SetEngine e => negb (e =? "BLENDER_EEVEE")%string
                   | _ => true
                   end)
         (fun _ => true) (fun _ => true) "/proj" 100 105.

(** A group that renders with Eevee, and a camera of that group with no
    override of its own, under a master set to Cycles. *)
Definition eevee_group : CameraGroup.t :=
  CameraGroup.mk "Ext" false "" true "BLENDER_EEVEE" 128 64 false 1920 1080
    100 false "".

Definition grouped_world : World :=
  mkWorld user_env ["ViewLayer"] default_settings [eevee_group] [ext_camera]
    [].

(** A host on which only the fallback directory of the pass loop can be
    created. *)
Definition fallback_only_host : Host :=
  mkHost (fun _ => true) (fun p => (p =? "/proj/renders/")%string)
    (fun _ => true) "/proj" 100 105.

(** A host on which no directory can be created. *)
Definition no_directory_host : Host :=
  mkHost (fun _ => true) (fun _ => false) (fun _ => true) "/proj" 100 105.

(** What no job touches: the list of view layers, the groups and the scene
    objects. *)
Definition store_kept (w w' : World) : Prop :=
  view_layers w' = view_layers w
  /\ shotmaster_camera_groups w' = shotmaster_camera_groups w
  /\ objects w' = objects w.

(** The master values of the settings, without the three counters. *)
Definition master_values (s : ShotMasterSettings.t) :=
  (ShotMasterSettings.master_start_frame s,
   ShotMasterSettings.master_end_frame s,
   ShotMasterSettings.master_output_path s,
   master_resolution s,
   ShotMasterSettings.master_render_engine s,
   ShotMasterSettings.master_cycles_samples s,
   ShotMasterSettings.master_eevee_samples s).

(** The part of the render environment that the sample counts and the view
    layer depend on: engine, Cycles samples, Eevee samples, view layer. *)
Definition sampling (w : World) : string * Z * Z * string :=
  (RenderEnv.engine (env w), RenderEnv.cycles_samples (env w),
   RenderEnv.eevee_taa_render_samples (env w), RenderEnv.view_layer (env w)).

Definition upd_sampling (x : HostWrite) (s : string * Z * Z * string)
  : string * Z * Z * string :=
  let '(e, cy, ee, vl) := s in
  match x with
  | SetEngine e' => (e', cy, ee, vl)
  | SetCyclesSamples n => (e, n, ee, vl)
  | SetEeveeSamples n => (e, cy, n, vl)
  | SetViewLayer l => (e, cy, ee, l)
  | _ => s
  end.

(** The sample count goes to the current engine, if it is Cycles or Eevee. *)
Definition samples_effect (cycles eevee : Z) (s : string * Z * Z * string)
  : string * Z * Z * string :=
  let '(e, cy, ee, vl) := s in
  if (e =? "CYCLES")%string then (e, cycles, ee, vl)
  else if (e =? "BLENDER_EEVEE")%string then (e, cy, eevee, vl)
  else s.

(** A view layer is taken only when switched on and present in the scene. *)
Definition layer_effect (layers : list string) (use_custom : bool)
    (layer : string) (s : string * Z * Z * string) : string * Z * Z * string :=
  let '(e, cy, ee, vl) := s in
  if use_custom && bool_decide (layer ∈ layers) then (e, cy, ee, layer) else s.

(** An override block (of a group or of the camera) on that part. *)
Definition override_sampling (layers : list string) (on : bool)
    (engine : string) (cycles eevee : Z) (use_layer : bool) (layer : string)
    (s : string * Z * Z * string) : string * Z * Z * string :=
  layer_effect layers use_layer layer
    (if on then samples_effect cycles eevee (upd_sampling (SetEngine engine) s)
     else s).

(** A computation that returns on every world, keeps the list of view
    layers and changes the sampling part by [F]. *)
Definition tracks_sampling (m : M unit)
    (F : list string -> string * Z * Z * string -> string * Z * Z * string)
  : Prop :=
  forall w, exists w',
    m w = (inr tt, w')
    /\ sampling w' = F (view_layers w) (sampling w)
    /\ view_layers w' = view_layers w.

(** The sample counts a camera gets from the tiers below it. *)
Definition inherited_cycles_samples (w : World) (cam : ShotMasterCamera.t) : Z :=
  match camera_group w cam with
  | Some g =>
      if CameraGroup.use_custom_render_settings g
      then CameraGroup.cycles_samples g
      else ShotMasterSettings.master_cycles_samples (shotmaster_settings w)
  | None => ShotMasterSettings.master_cycles_samples (shotmaster_settings w)
  end.

Definition inherited_eevee_samples (w : World) (cam : ShotMasterCamera.t) : Z :=
  match camera_group w cam with
  | Some g =>
      if CameraGroup.use_custom_render_settings g
      then CameraGroup.eevee_samples g
      else ShotMasterSettings.master_eevee_samples (shotmaster_settings w)
  | None => ShotMasterSettings.master_eevee_samples (shotmaster_settings w)
  end.

(** A camera that renders with Eevee at 32 samples on the layer "Mattes",
    in a group that asks for a layer the scene does not have. *)
Definition mattes_group : CameraGroup.t :=
  CameraGroup.mk "Ext" false "" true "CYCLES" 256 48 false 1920 1080 100
    true "Missing".

Definition mattes_camera : Object.t :=
  Object.mk "Shot A" "CAMERA"
    (ShotMasterCamera.mk true false 1920 1080 100 "BLENDER_EEVEE" 512 32
       false [beauty_pass] false "" "PNG" "shot" true "Mattes" "Ext"
       false 1 250).

Definition mattes_world : World :=
  mkWorld user_env ["ViewLayer"; "Mattes"] default_settings [mattes_group]
    [mattes_camera] [].

(** The bucket of the group tally a camera is counted in. *)
Definition bucket_of (camera : Object.t) : string :=
  let group_name := ShotMasterCamera.group (Object.shotmaster_camera camera) in
  if truthy group_name then group_name else "Ungrouped".

(** How many cameras of a list are counted in bucket [k]. *)
Definition bucket_count (k : string) (cameras : list Object.t) : Z :=
  Z.of_nat (length (filter (fun c => bucket_of c = k) cameras)).

(** The three engines the add-on's engine properties offer. *)
Definition known_engine (e : string) : Prop :=
  e = "CYCLES" \/ e = "BLENDER_EEVEE" \/ e = "BLENDER_WORKBENCH".

(** A scene with two groups, two cameras in the first, one camera whose
    group is not declared, and one camera without group. *)
Definition crowd_camera (name group : string) : Object.t :=
  Object.mk name "CAMERA"
    (ShotMasterCamera.mk false false 1920 1080 100 "CYCLES" 128 64
       false [beauty_pass] false "" "PNG" "shot" false "" group
       false 1 250).

Definition crowd_world : World :=
  mkWorld user_env ["ViewLayer"] default_settings
    [ext_group; CameraGroup.mk "Int" false "" false "CYCLES" 128 64 false
                  1920 1080 100 false ""]
    [crowd_camera "A" "Ext"; crowd_camera "B" "Ext"; crowd_camera "C" "Ghost";
     crowd_camera "D" ""; Object.mk "Lamp" "LIGHT" default_camera]
    [].

(** A bucket that exists before any camera is counted: "Ungrouped" or the
    name of a declared group. *)
Definition declared_bucket (w : World) (k : string) : Prop :=
  k = "Ungrouped"
  \/ Exists (fun g => CameraGroup.name g = k) (shotmaster_camera_groups w).

(** The number of frames in the range a setup for [camera] leaves in the
    scene. *)
Definition setup_frames (h : Host) (w : World) (is_viewport : bool)
    (camera : Object.t) : Z :=
  let r := env (snd (setup_render_settings h camera is_viewport w)) in
  RenderEnv.frame_end r - RenderEnv.frame_start r + 1.

Definition sum_Z (l : list Z) : Z := fold_right Z.add 0 l.

(** One invocation of a camera group operator, and a session of them. *)
Inductive GroupOp :=
  | AddGroup (group_name : string)
  | RemoveGroup (group_name : string)
  | AssignCamera (camera_name group_name : string).

Definition run_group_op (op : GroupOp) (d : Data) : Data :=
  match op with
  | AddGroup group_name =>
      mkData (snd (SHOTMASTER_OT_add_camera_group group_name (scene d)))
             (unlinked d)
  | RemoveGroup group_name =>
      mkData (snd (SHOTMASTER_OT_remove_camera_group group_name (scene d)))
             (unlinked d)
  | AssignCamera camera_name group_name =>
      snd (SHOTMASTER_OT_assign_camera_to_group camera_name group_name d)
  end.

Definition run_group_ops (ops : list GroupOp) (d : Data) : Data :=
  fold_left (fun d op => run_group_op op d) ops d.

(** The group of the camera is declared. *)
Definition group_declared (w : World) (camera : Object.t) : Prop :=
  Exists (fun g => CameraGroup.name g
                   = ShotMasterCamera.group (Object.shotmaster_camera camera))
         (shotmaster_camera_groups w).

(** Group names are distinct and not empty, and every scene camera is
    ungrouped or in a declared group. *)
Definition groups_consistent (w : World) : Prop :=
  NoDup (map CameraGroup.name (shotmaster_camera_groups w))
  /\ Forall (fun g => CameraGroup.name g <> "") (shotmaster_camera_groups w)
  /\ Forall (fun c => ShotMasterCamera.group (Object.shotmaster_camera c) = ""
                      \/ group_declared w c)
            (get_all_cameras w).

(** What "unassign all cameras from this group" does to one scene object. *)
Definition unassigned (group_name : string) (obj : Object.t) : Object.t :=
  if decide (Object.type obj = "CAMERA"
             /\ group_name <> ""
             /\ ShotMasterCamera.group (Object.shotmaster_camera obj)
                = group_name)
  then set_group "" obj else obj.

(** One invocation of a render pass operator on a camera, and a session of
    them. *)
Inductive PassOp := AddPass | DeletePass | MovePassUp | MovePassDown.

Definition pass_operator (op : PassOp)
  : option PassCamera -> Status * option Report * option PassCamera :=
  match op with
  | AddPass => SHOTMASTER_OT_add_render_pass
  | DeletePass => SHOTMASTER_OT_delete_render_pass
  | MovePassUp => SHOTMASTER_OT_move_render_pass_up
  | MovePassDown => SHOTMASTER_OT_move_render_pass_down
  end.

Definition run_pass_op (op : PassOp) (c : PassCamera) : PassCamera :=
  match snd (pass_operator op (Some c)) with
  | Some c' => c'
  | None => c
  end.

Definition run_pass_ops (ops : list PassOp) (c : PassCamera) : PassCamera :=
  fold_left (fun c op => run_pass_op op c) ops c.

(** The active index points at a pass, or is 0 when there is none. *)
Definition index_valid (c : PassCamera) : Prop :=
  0 <= active_pass_index c
  /\ active_pass_index c
     <= Z.max 0 (Z.of_nat (length (render_passes_of c)) - 1).

(** The pass the active index points at. *)
Definition active_pass (c : PassCamera) : option RenderPass.t :=
  if 0 <=? active_pass_index c
  then render_passes_of c !! Z.to_nat (active_pass_index c)
  else None.

(** ** Values the host stores as assigned

    The ranges within which a host stores a number as assigned: a resolution
    of 4 to 65536 pixels at 1 to 32767 percent, a sample count of 1 to
    16777216, a frame range with [0 <= start <= end <= 1048574]. *)
Definition resolution_in_range (r : Z * Z * Z) : Prop :=
  let '(x, y, p) := r in
  4 <= x <= 65536 /\ 4 <= y <= 65536 /\ 1 <= p <= 32767.

Definition samples_in_range (n : Z) : Prop := 1 <= n <= 16777216.

Definition frames_in_range (f : Z * Z) : Prop :=
  0 <= fst f /\ fst f <= snd f /\ snd f <= 1048574.

(** The counters can take one more job of [render_time] ticks: the render
    count is below the largest 32-bit integer, and the duration and the new
    total are whole numbers that single precision holds exactly. *)
Definition counters_in_range (render_time : Z) (s : ShotMasterSettings.t)
  : Prop :=
  0 <= ShotMasterSettings.total_renders s < 2147483647
  /\ 0 <= render_time
  /\ 0 <= ShotMasterSettings.total_render_time s
  /\ ShotMasterSettings.total_render_time s + render_time <= 16777216.

(** ** What a camera resolves to, tier by tier

    Each value by its own toggle, camera before group before master, as the
    claim on precedence reads once corrected: the resolution needs the
    render-settings toggle besides its own. *)
Definition resolved_engine (w : World) (cam : ShotMasterCamera.t) : string :=
  if ShotMasterCamera.use_custom_render_settings cam
  then ShotMasterCamera.render_engine cam
  else inherited_engine w cam.

Definition resolved_resolution (w : World) (cam : ShotMasterCamera.t)
  : Z * Z * Z :=
  if ShotMasterCamera.use_custom_render_settings cam
     && ShotMasterCamera.use_custom_resolution cam
  then camera_resolution cam
  else inherited_resolution w cam.

Definition resolved_cycles_samples (w : World) (cam : ShotMasterCamera.t)
  : Z :=
  if ShotMasterCamera.use_custom_render_settings cam
  then ShotMasterCamera.cycles_samples cam
  else inherited_cycles_samples w cam.

Definition resolved_eevee_samples (w : World) (cam : ShotMasterCamera.t)
  : Z :=
  if ShotMasterCamera.use_custom_render_settings cam
  then ShotMasterCamera.eevee_samples cam
  else inherited_eevee_samples w cam.

Definition resolved_frame_range (w : World) (cam : ShotMasterCamera.t)
  : Z * Z :=
  if ShotMasterCamera.use_custom_frames cam
  then (ShotMasterCamera.start_frame cam, ShotMasterCamera.end_frame cam)
  else (ShotMasterSettings.master_start_frame (shotmaster_settings w),
        ShotMasterSettings.master_end_frame (shotmaster_settings w)).

(** The view layer: the camera's when its toggle is set and the scene has
    that layer, else the group's likewise, else the layer that is current. *)
Definition resolved_view_layer (w : World) (cam : ShotMasterCamera.t)
  : string :=
  if ShotMasterCamera.use_custom_view_layer cam
     && bool_decide (ShotMasterCamera.view_layer cam ∈ view_layers w)
  then ShotMasterCamera.view_layer cam
  else match camera_group w cam with
       | Some g =>
           if CameraGroup.use_custom_view_layer g
              && bool_decide (CameraGroup.view_layer g ∈ view_layers w)
           then CameraGroup.view_layer g
           else RenderEnv.view_layer (env w)
       | None => RenderEnv.view_layer (env w)
       end.

(** The group whose output path a camera can inherit: the first group that
    bears the camera's group name and has its output-path toggle set. *)
Definition output_group (w : World) (cam : ShotMasterCamera.t)
  : option CameraGroup.t :=
  if truthy (ShotMasterCamera.group cam) then
    find (fun g => (CameraGroup.name g =? ShotMasterCamera.group cam)%string
                   && CameraGroup.use_custom_output_path g)
         (shotmaster_camera_groups w)
  else None.

(** The output path before it is made absolute: the camera's when its
    toggle is set and the path is not empty, else that of the group, if not
    empty, else the master's. *)
Definition resolved_output_path (w : World) (cam : ShotMasterCamera.t)
  : string :=
  let master :=
    ShotMasterSettings.master_output_path (shotmaster_settings w) in
  let inherited :=
    match output_group w cam with
    | Some g => if truthy (CameraGroup.output_path g)
                then CameraGroup.output_path g else master
    | None => master
    end in
  if ShotMasterCamera.use_custom_output_path cam
     && truthy (ShotMasterCamera.output_path cam)
  then ShotMasterCamera.output_path cam
  else inherited.

(** * Properties *)

(** ** Strings *)

Lemma settled_after_replace c :
  keep_char c = true ->
  settled (if Ascii.eqb c " " then "_"%char else c) = true.
Proof.
  destruct c as [[] [] [] [] [] [] [] []]; vm_compute; congruence.
Qed.

Lemma settled_keep c : settled c = true -> keep_char c = true.
Proof. unfold settled. intros H. apply andb_prop in H. tauto. Qed.

Lemma settled_not_space c : settled c = true -> isspace c = false.
Proof.
  unfold settled. intros H. apply andb_prop in H.
  destruct H as [_ H]. now apply negb_true_iff in H.
Qed.

Lemma settled_not_blank c : settled c = true -> Ascii.eqb c " " = false.
Proof.
  intros H. apply settled_not_space in H.
  destruct (Ascii.eqb_spec c " ") as [->|]; [discriminate H | reflexivity].
Qed.

Lemma all_chars_str_filter p s : all_chars p (str_filter p s) = true.
Proof.
  induction s as [|c s IH]; simpl; [reflexivity|].
  destruct (p c) eqn:E; simpl; [rewrite E|]; exact IH.
Qed.

Lemma all_chars_lstrip p s :
  all_chars p s = true -> all_chars p (lstrip s) = true.
Proof.
  induction s as [|c s IH]; simpl; [easy|].
  intros H. destruct (isspace c); [|exact H].
  apply andb_prop in H. now apply IH.
Qed.

Lemma all_chars_rstrip p s :
  all_chars p s = true -> all_chars p (rstrip s) = true.
Proof.
  induction s as [|c s IH]; simpl; [easy|].
  intros H. apply andb_prop in H. destruct H as [Hc Hs].
  specialize (IH Hs). destruct (rstrip s) as [|d r].
  - destruct (isspace c); simpl; [reflexivity|now rewrite Hc].
  - simpl in *. now rewrite Hc.
Qed.

Lemma all_chars_replace s :
  all_chars keep_char s = true ->
  all_chars settled (replace " " "_" s) = true.
Proof.
  induction s as [|c s IH]; simpl; [easy|].
  intros H. apply andb_prop in H. destruct H as [Hc Hs].
  now rewrite settled_after_replace, IH.
Qed.

Lemma sanitize_settled name : all_chars settled (sanitize name) = true.
Proof.
  unfold sanitize, strip.
  apply all_chars_replace, all_chars_rstrip, all_chars_lstrip,
    all_chars_str_filter.
Qed.

Lemma str_filter_settled s :
  all_chars settled s = true -> str_filter keep_char s = s.
Proof.
  induction s as [|c s IH]; simpl; [easy|].
  intros H. apply andb_prop in H. destruct H as [Hc Hs].
  now rewrite (settled_keep _ Hc), IH.
Qed.

Lemma lstrip_settled s : all_chars settled s = true -> lstrip s = s.
Proof.
  destruct s as [|c s]; simpl; [easy|].
  intros H. apply andb_prop in H. destruct H as [Hc _].
  now rewrite (settled_not_space _ Hc).
Qed.

Lemma rstrip_settled s : all_chars settled s = true -> rstrip s = s.
Proof.
  induction s as [|c s IH]; simpl; [easy|].
  intros H. apply andb_prop in H. destruct H as [Hc Hs].
  rewrite (IH Hs). destruct s; [|reflexivity].
  now rewrite (settled_not_space _ Hc).
Qed.

Lemma replace_settled s :
  all_chars settled s = true -> replace " " "_" s = s.
Proof.
  induction s as [|c s IH]; simpl; [easy|].
  intros H. apply andb_prop in H. destruct H as [Hc Hs].
  now rewrite (settled_not_blank _ Hc), IH.
Qed.

Lemma sanitize_idempotent name : sanitize (sanitize name) = sanitize name.
Proof.
  pose proof (sanitize_settled name) as H.
  unfold sanitize at 1. unfold strip.
  rewrite (str_filter_settled _ H), (lstrip_settled _ H),
    (rstrip_settled _ H).
  exact (replace_settled _ H).
Qed.

(** ** The monad *)

Lemma bind_ret_l {A B} (a : A) (k : A -> M B) w : bind (ret a) k w = k a w.
Proof. reflexivity. Qed.

Lemma bind_get {B} (k : World -> M B) w : bind get k w = k w w.
Proof. reflexivity. Qed.

Lemma bind_assoc {A B C} (m : M A) (k1 : A -> M B) (k2 : B -> M C) w :
  bind (bind m k1) k2 w = bind m (fun a => bind (k1 a) k2) w.
Proof. unfold bind. now destruct (m w) as [[e|a] w1]. Qed.

Lemma bind_inr {A B} (m : M A) (k : A -> M B) w a w' :
  m w = (inr a, w') -> bind m k w = k a w'.
Proof. unfold bind. now intros ->. Qed.

Lemma bind_inl {A B} (m : M A) (k : A -> M B) w e w' :
  m w = (inl e, w') -> bind m k w = (inl e, w').
Proof. unfold bind. now intros ->. Qed.

Lemma write_accepting h x w :
  accepting h -> write h x w = (inr tt, with_env (apply_write x) w).
Proof. intros H. unfold write. now rewrite H. Qed.

Lemma bind_write {B} h x (k : unit -> M B) w :
  accepting h -> bind (write h x) k w = k tt (with_env (apply_write x) w).
Proof. intros H. apply bind_inr. now apply write_accepting. Qed.

(** ** What the computations leave alone *)

Section Keeps.
Variable R : World -> World -> Prop.
Hypothesis R_refl : forall w, R w w.
Hypothesis R_trans : forall w1 w2 w3, R w1 w2 -> R w2 w3 -> R w1 w3.

Lemma keeps_ret {A} (a : A) : keeps R (ret a).
  Proof. intros w. apply R_refl. Qed.

Lemma keeps_raise {A} e : keeps R (@raise A e).
  Proof. intros w. apply R_refl. Qed.

Lemma keeps_get : keeps R get.
  Proof. intros w. apply R_refl. Qed.

Lemma keeps_bind {A B} (m : M A) (k : A -> M B) :
    keeps R m -> (forall a, keeps R (k a)) -> keeps R (bind m k).
  Proof.
    intros Hm Hk w. unfold bind. specialize (Hm w).
    destruct (m w) as [[e|a] w1]; simpl in *; [exact Hm|].
    eapply R_trans; [exact Hm|apply Hk].
  Qed.

Lemma keeps_try_except {A} (m : M A) (k : Exn -> M A) :
    keeps R m -> (forall e, keeps R (k e)) -> keeps R (try_except m k).
  Proof.
    intros Hm Hk w. unfold try_except. specialize (Hm w).
    destruct (m w) as [[e|a] w1]; simpl in *; [|exact Hm].
    eapply R_trans; [exact Hm|apply Hk].
  Qed.

Lemma keeps_when b (m : M unit) : keeps R m -> keeps R (when b m).
  Proof. intros Hm. destruct b; [exact Hm|apply keeps_ret]. Qed.

Lemma keeps_if {A} (b : bool) (m1 m2 : M A) :
    keeps R m1 -> keeps R m2 -> keeps R (if b then m1 else m2).
  Proof. now destruct b. Qed.
End Keeps.

Lemma frame_refl w : frame w w.
Proof. now repeat split. Qed.

Lemma frame_trans w1 w2 w3 : frame w1 w2 -> frame w2 w3 -> frame w1 w3.
Proof.
  unfold frame. intros (a1 & b1 & c1 & d1) (a2 & b2 & c2 & d2).
  repeat split; congruence.
Qed.

Lemma quiet_refl w : quiet w w.
Proof. split; [apply frame_refl|reflexivity]. Qed.

Lemma quiet_trans w1 w2 w3 : quiet w1 w2 -> quiet w2 w3 -> quiet w1 w3.
Proof.
  intros [F1 C1] [F2 C2]. split; [eapply frame_trans; eassumption|congruence].
Qed.

Lemma quiet_frame w w' : quiet w w' -> frame w w'.
Proof. now intros [F _]. Qed.

Lemma keeps_quiet_frame {A} (m : M A) : keeps quiet m -> keeps frame m.
Proof. intros H w. apply quiet_frame, H. Qed.

Lemma quiet_with_env f w : quiet w (with_env f w).
Proof. now repeat split. Qed.

Lemma keeps_write h x : keeps quiet (write h x).
Proof.
  intros w. unfold write. destruct (accepts h x); simpl;
    [apply quiet_with_env|apply quiet_refl].
Qed.

Lemma keeps_makedirs h path : keeps quiet (makedirs h path).
Proof.
  unfold makedirs. destruct (makedirs_ok h path);
    [apply keeps_ret|apply keeps_raise]; apply quiet_refl.
Qed.

Lemma keeps_invoke h mk : keeps frame (invoke h mk).
Proof. intros w. unfold invoke. simpl. now repeat split. Qed.

Create HintDb keeps.
#[local] Hint Resolve keeps_write keeps_makedirs : keeps.

(** Walks down a computation built from the monad's combinators; blocks
    already known to be quiet are closed from the hint database. *)
Ltac keeps_quiet :=
  repeat first
    [ solve [auto with keeps nocore]
    | apply (keeps_ret quiet quiet_refl)
    | apply (keeps_raise quiet quiet_refl)
    | apply (keeps_get quiet quiet_refl)
    | apply (keeps_when quiet quiet_refl)
    | apply (keeps_if quiet)
    | apply (keeps_bind quiet quiet_trans); [|intro]
    | apply (keeps_try_except quiet quiet_trans); [|intro]
    | match goal with
      | |- keeps _ (match ?x with _ => _ end) => destruct x
      end ].

Lemma keeps_apply_samples h c e : keeps quiet (apply_samples h c e).
Proof. unfold apply_samples. keeps_quiet. Qed.
#[local] Hint Resolve keeps_apply_samples : keeps.

Lemma keeps_apply_view_layer h b l : keeps quiet (apply_view_layer h b l).
Proof. unfold apply_view_layer. keeps_quiet. Qed.
#[local] Hint Resolve keeps_apply_view_layer : keeps.

Lemma keeps_apply_group_settings h g : keeps quiet (apply_group_settings h g).
Proof. unfold apply_group_settings. keeps_quiet. Qed.
#[local] Hint Resolve keeps_apply_group_settings : keeps.

Lemma keeps_apply_master_settings h s : keeps quiet (apply_master_settings h s).
Proof. unfold apply_master_settings. keeps_quiet. Qed.

Lemma keeps_apply_camera_group h cam : keeps quiet (apply_camera_group h cam).
Proof. unfold apply_camera_group. keeps_quiet. Qed.

Lemma keeps_apply_camera_settings h cam :
  keeps quiet (apply_camera_settings h cam).
Proof. unfold apply_camera_settings. keeps_quiet. Qed.

Lemma keeps_apply_frame_range h s cam : keeps quiet (apply_frame_range h s cam).
Proof. unfold apply_frame_range. keeps_quiet. Qed.
#[local] Hint Resolve keeps_apply_master_settings keeps_apply_camera_group
  keeps_apply_camera_settings keeps_apply_frame_range : keeps.

Lemma keeps_setup_render_settings h camera v :
  keeps quiet (setup_render_settings h camera v).
Proof. unfold setup_render_settings. keeps_quiet. Qed.

Lemma keeps_restore_render_settings h o :
  keeps quiet (restore_render_settings h o).
Proof. unfold restore_render_settings. keeps_quiet. Qed.
#[local] Hint Resolve keeps_setup_render_settings
  keeps_restore_render_settings : keeps.

(** ** The pass loop *)

Lemma keeps_render_pass h camera anim pass_name :
  keeps frame (render_pass h camera anim pass_name).
Proof.
  unfold render_pass.
  apply (keeps_bind frame frame_trans); [apply keeps_get, frame_refl|intro].
  apply (keeps_bind frame frame_trans); [|intro].
  { apply keeps_quiet_frame. keeps_quiet. }
  apply (keeps_bind frame frame_trans); [|intro].
  { apply keeps_quiet_frame. keeps_quiet. }
  apply (keeps_bind frame frame_trans); [apply keeps_get, frame_refl|intro].
  apply keeps_if; apply keeps_invoke.
Qed.

(** The loop never raises, whatever happens inside a pass. *)
Lemma render_passes_loop_returns h camera anim passes :
  forall success w, exists b w',
    render_passes_loop h camera anim passes success w = (inr b, w')
    /\ frame w w'.
Proof.
  induction passes as [|p passes IH]; intros success w; simpl.
  - exists success, w. split; [reflexivity|apply frame_refl].
  - unfold bind at 1. unfold try_except.
    pose proof (keeps_bind frame frame_trans
                  (render_pass h camera anim p) (fun _ => ret true)
                  (keeps_render_pass h camera anim p)
                  (fun _ => keeps_ret frame frame_refl true) w) as F.
    destruct (bind (render_pass h camera anim p) (fun _ => ret true) w)
      as [[e|b] w1]; simpl in F.
    + destruct (IH success w1) as (b' & w' & E & F').
      exists b', w'. split; [exact E|eapply frame_trans; eassumption].
    + destruct (IH b w1) as (b' & w' & E & F').
      exists b', w'. split; [exact E|eapply frame_trans; eassumption].
Qed.

Lemma passes_to_render_none cam :
  ShotMasterCamera.use_render_passes cam = true ->
  Forall (fun p => RenderPass.enabled p = false)
         (ShotMasterCamera.render_passes cam) ->
  passes_to_render cam = [].
Proof.
  intros U H. unfold passes_to_render. rewrite U.
  induction H as [|p l Hp _ IH]; [reflexivity|].
  rewrite filter_cons_False; [exact IH|]. congruence.
Qed.

(** ** The job as a whole *)

Lemma quiet_settings w w' :
  quiet w w' -> shotmaster_settings w' = shotmaster_settings w.
Proof. intros [(_ & H & _) _]. exact H. Qed.

Lemma frame_settings w w' :
  frame w w' -> shotmaster_settings w' = shotmaster_settings w.
Proof. intros (_ & H & _). exact H. Qed.

Lemma quiet_calls w w' : quiet w w' -> calls w' = calls w.
Proof. now intros [_ H]. Qed.

Lemma restore_settings h o w :
  shotmaster_settings (snd (restore_render_settings h o w))
  = shotmaster_settings w.
Proof. apply quiet_settings, keeps_restore_render_settings. Qed.

Lemma restore_calls h o w :
  calls (snd (restore_render_settings h o w)) = calls w.
Proof. apply quiet_calls, keeps_restore_render_settings. Qed.

(** How [render_from_camera] unfolds on a camera object, by the outcome of
    the setup call. *)
Lemma render_from_camera_not_camera h c anim v w :
  (Object.type c =? "CAMERA")%string = false ->
  render_from_camera h (Some c) anim v w = (false, w).
Proof. intros E. unfold render_from_camera. now rewrite E. Qed.

Lemma render_from_camera_setup_raises h c anim v w e w1 :
  (Object.type c =? "CAMERA")%string = true ->
  setup_render_settings h c v w = (inl e, w1) ->
  render_from_camera h (Some c) anim v w = (false, w1).
Proof. intros T E. unfold render_from_camera. now rewrite T, E. Qed.

Lemma render_from_camera_setup_returns h c anim v w o w1 :
  (Object.type c =? "CAMERA")%string = true ->
  setup_render_settings h c v w = (inr o, w1) ->
  render_from_camera h (Some c) anim v w =
  (match fst (render_body h c anim v w1) with
   | inr success => success
   | inl _ => false
   end,
   snd (restore_render_settings h o (snd (render_body h c anim v w1)))).
Proof.
  intros T E. unfold render_from_camera. rewrite T, E. simpl.
  destruct (render_body h c anim v w1) as [r w2]. simpl.
  now destruct (restore_render_settings h o w2).
Qed.

(** The settings the outer [try] block leaves behind. *)
Lemma render_body_settings h c anim v w :
  shotmaster_settings (snd (render_body h c anim v w)) =
  if negb v || anim || render_ok h (length (calls w))
  then count_render (time_end h - time_start h) (shotmaster_settings w)
  else shotmaster_settings w.
Proof.
  unfold render_body. destruct v; simpl negb; simpl orb.
  - destruct anim; [reflexivity|].
    unfold bind, invoke, update_render_statistics, ret.
    now destruct (render_ok h (length (calls w))).
  - destruct (render_passes_loop_returns h c anim
                (passes_to_render (Object.shotmaster_camera c)) false w)
      as (b & w2 & E2 & F2).
    rewrite (bind_inr _ _ _ _ _ E2).
    unfold bind, update_render_statistics, ret. simpl.
    now rewrite (frame_settings _ _ F2).
Qed.

(** The settings a job leaves behind: the counters are bumped exactly when
    the statistics block is reached. *)
Lemma render_from_camera_settings h camera anim v w :
  shotmaster_settings (snd (render_from_camera h camera anim v w)) =
  if reaches_statistics h camera anim v w
  then count_render (time_end h - time_start h) (shotmaster_settings w)
  else shotmaster_settings w.
Proof.
  unfold reaches_statistics, setup_ok.
  destruct camera as [c|]; [|reflexivity].
  destruct (Object.type c =? "CAMERA")%string eqn:T.
  2:{ now rewrite render_from_camera_not_camera. }
  pose proof (keeps_setup_render_settings h c v w) as Q.
  destruct (setup_render_settings h c v w) as [[e|o] w1] eqn:E; simpl in Q.
  - rewrite (render_from_camera_setup_raises _ _ _ _ _ _ _ T E). simpl.
    now apply quiet_settings.
  - rewrite (render_from_camera_setup_returns _ _ _ _ _ _ _ T E). simpl.
    rewrite restore_settings, render_body_settings.
    now rewrite (quiet_settings _ _ Q), (quiet_calls _ _ Q).
Qed.

(** C5, as amended.  While the counters can take one more job (the render
    count below the largest 32-bit integer, the duration and the new total
    whole ticks that single precision holds exactly), the three counters of
    the master settings are written exactly when the job reaches its
    statistics block, that is when the object is a camera, the setup call
    returned and, for a viewport still, the OpenGL render returned; whether
    any pass succeeded plays no part.  When they are written, the render
    count grows by one, whatever the number of passes, the job's duration
    becomes the last render time and is added to the total; otherwise all
    three are unchanged. *)
Theorem C5_counters_follow_completion h camera anim v w :
  let s := shotmaster_settings w in
  let s' := shotmaster_settings (snd (render_from_camera h camera anim v w)) in
  let reached := reaches_statistics h camera anim v w in
  let render_time := time_end h - time_start h in
  counters_in_range render_time s ->
  ShotMasterSettings.total_renders s'
    = ShotMasterSettings.total_renders s + (if reached then 1 else 0)
  /\ ShotMasterSettings.last_render_time s'
    = (if reached then render_time else ShotMasterSettings.last_render_time s)
  /\ ShotMasterSettings.total_render_time s'
    = ShotMasterSettings.total_render_time s
      + (if reached then render_time else 0).
Proof.
  cbv zeta. intros _. rewrite render_from_camera_settings.
  destruct (reaches_statistics h camera anim v w); simpl;
    repeat split; lia.
Qed.

Lemma C5_witness :
  let r := render_from_camera broken_renderer_host (Some three_pass_camera)
             false false user_world in
  fst r = false
  /\ ShotMasterSettings.total_renders (shotmaster_settings (snd r)) = 1
  /\ ShotMasterSettings.last_render_time (shotmaster_settings (snd r)) = 5
  /\ ShotMasterSettings.total_render_time (shotmaster_settings (snd r)) = 5.
Proof.
  cbv zeta. split; [reflexivity|].
  apply (C5_counters_follow_completion broken_renderer_host
           (Some three_pass_camera) false false user_world).
  vm_compute. repeat split; discriminate.
Defined.

(** C5 fails as stated: a job whose only render raises returns [False], yet
    the render count has moved. *)
Lemma C5_counterexample :
  let r := render_from_camera broken_renderer_host (Some shot_a) false false
             user_world in
  ~ (ShotMasterSettings.total_renders (shotmaster_settings (snd r))
       <> ShotMasterSettings.total_renders (shotmaster_settings user_world)
     -> fst r = true).
Proof.
  vm_compute. intros H. assert (E : false = true) by (apply H; discriminate).
  discriminate E.
Qed.

(** C10, as amended.  In a render that is not a viewport render, a camera
    that uses passes and has no enabled pass makes [render_from_camera]
    return [False] without a single call of the renderer. *)
Theorem C10_no_enabled_pass_renders_nothing h camera anim w :
  ShotMasterCamera.use_render_passes (Object.shotmaster_camera camera) = true ->
  Forall (fun p => RenderPass.enabled p = false)
    (ShotMasterCamera.render_passes (Object.shotmaster_camera camera)) ->
  fst (render_from_camera h (Some camera) anim false w) = false
  /\ calls (snd (render_from_camera h (Some camera) anim false w)) = calls w.
Proof.
  intros U D.
  destruct (Object.type camera =? "CAMERA")%string eqn:T.
  2:{ now rewrite render_from_camera_not_camera. }
  pose proof (keeps_setup_render_settings h camera false w) as Q.
  destruct (setup_render_settings h camera false w) as [[e|o] w1] eqn:E;
    simpl in Q.
  - rewrite (render_from_camera_setup_raises _ _ _ _ _ _ _ T E).
    split; [reflexivity|now apply quiet_calls].
  - rewrite (render_from_camera_setup_returns _ _ _ _ _ _ _ T E).
    unfold render_body. rewrite (passes_to_render_none _ U D). simpl.
    split; [reflexivity|].
    rewrite restore_calls. simpl. now apply quiet_calls.
Qed.

Lemma C10_witness :
  fst (render_from_camera cooperative_host (Some no_pass_camera) false false
         user_world) = false
  /\ calls (snd (render_from_camera cooperative_host (Some no_pass_camera)
                   false false user_world)) = calls user_world.
Proof.
  apply (C10_no_enabled_pass_renders_nothing cooperative_host no_pass_camera
           false user_world).
  - reflexivity.
  - repeat constructor.
Defined.

(** C10 fails as stated: the same camera rendered as a viewport still calls
    the OpenGL renderer once and returns [True]. *)
Lemma C10_counterexample :
  let r := render_from_camera cooperative_host (Some no_pass_camera) false true
             user_world in
  ShotMasterCamera.use_render_passes (Object.shotmaster_camera no_pass_camera)
    = true
  /\ filter (fun p => RenderPass.enabled p = true)
       (ShotMasterCamera.render_passes (Object.shotmaster_camera no_pass_camera))
     = []
  /\ ~ (fst r = false /\ calls (snd r) = calls user_world).
Proof.
  vm_compute. repeat split. intros [H _]. discriminate H.
Qed.

(** ** Computations that cannot raise on an accepting host *)

Lemma returns_ret {A} (a : A) : returns (ret a).
Proof. intros w. now exists a, w. Qed.

Lemma returns_get : returns get.
Proof. intros w. now exists w, w. Qed.

Lemma returns_bind {A B} (m : M A) (k : A -> M B) :
  returns m -> (forall a, returns (k a)) -> returns (bind m k).
Proof.
  intros Hm Hk w. destruct (Hm w) as (a & w1 & E).
  rewrite (bind_inr _ _ _ _ _ E). apply Hk.
Qed.

Lemma returns_when b (m : M unit) : returns m -> returns (when b m).
Proof. intros Hm. destruct b; [exact Hm|apply returns_ret]. Qed.

Lemma returns_if {A} (b : bool) (m1 m2 : M A) :
  returns m1 -> returns m2 -> returns (if b then m1 else m2).
Proof. now destruct b. Qed.

Lemma returns_write h x : accepting h -> returns (write h x).
Proof. intros H w. rewrite write_accepting by exact H. eauto. Qed.

Create HintDb returns.
#[local] Hint Resolve returns_write : returns.

Ltac returns_step :=
  repeat first
    [ solve [auto with returns nocore]
    | apply returns_ret
    | apply returns_get
    | apply returns_when
    | apply returns_if
    | apply returns_bind; [|intro]
    | match goal with
      | |- returns (match ?x with _ => _ end) => destruct x
      end ].

Section Accepting.
Variable h : Host.
Hypothesis Hacc : accepting h.

Lemma returns_apply_samples c e : returns (apply_samples h c e).
  Proof using Hacc. unfold apply_samples. returns_step. Qed.

Lemma returns_apply_view_layer b l : returns (apply_view_layer h b l).
  Proof using Hacc. unfold apply_view_layer. returns_step. Qed.

Hint Resolve returns_apply_samples returns_apply_view_layer : returns.

Lemma returns_apply_group_settings g : returns (apply_group_settings h g).
  Proof using Hacc. unfold apply_group_settings. returns_step. Qed.

Hint Resolve returns_apply_group_settings : returns.

Lemma returns_apply_master_settings s : returns (apply_master_settings h s).
  Proof using Hacc. unfold apply_master_settings. returns_step. Qed.

Lemma returns_apply_camera_group cam : returns (apply_camera_group h cam).
  Proof using Hacc. unfold apply_camera_group. returns_step. Qed.

Lemma returns_apply_camera_settings cam :
    returns (apply_camera_settings h cam).
  Proof using Hacc. unfold apply_camera_settings. returns_step. Qed.

Lemma returns_apply_frame_range s cam : returns (apply_frame_range h s cam).
  Proof using Hacc. unfold apply_frame_range. returns_step. Qed.

Hint Resolve returns_apply_master_settings returns_apply_camera_group
    returns_apply_camera_settings returns_apply_frame_range : returns.

Lemma returns_setup_render_settings camera v :
    returns (setup_render_settings h camera v).
  Proof using Hacc. unfold setup_render_settings. returns_step. Qed.
End Accepting.

(** ** Output paths read only the master path and the groups *)

Lemma base_path_of_depends h w1 w2 camera :
  shotmaster_camera_groups w1 = shotmaster_camera_groups w2 ->
  ShotMasterSettings.master_output_path (shotmaster_settings w1)
  = ShotMasterSettings.master_output_path (shotmaster_settings w2) ->
  base_path_of h w1 camera = base_path_of h w2 camera.
Proof. intros G P. unfold base_path_of. now rewrite G, P. Qed.

Lemma get_camera_output_path_depends h w1 w2 camera anim pass_name :
  shotmaster_camera_groups w1 = shotmaster_camera_groups w2 ->
  ShotMasterSettings.master_output_path (shotmaster_settings w1)
  = ShotMasterSettings.master_output_path (shotmaster_settings w2) ->
  get_camera_output_path h w1 camera anim pass_name
  = get_camera_output_path h w2 camera anim pass_name.
Proof.
  intros G P. unfold get_camera_output_path.
  now rewrite (base_path_of_depends h w1 w2 camera G P).
Qed.

Lemma get_camera_output_path_frame h w w' camera anim pass_name :
  frame w w' ->
  get_camera_output_path h w' camera anim pass_name
  = get_camera_output_path h w camera anim pass_name.
Proof.
  intros (_ & S & G & _). apply get_camera_output_path_depends;
    [exact G|now rewrite S].
Qed.

Lemma pass_filepath_frame h w w' camera anim pass_name :
  frame w w' ->
  pass_filepath h w' camera anim pass_name
  = pass_filepath h w camera anim pass_name.
Proof.
  intros F. unfold pass_filepath, pass_output_dir.
  now rewrite (get_camera_output_path_frame _ _ _ _ _ _ F).
Qed.

Lemma pass_calls_frame h w w' camera anim passes :
  frame w w' ->
  forall n, pass_calls h w' camera anim n passes
            = pass_calls h w camera anim n passes.
Proof.
  intros F. induction passes as [|p ps IH]; intros n; simpl; [reflexivity|].
  now rewrite IH, (pass_filepath_frame _ _ _ _ _ _ F).
Qed.

(** ** One pass on an accepting host *)

Lemma env_with_env f w : env (with_env f w) = f (env w).
Proof. reflexivity. Qed.

Lemma filepath_apply_write p r :
  RenderEnv.filepath (apply_write (SetFilepath p) r) = p.
Proof. now destruct r. Qed.

Lemma render_pass_accepting h camera anim pass_name w :
  accepting h ->
  makedirs_ok h (pass_output_dir h w camera anim pass_name) = true ->
  let path := pass_filepath h w camera anim pass_name in
  let ok := render_ok h (length (calls w)) in
  render_pass h camera anim pass_name w =
  (if ok then inr tt else inl RuntimeError,
   log_call (pass_call anim path ok)
     (with_env (apply_write (SetFilepath path)) w)).
Proof.
  intros Hacc Hdir. cbv zeta.
  unfold pass_filepath. unfold pass_output_dir in *.
  unfold render_pass. rewrite bind_get. cbv zeta.
  set (d := get_camera_output_path h w camera anim pass_name) in *.
  assert (E : try_except (makedirs h d ;; ret d)
                (fun _ => makedirs h (abspath h "//renders/") ;;
                          ret (abspath h "//renders/")) w
              = (inr (if makedirs_ok h d then d else abspath h "//renders/"),
                 w)).
  { unfold try_except, bind, makedirs.
    destruct (makedirs_ok h d); [reflexivity|].
    simpl. now rewrite Hdir. }
  rewrite (bind_inr _ _ _ _ _ E).
  rewrite bind_write by exact Hacc. rewrite bind_get.
  rewrite !env_with_env, !filepath_apply_write.
  unfold pass_call, invoke. now destruct anim.
Qed.

(** The loop on an accepting host with creatable directories: every pass
    reaches the renderer, the flag tells whether some call succeeded. *)
Lemma render_passes_loop_accepting h camera anim passes :
  accepting h ->
  forall success w,
    (forall p, In p passes ->
       makedirs_ok h (pass_output_dir h w camera anim p) = true) ->
    exists w',
      render_passes_loop h camera anim passes success w
      = (inr (success
              || existsb (render_ok h)
                   (seq (length (calls w)) (length passes))), w')
      /\ calls w' = (calls w
                     ++ pass_calls h w camera anim (length (calls w)) passes)%list
      /\ frame w w'.
Proof.
  intros Hacc. induction passes as [|p ps IH]; intros success w Hdir.
  - exists w. simpl. rewrite orb_false_r, app_nil_r.
    repeat split; reflexivity.
  - simpl render_passes_loop.
    pose proof (render_pass_accepting h camera anim p w Hacc
                  (Hdir p (or_introl eq_refl))) as E.
    cbv zeta in E.
    set (w1 := log_call _ _) in E.
    assert (F1 : frame w w1) by (now repeat split).
    assert (C1 : calls w1 = (calls w ++
              [pass_call anim (pass_filepath h w camera anim p)
                 (render_ok h (length (calls w)))])%list) by reflexivity.
    assert (Hdir1 : forall q, In q ps ->
              makedirs_ok h (pass_output_dir h w1 camera anim q) = true).
    { intros q Hq. unfold pass_output_dir.
      rewrite (get_camera_output_path_frame _ _ _ _ _ _ F1).
      apply (Hdir q). now right. }
    assert (L1 : length (calls w1) = S (length (calls w))).
    { rewrite C1, length_app. simpl. lia. }
    assert (E1 : try_except (render_pass h camera anim p ;; ret true)
                   (fun _ => ret success) w
                 = (inr (success || render_ok h (length (calls w))), w1)).
    { unfold try_except, bind. rewrite E.
      destruct (render_ok h (length (calls w))); simpl.
      - now rewrite orb_true_r.
      - now rewrite orb_false_r. }
    rewrite (bind_inr _ _ _ _ _ E1).
    destruct (IH (success || render_ok h (length (calls w))) w1 Hdir1)
      as (w' & E' & C' & F').
    exists w'. split; [|split].
    + rewrite E', L1. simpl. now rewrite orb_assoc.
    + rewrite C', L1, C1, <- app_assoc. simpl.
      now rewrite (pass_calls_frame _ _ _ _ _ _ F1).
    + exact (frame_trans _ _ _ F1 F').
Qed.

(** C4, as amended.  When a camera has three enabled passes and the renderer
    fails for exactly one of them (property assignments and directory
    creation, or its fallback, going through), the failure does not stop the
    loop: the renderer is called once per pass, in order, the two other
    calls succeed, and [render_from_camera] returns [True], the value it
    also returns when all three succeed.  The result is a Boolean; no value
    of it stands for a partial outcome. *)
Theorem C4_one_failed_pass_keeps_going h c anim w p1 p2 p3 :
  accepting h ->
  Object.type c = "CAMERA" ->
  ShotMasterCamera.use_render_passes (Object.shotmaster_camera c) = true ->
  passes_to_render (Object.shotmaster_camera c) = [p1; p2; p3] ->
  (forall p, In p [p1; p2; p3] ->
     makedirs_ok h (pass_output_dir h w c anim p) = true) ->
  let n := length (calls w) in
  length (List.filter (fun i => negb (render_ok h i)) [n; S n; S (S n)])
    = 1%nat ->
  let r := render_from_camera h (Some c) anim false w in
  let rendered :=
    [pass_call anim (pass_filepath h w c anim p1) (render_ok h n);
     pass_call anim (pass_filepath h w c anim p2) (render_ok h (S n));
     pass_call anim (pass_filepath h w c anim p3) (render_ok h (S (S n)))] in
  fst r = true
  /\ calls (snd r) = (calls w ++ rendered)%list
  /\ length (List.filter call_ok rendered) = 2%nat.
Proof.
  intros Hacc T U P Hdir n H1. cbv zeta.
  assert (T' : (Object.type c =? "CAMERA")%string = true)
    by (now apply String.eqb_eq).
  destruct (returns_setup_render_settings h Hacc c false w) as (o & w1 & E).
  pose proof (keeps_setup_render_settings h c false w) as Q.
  rewrite E in Q. simpl in Q.
  pose proof (quiet_frame _ _ Q) as F. pose proof (quiet_calls _ _ Q) as C.
  rewrite (render_from_camera_setup_returns _ _ _ _ _ _ _ T' E).
  unfold render_body. rewrite P.
  assert (Hdir1 : forall p, In p [p1; p2; p3] ->
            makedirs_ok h (pass_output_dir h w1 c anim p) = true).
  { intros p Hp. unfold pass_output_dir.
    rewrite (get_camera_output_path_frame _ _ _ _ _ _ F). now apply Hdir. }
  destruct (render_passes_loop_accepting h c anim [p1; p2; p3] Hacc false w1
              Hdir1) as (w2 & E2 & C2 & _).
  rewrite (bind_inr _ _ _ _ _ E2).
  unfold bind, update_render_statistics, ret. simpl fst. simpl snd.
  rewrite restore_calls. change (calls (with_settings _ w2)) with (calls w2).
  rewrite C2, C.
  rewrite (pass_calls_frame _ _ _ _ _ _ F). fold n. simpl pass_calls.
  simpl existsb. simpl in H1. unfold pass_call.
  destruct (render_ok h n), (render_ok h (S n)), (render_ok h (S (S n)));
    simpl in H1; try discriminate H1; destruct anim; repeat split.
Qed.

Lemma C4_witness :
  let r := render_from_camera flaky_host (Some three_pass_camera) false false
             user_world in
  fst r = true
  /\ calls (snd r)
     = (calls user_world ++
        [RenderStill "/proj/renders/ungrouped/Shot_A/stills/beauty/shot_Shot A_beauty" true;
         RenderStill "/proj/renders/ungrouped/Shot_A/stills/depth/shot_Shot A_depth" false;
         RenderStill "/proj/renders/ungrouped/Shot_A/stills/mist/shot_Shot A_mist" true])%list
  /\ length (List.filter call_ok
       [RenderStill "/proj/renders/ungrouped/Shot_A/stills/beauty/shot_Shot A_beauty" true;
        RenderStill "/proj/renders/ungrouped/Shot_A/stills/depth/shot_Shot A_depth" false;
        RenderStill "/proj/renders/ungrouped/Shot_A/stills/mist/shot_Shot A_mist" true])
     = 2%nat.
Proof.
  apply (C4_one_failed_pass_keeps_going flaky_host three_pass_camera false
           user_world (Some "beauty") (Some "depth") (Some "mist")).
  - intro x. reflexivity.
  - reflexivity.
  - reflexivity.
  - reflexivity.
  - intros p _. reflexivity.
  - reflexivity.
Defined.

(** C4 fails as stated: by the specification's own classification the job
    with one failed pass is partial and the job with none is a success, yet
    [render_from_camera] reports the same value for both. *)
Lemma C4_counterexample :
  let r := render_from_camera flaky_host (Some three_pass_camera) false false
             user_world in
  let r' := render_from_camera cooperative_host (Some three_pass_camera)
              false false user_world in
  spec_outcome (map call_ok (calls (snd r))) = Partial
  /\ spec_outcome (map call_ok (calls (snd r'))) = Success
  /\ fst r = fst r'.
Proof. vm_compute. repeat split. Qed.

(** ** Output paths *)

Lemma find_no_group (P : CameraGroup.t -> bool) (Q : CameraGroup.t -> Prop)
    groups :
  (forall g, P g = true -> ~ Q g) -> Forall Q groups -> find P groups = None.
Proof.
  intros HP H. induction H as [|g l Hg _ IH]; simpl; [reflexivity|].
  destruct (P g) eqn:E; [|exact IH]. now destruct (HP g E).
Qed.

(** C8.  For a camera named "Shot A" in the group "Ext", under the master
    path "root/" and with no path of its own at camera or group level, the
    output directory of a still without pass name is
    "root/Ext/Shot_A/stills" and that of an animation with the pass name
    "depth" is "root/Ext/Shot_A/animation/depth". *)
Theorem C8_shot_a_in_ext h w camera :
  Object.name camera = "Shot A" ->
  ShotMasterCamera.group (Object.shotmaster_camera camera) = "Ext" ->
  ShotMasterSettings.master_output_path (shotmaster_settings w) = "root/" ->
  ShotMasterCamera.use_custom_output_path (Object.shotmaster_camera camera)
    = false ->
  Forall (fun g => CameraGroup.name g = "Ext" ->
                   CameraGroup.use_custom_output_path g = false)
         (shotmaster_camera_groups w) ->
  get_camera_output_path h w camera false None = "root/Ext/Shot_A/stills"
  /\ get_camera_output_path h w camera true (Some "depth")
     = "root/Ext/Shot_A/animation/depth".
Proof.
  intros N G P C Hg.
  assert (B : base_path_of h w camera = "root/").
  { unfold base_path_of. rewrite G, P, C. simpl.
    erewrite find_no_group; [reflexivity| |exact Hg].
    intros g E Hn. apply andb_prop in E. destruct E as [E1 E2].
    apply String.eqb_eq in E1. rewrite (Hn E1) in E2. discriminate E2. }
  unfold get_camera_output_path. rewrite B, G, N. split; reflexivity.
Qed.

Lemma C8_witness :
  get_camera_output_path cooperative_host ext_world ext_camera false None
    = "root/Ext/Shot_A/stills"
  /\ get_camera_output_path cooperative_host ext_world ext_camera true
       (Some "depth") = "root/Ext/Shot_A/animation/depth".
Proof.
  apply (C8_shot_a_in_ext cooperative_host ext_world ext_camera).
  - reflexivity.
  - reflexivity.
  - reflexivity.
  - reflexivity.
  - repeat constructor.
Defined.

(** C9.  The output directory is a function of the camera, the groups, the
    master path and the two arguments alone: two calls in states that agree
    on those return the same string, whatever else differs (render
    environment, counters, renderer trace).  Sanitising a name that is
    already sanitised returns it unchanged. *)
Theorem C9_deterministic_and_idempotent h w1 w2 camera anim pass_name name :
  shotmaster_camera_groups w1 = shotmaster_camera_groups w2 ->
  ShotMasterSettings.master_output_path (shotmaster_settings w1)
  = ShotMasterSettings.master_output_path (shotmaster_settings w2) ->
  get_camera_output_path h w1 camera anim pass_name
  = get_camera_output_path h w2 camera anim pass_name
  /\ sanitize (sanitize name) = sanitize name.
Proof.
  intros G P. split.
  - now apply get_camera_output_path_depends.
  - apply sanitize_idempotent.
Qed.

Lemma C9_witness :
  get_camera_output_path cooperative_host user_world shot_a true (Some "depth")
  = get_camera_output_path cooperative_host
      (snd (render_from_camera cooperative_host (Some shot_a) false false
              user_world))
      shot_a true (Some "depth")
  /\ sanitize (sanitize " Shot A (take #2) ") = sanitize " Shot A (take #2) ".
Proof.
  apply (C9_deterministic_and_idempotent cooperative_host user_world
           (snd (render_from_camera cooperative_host (Some shot_a) false false
                   user_world))
           shot_a true (Some "depth") " Shot A (take #2) ").
  - reflexivity.
  - reflexivity.
Defined.

(** ** A group reference that names no group *)

Lemma bind_ext_at {A B} (m : M A) (k1 k2 : A -> M B) w :
  (forall a w1, m w = (inr a, w1) -> k1 a w1 = k2 a w1) ->
  bind m k1 w = bind m k2 w.
Proof.
  intros H. unfold bind. destruct (m w) as [[e|a] w1]; [reflexivity|].
  now apply H.
Qed.

Lemma apply_camera_group_none h cam w :
  camera_group w cam = None -> apply_camera_group h cam w = (inr tt, w).
Proof.
  unfold camera_group, apply_camera_group. rewrite bind_get.
  destruct (truthy (ShotMasterCamera.group cam)); [|reflexivity].
  now intros ->.
Qed.

Lemma camera_group_dangling w cam :
  Forall (fun g => CameraGroup.name g <> ShotMasterCamera.group cam)
         (shotmaster_camera_groups w) ->
  camera_group w cam = None.
Proof.
  intros H. unfold camera_group.
  destruct (truthy (ShotMasterCamera.group cam)); [|reflexivity].
  erewrite find_no_group; [reflexivity| |exact H].
  intros g E Hn. simpl in Hn. apply String.eqb_eq in E. contradiction.
Qed.

Lemma camera_group_ungroup w camera :
  camera_group w (Object.shotmaster_camera (ungroup camera)) = None.
Proof. reflexivity. Qed.

Lemma setup_render_settings_dangling h w camera v :
  Forall (fun g => CameraGroup.name g
                   <> ShotMasterCamera.group (Object.shotmaster_camera camera))
         (shotmaster_camera_groups w) ->
  setup_render_settings h camera v w
  = setup_render_settings h (ungroup camera) v w.
Proof.
  intros H. unfold setup_render_settings. rewrite !bind_get. cbv zeta.
  apply bind_ext_at. intros [] w1 E1.
  assert (G1 : shotmaster_camera_groups w1 = shotmaster_camera_groups w).
  { pose proof (keeps_apply_master_settings h (shotmaster_settings w) w) as Q.
    rewrite E1 in Q. now destruct Q as [(_ & _ & G & _) _]. }
  rewrite <- G1 in H.
  rewrite (bind_inr _ _ _ _ _
             (apply_camera_group_none h _ w1 (camera_group_dangling w1 _ H))).
  rewrite (bind_inr _ _ _ _ _
             (apply_camera_group_none h _ w1
                (camera_group_ungroup w1 camera))).
  reflexivity.
Qed.

Lemma base_path_of_dangling h w camera :
  Forall (fun g => CameraGroup.name g
                   <> ShotMasterCamera.group (Object.shotmaster_camera camera))
         (shotmaster_camera_groups w) ->
  base_path_of h w camera = base_path_of h w (ungroup camera).
Proof.
  intros H. unfold base_path_of. simpl.
  destruct (truthy (ShotMasterCamera.group (Object.shotmaster_camera camera)));
    [|reflexivity].
  erewrite find_no_group; [reflexivity| |exact H].
  intros g E Hn. simpl in Hn. apply andb_prop in E. destruct E as [E _].
  apply String.eqb_eq in E. contradiction.
Qed.

(** C7, as amended.  For a camera whose non-empty group reference names no
    existing group, no error is raised on account of the group and no group
    override applies: [setup_render_settings] behaves exactly as for the same
    camera without group, and the base directory is the one the camera would
    get without group.  The output directory, however, keeps a group folder
    named after the (sanitised) group reference, where a camera without
    group gets the folder "ungrouped". *)
Theorem C7_dangling_group_reference h w camera v anim pass_name :
  truthy (ShotMasterCamera.group (Object.shotmaster_camera camera)) = true ->
  Forall (fun g => CameraGroup.name g
                   <> ShotMasterCamera.group (Object.shotmaster_camera camera))
         (shotmaster_camera_groups w) ->
  setup_render_settings h camera v w
  = setup_render_settings h (ungroup camera) v w
  /\ base_path_of h w camera = base_path_of h w (ungroup camera)
  /\ get_camera_output_path h w camera anim pass_name
     = final_path
         (os_path_join (base_path_of h w (ungroup camera))
            [sanitize (ShotMasterCamera.group (Object.shotmaster_camera camera))])
         (sanitize (Object.name camera)) anim pass_name
  /\ get_camera_output_path h w (ungroup camera) anim pass_name
     = final_path
         (os_path_join (base_path_of h w (ungroup camera)) ["ungrouped"])
         (sanitize (Object.name camera)) anim pass_name.
Proof.
  intros T H. split; [|split; [|split]].
  - now apply setup_render_settings_dangling.
  - now apply base_path_of_dangling.
  - unfold get_camera_output_path.
    now rewrite T, (base_path_of_dangling h w camera H).
  - reflexivity.
Qed.

Lemma C7_witness :
  setup_render_settings cooperative_host ghost_camera false user_world
  = setup_render_settings cooperative_host (ungroup ghost_camera) false
      user_world
  /\ base_path_of cooperative_host user_world ghost_camera
     = base_path_of cooperative_host user_world (ungroup ghost_camera)
  /\ get_camera_output_path cooperative_host user_world ghost_camera false None
     = final_path
         (os_path_join
            (base_path_of cooperative_host user_world (ungroup ghost_camera))
            [sanitize "Ghost"])
         (sanitize "Shot A") false None
  /\ get_camera_output_path cooperative_host user_world (ungroup ghost_camera)
       false None
     = final_path
         (os_path_join
            (base_path_of cooperative_host user_world (ungroup ghost_camera))
            ["ungrouped"])
         (sanitize "Shot A") false None.
Proof.
  apply (C7_dangling_group_reference cooperative_host user_world ghost_camera
           false false None).
  - reflexivity.
  - constructor.
Defined.

(** C7 fails as stated: with a group reference that names no group, the
    output directory is not the one of the camera without group; its group
    folder is "Ghost", not "ungrouped". *)
Lemma C7_counterexample :
  Forall (fun g => CameraGroup.name g
                   <> ShotMasterCamera.group
                        (Object.shotmaster_camera ghost_camera))
         (shotmaster_camera_groups user_world)
  /\ get_camera_output_path cooperative_host user_world ghost_camera false None
     = "/proj/renders/Ghost/Shot_A/stills"
  /\ get_camera_output_path cooperative_host user_world (ungroup ghost_camera)
       false None
     = "/proj/renders/ungrouped/Shot_A/stills"
  /\ get_camera_output_path cooperative_host user_world ghost_camera false None
     <> get_camera_output_path cooperative_host user_world
          (ungroup ghost_camera) false None.
Proof.
  split; [constructor|]. vm_compute. repeat split. discriminate.
Qed.

(** ** What the setup resolves on an accepting host *)

Lemma summary_write x w :
  summary (with_env (apply_write x) w) = upd x (summary w).
Proof. destruct w as [[] ? ? ? ? ?]. now destruct x. Qed.

Lemma tracks_ret : tracks (ret tt) (fun s => s).
Proof. intros w. now exists w. Qed.

Lemma tracks_bind m k F G :
  tracks m F -> tracks k G -> tracks (bind m (fun _ => k)) (fun s => G (F s)).
Proof.
  intros Hm Hk w. destruct (Hm w) as (w1 & E1 & S1).
  destruct (Hk w1) as (w2 & E2 & S2).
  exists w2. split; [now rewrite (bind_inr _ _ _ _ _ E1)|].
  now rewrite S2, S1.
Qed.

Lemma tracks_when (b : bool) m F :
  tracks m F -> tracks (when b m) (fun s => if b then F s else s).
Proof. intros Hm. destruct b; [exact Hm|exact tracks_ret]. Qed.

Lemma tracks_if (b : bool) m1 m2 F G :
  tracks m1 F -> tracks m2 G ->
  tracks (if b then m1 else m2) (fun s => if b then F s else G s).
Proof. now destruct b. Qed.

Lemma tracks_ext m F G :
  tracks m F -> (forall s, F s = G s) -> tracks m G.
Proof.
  intros Hm HF w. destruct (Hm w) as (w' & E & S).
  exists w'. split; [exact E|]. now rewrite S.
Qed.

Section Resolution.
Variable h : Host.
Hypothesis Hacc : accepting h.

Lemma tracks_write x : tracks (write h x) (upd x).
  Proof using Hacc.
    intros w. eexists. split; [now apply write_accepting|].
    apply summary_write.
  Qed.

Lemma tracks_apply_samples c e : tracks (apply_samples h c e) (fun s => s).
  Proof using Hacc.
    intros w. unfold apply_samples. rewrite bind_get.
    destruct (RenderEnv.engine (env w) =? "CYCLES")%string;
      [|destruct (RenderEnv.engine (env w) =? "BLENDER_EEVEE")%string].
    - destruct (tracks_write (SetCyclesSamples c) w) as (w' & E & S).
      exists w'. split; [exact E|]. rewrite S.
      now destruct (summary w) as [[? [[? ?] ?]] [? ?]].
    - destruct (tracks_write (SetEeveeSamples e) w) as (w' & E & S).
      exists w'. split; [exact E|]. rewrite S.
      now destruct (summary w) as [[? [[? ?] ?]] [? ?]].
    - now exists w.
  Qed.

Lemma tracks_apply_view_layer b l :
    tracks (apply_view_layer h b l) (fun s => s).
  Proof using Hacc.
    intros w. unfold apply_view_layer, when. rewrite bind_get.
    destruct (b && bool_decide (l ∈ view_layers w)); [|now exists w].
    destruct (tracks_write (SetViewLayer l) w) as (w' & E & S).
    exists w'. split; [exact E|]. rewrite S.
    now destruct (summary w) as [[? [[? ?] ?]] [? ?]].
  Qed.

Lemma tracks_apply_group_settings g :
    tracks (apply_group_settings h g)
      (override (CameraGroup.use_custom_render_settings g)
         (CameraGroup.use_custom_resolution g)
         (CameraGroup.render_engine g) (group_resolution g)).
  Proof using Hacc.
    unfold apply_group_settings. eapply tracks_ext.
    - apply tracks_bind; [|apply tracks_apply_view_layer].
      apply tracks_when. apply tracks_bind; [apply tracks_write|].
      apply tracks_bind; [|apply tracks_apply_samples].
      apply tracks_when.
      apply tracks_bind; [apply tracks_write|].
      apply tracks_bind; apply tracks_write.
    - intros [[e [[rx ry] rp]] [fs fe]]. unfold override, group_resolution.
      now destruct (CameraGroup.use_custom_render_settings g),
        (CameraGroup.use_custom_resolution g).
  Qed.

Lemma tracks_apply_camera_settings cam :
    tracks (apply_camera_settings h cam)
      (override (ShotMasterCamera.use_custom_render_settings cam)
         (ShotMasterCamera.use_custom_resolution cam)
         (ShotMasterCamera.render_engine cam) (camera_resolution cam)).
  Proof using Hacc.
    unfold apply_camera_settings. eapply tracks_ext.
    - apply tracks_bind; [|apply tracks_apply_view_layer].
      apply tracks_when. apply tracks_bind; [apply tracks_write|].
      apply tracks_bind; [|apply tracks_apply_samples].
      apply tracks_when.
      apply tracks_bind; [apply tracks_write|].
      apply tracks_bind; apply tracks_write.
    - intros [[e [[rx ry] rp]] [fs fe]]. unfold override, camera_resolution.
      now destruct (ShotMasterCamera.use_custom_render_settings cam),
        (ShotMasterCamera.use_custom_resolution cam).
  Qed.

Lemma tracks_apply_master_settings s :
    tracks (apply_master_settings h s)
      (fun '(_, _, f) =>
         (ShotMasterSettings.master_render_engine s, master_resolution s, f)).
  Proof using Hacc.
    unfold apply_master_settings. eapply tracks_ext.
    - apply tracks_bind; [apply tracks_write|].
      apply tracks_bind; [apply tracks_write|].
      apply tracks_bind; [apply tracks_write|].
      apply tracks_bind; [apply tracks_write|apply tracks_apply_samples].
    - now intros [[e [[rx ry] rp]] [fs fe]].
  Qed.

Lemma tracks_apply_frame_range s cam :
    tracks (apply_frame_range h s cam)
      (fun '(e, r, _) =>
         (e, r,
          if ShotMasterCamera.use_custom_frames cam
          then (ShotMasterCamera.start_frame cam,
                ShotMasterCamera.end_frame cam)
          else (ShotMasterSettings.master_start_frame s,
                ShotMasterSettings.master_end_frame s))).
  Proof using Hacc.
    unfold apply_frame_range. eapply tracks_ext.
    - apply tracks_if; apply tracks_bind; apply tracks_write.
    - intros [[e [[rx ry] rp]] [fs fe]].
      now destruct (ShotMasterCamera.use_custom_frames cam).
  Qed.

Lemma tracks_camera_and_format camera v :
    tracks
      (bind (write h (SetCamera (Some (Object.name camera))))
         (fun _ =>
            if v : bool then ret tt
            else write h (SetFileFormat
                            (ShotMasterCamera.file_format
                               (Object.shotmaster_camera camera)))))
      (fun s => s).
  Proof using Hacc.
    eapply tracks_ext.
    - apply tracks_bind; [apply tracks_write|].
      apply tracks_if; [apply tracks_ret|apply tracks_write].
    - intros [[e [[rx ry] rp]] [fs fe]]. now destruct v.
  Qed.

  (** The group block, on the world it runs in. *)
Lemma apply_camera_group_summary cam w :
    exists w',
      apply_camera_group h cam w = (inr tt, w')
      /\ summary w'
         = match camera_group w cam with
           | Some g =>
               override (CameraGroup.use_custom_render_settings g)
                 (CameraGroup.use_custom_resolution g)
                 (CameraGroup.render_engine g) (group_resolution g) (summary w)
           | None => summary w
           end.
  Proof using Hacc.
    unfold apply_camera_group, camera_group, when. rewrite bind_get.
    destruct (truthy (ShotMasterCamera.group cam)); [|now exists w].
    destruct (find _ _) as [g|]; [|now exists w].
    apply tracks_apply_group_settings.
  Qed.
End Resolution.

#[local] Arguments resolution_of : simpl never.
#[local] Arguments frame_range_of : simpl never.
#[local] Arguments camera_resolution : simpl never.
#[local] Arguments group_resolution : simpl never.
#[local] Arguments master_resolution : simpl never.

Lemma camera_group_quiet w w' cam :
  quiet w w' -> camera_group w' cam = camera_group w cam.
Proof.
  intros [(_ & _ & G & _) _]. unfold camera_group. now rewrite G.
Qed.

(** On a host that accepts the assignments, the setup returns and leaves
    the engine, the resolution and the frame range that the tiers resolve
    to. *)
Lemma setup_render_settings_resolves h w camera v :
  accepting h ->
  let cam := Object.shotmaster_camera camera in
  exists o w',
    setup_render_settings h camera v w = (inr o, w')
    /\ RenderEnv.engine (env w')
       = (if ShotMasterCamera.use_custom_render_settings cam
          then ShotMasterCamera.render_engine cam
          else inherited_engine w cam)
    /\ resolution_of (env w')
       = (if ShotMasterCamera.use_custom_render_settings cam
             && ShotMasterCamera.use_custom_resolution cam
          then camera_resolution cam
          else inherited_resolution w cam)
    /\ frame_range_of (env w')
       = (if ShotMasterCamera.use_custom_frames cam
          then (ShotMasterCamera.start_frame cam,
                ShotMasterCamera.end_frame cam)
          else (ShotMasterSettings.master_start_frame (shotmaster_settings w),
                ShotMasterSettings.master_end_frame (shotmaster_settings w))).
Proof.
  intros Hacc cam. unfold setup_render_settings. rewrite bind_get. cbv zeta.
  fold cam.
  destruct (tracks_apply_master_settings h Hacc (shotmaster_settings w) w)
    as (w1 & E1 & S1).
  pose proof (keeps_apply_master_settings h (shotmaster_settings w) w) as Q1.
  rewrite E1 in Q1. simpl in Q1.
  rewrite (bind_inr _ _ _ _ _ E1).
  destruct (apply_camera_group_summary h Hacc cam w1) as (w2 & E2 & S2).
  rewrite (camera_group_quiet _ _ cam Q1) in S2.
  rewrite (bind_inr _ _ _ _ _ E2).
  destruct (tracks_apply_camera_settings h Hacc cam w2) as (w3 & E3 & S3).
  rewrite (bind_inr _ _ _ _ _ E3).
  destruct (tracks_apply_frame_range h Hacc (shotmaster_settings w) cam w3)
    as (w4 & E4 & S4).
  rewrite (bind_inr _ _ _ _ _ E4).
  destruct (tracks_camera_and_format h Hacc camera v w4) as (w5 & E5 & S5).
  exists (snapshot (env w)), w5. split.
  { rewrite <- bind_assoc. now rewrite (bind_inr _ _ _ _ _ E5). }
  assert (S : summary w5 =
    (let '(e, r, _) :=
       override (ShotMasterCamera.use_custom_render_settings cam)
         (ShotMasterCamera.use_custom_resolution cam)
         (ShotMasterCamera.render_engine cam) (camera_resolution cam)
         (summary w2) in
     (e, r,
      if ShotMasterCamera.use_custom_frames cam
      then (ShotMasterCamera.start_frame cam, ShotMasterCamera.end_frame cam)
      else (ShotMasterSettings.master_start_frame (shotmaster_settings w),
            ShotMasterSettings.master_end_frame (shotmaster_settings w))))).
  { rewrite S5, S4, S3. now destruct (override _ _ _ _ _) as [[? ?] ?]. }
  clear S5 S4 S3. rewrite S2, S1 in S. clear S2 S1.
  unfold inherited_engine, inherited_resolution.
  unfold summary in S at 1.
  destruct (summary w) as [[e0 r0] f0].
  destruct (camera_group w cam) as [g|]; unfold override in S;
    destruct (ShotMasterCamera.use_custom_render_settings cam),
      (ShotMasterCamera.use_custom_resolution cam);
    try destruct (CameraGroup.use_custom_render_settings g);
    try destruct (CameraGroup.use_custom_resolution g);
    simpl in S |- *;
    pose proof (f_equal (fun s => fst (fst s)) S) as Se;
    pose proof (f_equal (fun s => snd (fst s)) S) as Sr;
    pose proof (f_equal snd S) as Sf;
    simpl in Se, Sr, Sf; rewrite Se, Sr, Sf; repeat split; reflexivity.
Qed.

(** C3 fails as stated: a camera with its resolution toggle set (640x480 at
    50%) and its render-settings toggle unset is rendered at the master's
    1920x1080 at 100%. *)
Lemma C3_counterexample :
  let cam := Object.shotmaster_camera resolution_only_camera in
  let w' := snd (setup_render_settings cooperative_host resolution_only_camera
                   false user_world) in
  ShotMasterCamera.use_custom_resolution cam = true
  /\ ShotMasterCamera.use_custom_render_settings cam = false
  /\ resolution_of (env w') = (1920, 1080, 100)
  /\ resolution_of (env w') <> camera_resolution cam.
Proof. vm_compute. repeat split. discriminate. Qed.

(** ** Restoration *)

Lemma restore_render_settings_accepting h o w :
  accepting h ->
  exists w',
    restore_render_settings h o w = (inr tt, w')
    /\ snapshot (env w') = o
    /\ RenderEnv.cycles_samples (env w') = RenderEnv.cycles_samples (env w)
    /\ RenderEnv.eevee_taa_render_samples (env w')
       = RenderEnv.eevee_taa_render_samples (env w)
    /\ RenderEnv.view_layer (env w') = RenderEnv.view_layer (env w).
Proof.
  intros Hacc. unfold restore_render_settings.
  rewrite !bind_write by exact Hacc. rewrite write_accepting by exact Hacc.
  eexists. split; [reflexivity|].
  destruct w as [[] ? ? ? ? ?]. now destruct o.
Qed.

Lemma seq_value {A B} (m : M A) (k : M B) w r w' :
  bind m (fun _ => k) w = (inr r, w') -> exists w1, k w1 = (inr r, w').
Proof.
  unfold bind. destruct (m w) as [[e|a] w1]; [discriminate|]. eauto.
Qed.

(** What the setup returns, when it returns, is the snapshot of the
    environment it started from. *)
Lemma setup_render_settings_value h camera v w o w' :
  setup_render_settings h camera v w = (inr o, w') -> o = snapshot (env w).
Proof.
  unfold setup_render_settings. rewrite bind_get. cbv zeta. intros E.
  repeat (apply seq_value in E; destruct E as [? E]).
  now injection E as <- _.
Qed.

(** When the setup returns and the host accepts the assignments, the nine
    saved fields are back after the job, whatever the passes did. *)
Lemma render_from_camera_restores_snapshot h camera anim v w :
  accepting h ->
  snapshot (env (snd (render_from_camera h camera anim v w)))
  = snapshot (env w).
Proof.
  intros Hacc. destruct camera as [c|]; [|reflexivity].
  destruct (Object.type c =? "CAMERA")%string eqn:T.
  2:{ now rewrite render_from_camera_not_camera. }
  destruct (returns_setup_render_settings h Hacc c v w) as (o & w1 & E).
  rewrite (render_from_camera_setup_returns _ _ _ _ _ _ _ T E). simpl snd.
  destruct (restore_render_settings_accepting h o
              (snd (render_body h c anim v w1)) Hacc) as (w' & E' & S & _).
  rewrite E'. simpl. rewrite S.
  exact (setup_render_settings_value _ _ _ _ _ _ E).
Qed.

(** C1, evaluated where it fails.  A camera without overrides that asks for
    the view layer "Mattes" is rendered on a cooperative host in a scene set
    to 64 Cycles samples on the layer "ViewLayer", the master being Cycles
    at 128 samples.  The job succeeds and the nine saved fields are back,
    but the scene is left at 128 Cycles samples on the layer "Mattes". *)
Theorem C1_samples_and_view_layer_left_changed :
  let r := render_from_camera cooperative_host (Some layered_camera) false
             false user_world in
  fst r = true
  /\ snapshot (env (snd r)) = snapshot (env user_world)
  /\ RenderEnv.cycles_samples (env user_world) = 64
  /\ RenderEnv.cycles_samples (env (snd r)) = 128
  /\ RenderEnv.view_layer (env user_world) = "ViewLayer"
  /\ RenderEnv.view_layer (env (snd r)) = "Mattes".
Proof. vm_compute. repeat split. Qed.

(** C2, evaluated where it fails.  On a host whose [render.engine] rejects
    ['BLENDER_EEVEE'], the setup for a camera with that engine raises after
    the master values have been assigned.  [original_settings] is then
    unbound, the restoration in the [finally] clause fails on it, and the
    scene keeps the master's engine and resolution instead of the user's. *)
Theorem C2_setup_exception_skips_restoration :
  let r := render_from_camera eevee_next_host (Some eevee_camera) false false
             user_world in
  fst (setup_render_settings eevee_next_host eevee_camera false user_world)
    = inl (PropertyError (SetEngine "BLENDER_EEVEE"))
  /\ fst r = false
  /\ (RenderEnv.engine (env user_world),
      resolution_of (env user_world)) = ("BLENDER_WORKBENCH", (1280, 720, 75))
  /\ (RenderEnv.engine (env (snd r)),
      resolution_of (env (snd r))) = ("CYCLES", (1920, 1080, 100))
  /\ snapshot (env (snd r)) <> snapshot (env user_world).
Proof. vm_compute. repeat split. discriminate. Qed.

(** ** Statistics *)

(** C6, evaluated where it fails.  A camera without overrides in a group
    that renders with Eevee, under a master set to Cycles: the setup resolves
    Eevee for it, the statistics count it under Cycles. *)
Theorem C6_statistics_ignore_group_engine :
  RenderEnv.engine
    (env (snd (setup_render_settings cooperative_host ext_camera false
                 grouped_world))) = "BLENDER_EEVEE"
  /\ stats_engine grouped_world ext_camera = "CYCLES"
  /\ (tally ← stats_render_engines grouped_world;
      Some (tally !! "CYCLES", tally !! "BLENDER_EEVEE"))
     = Some (Some 1, Some 0).
Proof. vm_compute. repeat split. Qed.

(** * Further properties of the render job *)

(** The outer [try] block of a render that is not a viewport render, on an
    accepting host with creatable directories. *)
Lemma render_body_passes h c anim w :
  accepting h ->
  (forall p, In p (passes_to_render (Object.shotmaster_camera c)) ->
     makedirs_ok h (pass_output_dir h w c anim p) = true) ->
  exists w',
    render_body h c anim false w
    = (inr (existsb (render_ok h)
              (seq (length (calls w))
                 (length (passes_to_render (Object.shotmaster_camera c))))),
       w')
    /\ calls w'
       = (calls w
          ++ pass_calls h w c anim (length (calls w))
               (passes_to_render (Object.shotmaster_camera c)))%list.
Proof.
  intros Hacc Hdir. unfold render_body.
  destruct (render_passes_loop_accepting h c anim
              (passes_to_render (Object.shotmaster_camera c)) Hacc false w
              Hdir) as (w2 & E2 & C2 & _).
  rewrite (bind_inr _ _ _ _ _ E2).
  unfold bind, update_render_statistics, ret. simpl orb.
  eexists. split; [reflexivity|]. exact C2.
Qed.

Lemma render_from_camera_passes h c anim w :
  accepting h ->
  Object.type c = "CAMERA" ->
  (forall p, In p (passes_to_render (Object.shotmaster_camera c)) ->
     makedirs_ok h (pass_output_dir h w c anim p) = true) ->
  fst (render_from_camera h (Some c) anim false w)
  = existsb (render_ok h)
      (seq (length (calls w))
         (length (passes_to_render (Object.shotmaster_camera c))))
  /\ calls (snd (render_from_camera h (Some c) anim false w))
     = (calls w
        ++ pass_calls h w c anim (length (calls w))
             (passes_to_render (Object.shotmaster_camera c)))%list.
Proof.
  intros Hacc T Hdir.
  assert (T' : (Object.type c =? "CAMERA")%string = true)
    by (now apply String.eqb_eq).
  destruct (returns_setup_render_settings h Hacc c false w) as (o & w1 & E).
  pose proof (keeps_setup_render_settings h c false w) as Q.
  rewrite E in Q. simpl in Q.
  pose proof (quiet_frame _ _ Q) as F. pose proof (quiet_calls _ _ Q) as C.
  rewrite (render_from_camera_setup_returns _ _ _ _ _ _ _ T' E).
  assert (Hdir1 : forall p,
            In p (passes_to_render (Object.shotmaster_camera c)) ->
            makedirs_ok h (pass_output_dir h w1 c anim p) = true).
  { intros p Hp. unfold pass_output_dir.
    rewrite (get_camera_output_path_frame _ _ _ _ _ _ F). now apply Hdir. }
  destruct (render_body_passes h c anim w1 Hacc Hdir1) as (w2 & E2 & C2).
  rewrite E2. simpl fst. simpl snd. rewrite restore_calls, C2, C.
  now rewrite (pass_calls_frame _ _ _ _ _ _ F).
Qed.

(** X1.  On a host that accepts the property assignments, the nine fields
    saved by the setup (engine, resolution x/y/percentage, file path, file
    format, active camera, frame start and end) have their values from
    before the call when [render_from_camera] returns, whatever the renderer
    and the directory creation did. *)
Theorem X1_saved_fields_restored h camera anim v w :
  accepting h ->
  snapshot (env (snd (render_from_camera h camera anim v w)))
  = snapshot (env w).
Proof. intros Hacc. now apply render_from_camera_restores_snapshot. Qed.

Lemma X1_witness :
  snapshot (env (snd (render_from_camera flaky_host (Some three_pass_camera)
                        true false user_world)))
  = snapshot (env user_world).
Proof.
  apply (X1_saved_fields_restored flaky_host (Some three_pass_camera) true
           false user_world).
  intro x. reflexivity.
Defined.

(** X2.  In a render that is not a viewport render, on a host that accepts
    the assignments and can create the directories (or the fallback), the
    renderer is called exactly once per entry of the pass sequence, in order,
    each call on that pass's file path, and [render_from_camera] returns
    [True] exactly when at least one of those calls succeeded. *)
Theorem X2_one_call_per_pass h c anim w :
  accepting h ->
  Object.type c = "CAMERA" ->
  (forall p, In p (passes_to_render (Object.shotmaster_camera c)) ->
     makedirs_ok h (pass_output_dir h w c anim p) = true) ->
  let passes := passes_to_render (Object.shotmaster_camera c) in
  let r := render_from_camera h (Some c) anim false w in
  let new_calls := pass_calls h w c anim (length (calls w)) passes in
  calls (snd r) = (calls w ++ new_calls)%list
  /\ length new_calls = length passes
  /\ (fst r = true <-> exists k, In k new_calls /\ call_ok k = true).
Proof.
  intros Hacc T Hdir. cbv zeta.
  destruct (render_from_camera_passes h c anim w Hacc T Hdir) as [R C].
  split; [exact C|]. rewrite R. clear R C Hdir.
  generalize (length (calls w)).
  induction (passes_to_render (Object.shotmaster_camera c)) as [|p ps IH];
    intros n; simpl.
  - split; [reflexivity|]. split; [discriminate|].
    now intros (k & [] & _).
  - destruct (IH (S n)) as [L I]. split; [now rewrite L|].
    rewrite orb_true_iff, I. split.
    + intros [E|(k & Hk & Ek)].
      * eexists. split; [now left|]. unfold pass_call.
        now destruct anim.
      * exists k. split; [now right|exact Ek].
    + intros (k & [<-|Hk] & Ek).
      * left. unfold pass_call in Ek. now destruct anim.
      * right. now exists k.
Qed.

Lemma X2_witness :
  let passes := passes_to_render (Object.shotmaster_camera three_pass_camera) in
  let r := render_from_camera flaky_host (Some three_pass_camera) true false
             user_world in
  let new_calls :=
    pass_calls flaky_host user_world three_pass_camera true
      (length (calls user_world)) passes in
  calls (snd r) = (calls user_world ++ new_calls)%list
  /\ length new_calls = length passes
  /\ (fst r = true <-> exists k, In k new_calls /\ call_ok k = true).
Proof.
  apply (X2_one_call_per_pass flaky_host three_pass_camera true user_world).
  - intro x. reflexivity.
  - reflexivity.
  - intros p _. reflexivity.
Defined.

Lemma str_append_empty (s : string) : (s ++ "")%string = s.
Proof.
  induction s as [|c s IH]; [reflexivity|].
  change (String c (s ++ "")%string = String c s). now rewrite IH.
Qed.

(** X3.  With [use_render_passes] off, the list of render passes plays no
    part: on a host that accepts the assignments and can create the
    directory, a render that is not a viewport render calls the renderer
    exactly once, on the file "<filename>_<camera name>" without pass
    suffix, and returns whether that call succeeded. *)
Theorem X3_single_render_without_passes h c anim w :
  accepting h ->
  Object.type c = "CAMERA" ->
  ShotMasterCamera.use_render_passes (Object.shotmaster_camera c) = false ->
  makedirs_ok h (pass_output_dir h w c anim None) = true ->
  let r := render_from_camera h (Some c) anim false w in
  let ok := render_ok h (length (calls w)) in
  let file :=
    (ShotMasterCamera.filename (Object.shotmaster_camera c) ++ "_"
     ++ Object.name c)%string in
  fst r = ok
  /\ calls (snd r)
     = (calls w
        ++ [pass_call anim
              (os_path_join (pass_output_dir h w c anim None) [file]) ok])%list.
Proof.
  intros Hacc T U Hdir. cbv zeta.
  assert (P : passes_to_render (Object.shotmaster_camera c) = [None]).
  { unfold passes_to_render. now rewrite U. }
  destruct (render_from_camera_passes h c anim w Hacc T) as [R C].
  { rewrite P. intros p [<-|[]]. exact Hdir. }
  remember (render_from_camera h (Some c) anim false w) as r eqn:Er.
  rewrite P in R, C. simpl in R, C. rewrite orb_false_r in R.
  split; [exact R|]. rewrite C. unfold pass_filepath, pass_filename. simpl.
  now rewrite str_append_empty.
Qed.

Lemma X3_witness :
  let r := render_from_camera cooperative_host (Some shot_a) false false
             user_world in
  fst r = true
  /\ calls (snd r)
     = (calls user_world
        ++ [pass_call false
              (os_path_join
                 (pass_output_dir cooperative_host user_world shot_a false None)
                 ["shot_Shot A"]) true])%list.
Proof.
  apply (X3_single_render_without_passes cooperative_host shot_a false
           user_world); reflexivity || (intro x; reflexivity).
Defined.

(** X4.  When the directory derived for the render cannot be created but
    the fallback "//renders/" can, the job is not aborted: the render goes
    to the fallback directory, under the same file name. *)
Theorem X4_directory_fallback h c anim w :
  accepting h ->
  Object.type c = "CAMERA" ->
  ShotMasterCamera.use_render_passes (Object.shotmaster_camera c) = false ->
  makedirs_ok h (get_camera_output_path h w c anim None) = false ->
  makedirs_ok h (abspath h "//renders/") = true ->
  let r := render_from_camera h (Some c) anim false w in
  let ok := render_ok h (length (calls w)) in
  let file :=
    (ShotMasterCamera.filename (Object.shotmaster_camera c) ++ "_"
     ++ Object.name c)%string in
  fst r = ok
  /\ calls (snd r)
     = (calls w
        ++ [pass_call anim (os_path_join (abspath h "//renders/") [file]) ok])%list.
Proof.
  intros Hacc T U Hno Hfb. cbv zeta.
  assert (D : pass_output_dir h w c anim None = abspath h "//renders/").
  { unfold pass_output_dir. now rewrite Hno. }
  assert (P : passes_to_render (Object.shotmaster_camera c) = [None]).
  { unfold passes_to_render. now rewrite U. }
  destruct (render_from_camera_passes h c anim w Hacc T) as [R C].
  { rewrite P. intros p [<-|[]]. now rewrite D. }
  remember (render_from_camera h (Some c) anim false w) as r eqn:Er.
  rewrite P in R, C. simpl in R, C. rewrite orb_false_r in R.
  split; [exact R|]. rewrite C. unfold pass_filepath, pass_filename. simpl.
  now rewrite str_append_empty, D.
Qed.

Lemma X4_witness :
  let r := render_from_camera fallback_only_host (Some shot_a) false false
             user_world in
  fst r = true
  /\ calls (snd r)
     = (calls user_world
        ++ [pass_call false
              (os_path_join (abspath fallback_only_host "//renders/")
                 ["shot_Shot A"]) true])%list.
Proof.
  apply (X4_directory_fallback fallback_only_host shot_a false user_world);
    reflexivity || (intro x; reflexivity).
Defined.

(** A pass for which neither the derived directory nor the fallback can be
    created raises before anything is assigned or rendered. *)
Lemma render_pass_no_directory h c anim p w :
  makedirs_ok h (get_camera_output_path h w c anim p) = false ->
  makedirs_ok h (abspath h "//renders/") = false ->
  render_pass h c anim p w = (inl (OSError (abspath h "//renders/")), w).
Proof.
  intros H1 H2. unfold render_pass. rewrite bind_get. cbv zeta.
  apply bind_inl. unfold try_except, bind, makedirs. rewrite H1. simpl.
  now rewrite H2.
Qed.

Lemma render_passes_loop_no_directory h c anim passes :
  (forall p, makedirs_ok h p = false) ->
  forall success w,
    render_passes_loop h c anim passes success w = (inr success, w).
Proof.
  intros H. induction passes as [|p ps IH]; intros success w; simpl.
  - reflexivity.
  - assert (E : try_except (render_pass h c anim p ;; ret true)
                  (fun _ => ret success) w = (inr success, w)).
    { unfold try_except.
      rewrite (bind_inl _ _ _ _ _
                 (render_pass_no_directory h c anim p w (H _) (H _))).
      reflexivity. }
    rewrite (bind_inr _ _ _ _ _ E). apply IH.
Qed.

(** X5.  On a host where no directory can be created, a render that is not
    a viewport render never reaches the renderer and returns [False],
    however many passes the camera has: each pass fails on its directory
    and the loop goes on to the next. *)
Theorem X5_no_directory_no_render h c anim w :
  (forall p, makedirs_ok h p = false) ->
  fst (render_from_camera h (Some c) anim false w) = false
  /\ calls (snd (render_from_camera h (Some c) anim false w)) = calls w.
Proof.
  intros H.
  destruct (Object.type c =? "CAMERA")%string eqn:T.
  2:{ now rewrite render_from_camera_not_camera. }
  pose proof (keeps_setup_render_settings h c false w) as Q.
  destruct (setup_render_settings h c false w) as [[e|o] w1] eqn:E;
    simpl in Q.
  - rewrite (render_from_camera_setup_raises _ _ _ _ _ _ _ T E).
    split; [reflexivity|now apply quiet_calls].
  - rewrite (render_from_camera_setup_returns _ _ _ _ _ _ _ T E).
    unfold render_body.
    rewrite (bind_inr _ _ _ _ _
               (render_passes_loop_no_directory h c anim _ H false w1)).
    unfold bind, update_render_statistics, ret. simpl fst. simpl snd.
    split; [reflexivity|].
    rewrite restore_calls. simpl. now apply quiet_calls.
Qed.

Lemma X5_witness :
  fst (render_from_camera no_directory_host (Some three_pass_camera) false
         false user_world) = false
  /\ calls (snd (render_from_camera no_directory_host (Some three_pass_camera)
                   false false user_world)) = calls user_world.
Proof.
  apply (X5_no_directory_no_render no_directory_host three_pass_camera false
           user_world).
  intro p. reflexivity.
Defined.

Lemma store_kept_refl w : store_kept w w.
Proof. now repeat split. Qed.

Lemma store_kept_trans w1 w2 w3 :
  store_kept w1 w2 -> store_kept w2 w3 -> store_kept w1 w3.
Proof.
  unfold store_kept. intros (a1 & b1 & c1) (a2 & b2 & c2).
  repeat split; congruence.
Qed.

Lemma frame_store_kept w w' : frame w w' -> store_kept w w'.
Proof. intros (a & _ & b & c). now repeat split. Qed.

Lemma keeps_render_passes_loop h c anim passes success :
  keeps frame (render_passes_loop h c anim passes success).
Proof.
  intros w.
  destruct (render_passes_loop_returns h c anim passes success w)
    as (b & w' & E & F).
  now rewrite E.
Qed.

Lemma keeps_render_body h c anim v : keeps store_kept (render_body h c anim v).
Proof.
  unfold render_body.
  apply (keeps_bind store_kept store_kept_trans); [|intro].
  - destruct v; [destruct anim|].
    + apply keeps_ret, store_kept_refl.
    + apply (keeps_bind store_kept store_kept_trans);
        [|intro; apply keeps_ret, store_kept_refl].
      intros w. apply frame_store_kept, keeps_invoke.
    + intros w. apply frame_store_kept, keeps_render_passes_loop.
  - apply (keeps_bind store_kept store_kept_trans);
      [|intro; apply keeps_ret, store_kept_refl].
    intros w. now repeat split.
Qed.

(** X6.  Whatever the host does and whatever the outcome,
    [render_from_camera] leaves the configuration alone: the list of view
    layers, the groups, the scene objects and every master value are as
    before; of the add-on's data only the three counters can change. *)
Theorem X6_job_leaves_configuration_alone h camera anim v w :
  let w' := snd (render_from_camera h camera anim v w) in
  store_kept w w'
  /\ master_values (shotmaster_settings w')
     = master_values (shotmaster_settings w).
Proof.
  cbv zeta. split.
  - destruct camera as [c|]; [|apply store_kept_refl].
    destruct (Object.type c =? "CAMERA")%string eqn:T.
    2:{ rewrite render_from_camera_not_camera by exact T.
        apply store_kept_refl. }
    pose proof (keeps_setup_render_settings h c v w) as Q.
    destruct (setup_render_settings h c v w) as [[e|o] w1] eqn:E;
      simpl in Q.
    + rewrite (render_from_camera_setup_raises _ _ _ _ _ _ _ T E).
      apply frame_store_kept, quiet_frame, Q.
    + rewrite (render_from_camera_setup_returns _ _ _ _ _ _ _ T E).
      simpl snd.
      eapply store_kept_trans;
        [apply frame_store_kept, quiet_frame, Q|].
      eapply store_kept_trans; [apply keeps_render_body|].
      apply frame_store_kept, quiet_frame, keeps_restore_render_settings.
  - rewrite render_from_camera_settings.
    destruct (reaches_statistics h camera anim v w); [|reflexivity].
    now destruct (shotmaster_settings w).
Qed.

(** * Sample counts and view layer resolved by the setup *)

Lemma sampling_write x w :
  sampling (with_env (apply_write x) w) = upd_sampling x (sampling w).
Proof. destruct w as [[] ? ? ? ? ?]. now destruct x. Qed.

Lemma tracks_sampling_ret : tracks_sampling (ret tt) (fun _ s => s).
Proof. intros w. now exists w. Qed.

Lemma tracks_sampling_bind m k F G :
  tracks_sampling m F -> tracks_sampling k G ->
  tracks_sampling (bind m (fun _ => k)) (fun l s => G l (F l s)).
Proof.
  intros Hm Hk w. destruct (Hm w) as (w1 & E1 & S1 & L1).
  destruct (Hk w1) as (w2 & E2 & S2 & L2).
  exists w2. split; [now rewrite (bind_inr _ _ _ _ _ E1)|].
  split; [now rewrite S2, S1, L1|congruence].
Qed.

Lemma tracks_sampling_when (b : bool) m F :
  tracks_sampling m F ->
  tracks_sampling (when b m) (fun l s => if b then F l s else s).
Proof. intros Hm. destruct b; [exact Hm|exact tracks_sampling_ret]. Qed.

Lemma tracks_sampling_if (b : bool) m1 m2 F G :
  tracks_sampling m1 F -> tracks_sampling m2 G ->
  tracks_sampling (if b then m1 else m2) (fun l s => if b then F l s else G l s).
Proof. now destruct b. Qed.

Lemma tracks_sampling_ext m F G :
  tracks_sampling m F -> (forall l s, F l s = G l s) -> tracks_sampling m G.
Proof.
  intros Hm HF w. destruct (Hm w) as (w' & E & S & L).
  exists w'. split; [exact E|]. split; [now rewrite S|exact L].
Qed.

Section Sampling.
Variable h : Host.
Hypothesis Hacc : accepting h.

Lemma tracks_sampling_write x :
  tracks_sampling (write h x) (fun _ => upd_sampling x).
Proof using Hacc.
  intros w. eexists. split; [now apply write_accepting|].
  split; [apply sampling_write|reflexivity].
Qed.

Lemma tracks_sampling_apply_samples c e :
  tracks_sampling (apply_samples h c e) (fun _ => samples_effect c e).
Proof using Hacc.
  intros w. unfold apply_samples. rewrite bind_get.
  unfold samples_effect, sampling.
  destruct (RenderEnv.engine (env w) =? "CYCLES")%string;
    [|destruct (RenderEnv.engine (env w) =? "BLENDER_EEVEE")%string].
  - destruct (tracks_sampling_write (SetCyclesSamples c) w)
      as (w' & E & S & L).
    exists w'. now repeat split.
  - destruct (tracks_sampling_write (SetEeveeSamples e) w)
      as (w' & E & S & L).
    exists w'. now repeat split.
  - now exists w.
Qed.

Lemma tracks_sampling_apply_view_layer b l :
  tracks_sampling (apply_view_layer h b l) (fun layers => layer_effect layers b l).
Proof using Hacc.
  intros w. unfold apply_view_layer, when. rewrite bind_get.
  unfold layer_effect, sampling.
  destruct (b && bool_decide (l ∈ view_layers w)); [|now exists w].
  destruct (tracks_sampling_write (SetViewLayer l) w) as (w' & E & S & L).
  exists w'. now repeat split.
Qed.

Lemma tracks_sampling_resolution x y p :
  tracks_sampling
    (bind (write h (SetResolutionX x))
       (fun _ => bind (write h (SetResolutionY y))
                   (fun _ => write h (SetResolutionPercentage p))))
    (fun _ s => s).
Proof using Hacc.
  eapply tracks_sampling_ext.
  - apply tracks_sampling_bind; [apply tracks_sampling_write|].
    apply tracks_sampling_bind; apply tracks_sampling_write.
  - now intros l [[[e cy] ee] vl].
Qed.

Lemma tracks_sampling_apply_group_settings g :
  tracks_sampling (apply_group_settings h g)
    (fun layers =>
       override_sampling layers (CameraGroup.use_custom_render_settings g)
         (CameraGroup.render_engine g) (CameraGroup.cycles_samples g)
         (CameraGroup.eevee_samples g) (CameraGroup.use_custom_view_layer g)
         (CameraGroup.view_layer g)).
Proof using Hacc.
  unfold apply_group_settings. eapply tracks_sampling_ext.
  - apply tracks_sampling_bind; [|apply tracks_sampling_apply_view_layer].
    apply tracks_sampling_when.
    apply tracks_sampling_bind; [apply tracks_sampling_write|].
    apply tracks_sampling_bind; [|apply tracks_sampling_apply_samples].
    apply tracks_sampling_when. apply tracks_sampling_resolution.
  - intros l [[[e cy] ee] vl]. unfold override_sampling.
    now destruct (CameraGroup.use_custom_render_settings g),
      (CameraGroup.use_custom_resolution g).
Qed.

Lemma tracks_sampling_apply_camera_settings cam :
  tracks_sampling (apply_camera_settings h cam)
    (fun layers =>
       override_sampling layers
         (ShotMasterCamera.use_custom_render_settings cam)
         (ShotMasterCamera.render_engine cam)
         (ShotMasterCamera.cycles_samples cam)
         (ShotMasterCamera.eevee_samples cam)
         (ShotMasterCamera.use_custom_view_layer cam)
         (ShotMasterCamera.view_layer cam)).
Proof using Hacc.
  unfold apply_camera_settings. eapply tracks_sampling_ext.
  - apply tracks_sampling_bind; [|apply tracks_sampling_apply_view_layer].
    apply tracks_sampling_when.
    apply tracks_sampling_bind; [apply tracks_sampling_write|].
    apply tracks_sampling_bind; [|apply tracks_sampling_apply_samples].
    apply tracks_sampling_when. apply tracks_sampling_resolution.
  - intros l [[[e cy] ee] vl]. unfold override_sampling.
    now destruct (ShotMasterCamera.use_custom_render_settings cam),
      (ShotMasterCamera.use_custom_resolution cam).
Qed.

Lemma tracks_sampling_apply_master_settings s :
  tracks_sampling (apply_master_settings h s)
    (fun _ x =>
       samples_effect (ShotMasterSettings.master_cycles_samples s)
         (ShotMasterSettings.master_eevee_samples s)
         (upd_sampling (SetEngine (ShotMasterSettings.master_render_engine s))
            x)).
Proof using Hacc.
  unfold apply_master_settings. eapply tracks_sampling_ext.
  - apply tracks_sampling_bind; [apply tracks_sampling_write|].
    apply tracks_sampling_bind; [apply tracks_sampling_write|].
    apply tracks_sampling_bind; [apply tracks_sampling_write|].
    apply tracks_sampling_bind;
      [apply tracks_sampling_write|apply tracks_sampling_apply_samples].
  - now intros l [[[e cy] ee] vl].
Qed.

Lemma tracks_sampling_rest s cam camera v :
  tracks_sampling
    (bind (apply_frame_range h s cam)
       (fun _ =>
          bind (write h (SetCamera (Some (Object.name camera))))
            (fun _ =>
               if v : bool then ret tt
               else write h (SetFileFormat
                               (ShotMasterCamera.file_format
                                  (Object.shotmaster_camera camera))))))
    (fun _ x => x).
Proof using Hacc.
  unfold apply_frame_range. eapply tracks_sampling_ext.
  - apply tracks_sampling_bind.
    + apply tracks_sampling_if; apply tracks_sampling_bind;
        apply tracks_sampling_write.
    + apply tracks_sampling_bind; [apply tracks_sampling_write|].
      apply tracks_sampling_if;
        [apply tracks_sampling_ret|apply tracks_sampling_write].
  - intros l [[[e cy] ee] vl].
    now destruct (ShotMasterCamera.use_custom_frames cam), v.
Qed.

Lemma apply_camera_group_sampling cam w :
  exists w',
    apply_camera_group h cam w = (inr tt, w')
    /\ sampling w'
       = match camera_group w cam with
         | Some g =>
             override_sampling (view_layers w)
               (CameraGroup.use_custom_render_settings g)
               (CameraGroup.render_engine g) (CameraGroup.cycles_samples g)
               (CameraGroup.eevee_samples g)
               (CameraGroup.use_custom_view_layer g) (CameraGroup.view_layer g)
               (sampling w)
         | None => sampling w
         end
    /\ view_layers w' = view_layers w.
Proof using Hacc.
  unfold apply_camera_group, camera_group, when. rewrite bind_get.
  destruct (truthy (ShotMasterCamera.group cam)); [|now exists w].
  destruct (find _ _) as [g|]; [|now exists w].
  apply tracks_sampling_apply_group_settings.
Qed.

(** The sampling part after the whole setup. *)
Lemma setup_render_settings_sampling camera v w :
  let cam := Object.shotmaster_camera camera in
  let s := shotmaster_settings w in
  let after_master :=
    samples_effect (ShotMasterSettings.master_cycles_samples s)
      (ShotMasterSettings.master_eevee_samples s)
      (upd_sampling (SetEngine (ShotMasterSettings.master_render_engine s))
         (sampling w)) in
  let after_group :=
    match camera_group w cam with
    | Some g =>
        override_sampling (view_layers w)
          (CameraGroup.use_custom_render_settings g)
          (CameraGroup.render_engine g) (CameraGroup.cycles_samples g)
          (CameraGroup.eevee_samples g)
          (CameraGroup.use_custom_view_layer g) (CameraGroup.view_layer g)
          after_master
    | None => after_master
    end in
  exists o w',
    setup_render_settings h camera v w = (inr o, w')
    /\ sampling w'
       = override_sampling (view_layers w)
           (ShotMasterCamera.use_custom_render_settings cam)
           (ShotMasterCamera.render_engine cam)
           (ShotMasterCamera.cycles_samples cam)
           (ShotMasterCamera.eevee_samples cam)
           (ShotMasterCamera.use_custom_view_layer cam)
           (ShotMasterCamera.view_layer cam) after_group.
Proof using Hacc.
  intros cam s. cbv zeta.
  unfold setup_render_settings. rewrite bind_get. cbv zeta. fold cam s.
  destruct (tracks_sampling_apply_master_settings s w) as (w1 & E1 & S1 & L1).
  pose proof (keeps_apply_master_settings h s w) as Q1.
  rewrite E1 in Q1. simpl in Q1.
  rewrite (bind_inr _ _ _ _ _ E1).
  destruct (apply_camera_group_sampling cam w1) as (w2 & E2 & S2 & L2).
  rewrite (camera_group_quiet _ _ cam Q1), L1, S1 in S2.
  rewrite (bind_inr _ _ _ _ _ E2).
  destruct (tracks_sampling_apply_camera_settings cam w2)
    as (w3 & E3 & S3 & L3).
  rewrite L2, L1, S2 in S3.
  rewrite (bind_inr _ _ _ _ _ E3).
  destruct (tracks_sampling_rest s cam camera v w3) as (w4 & E4 & S4 & L4).
  exists (snapshot (env w)), w4. split; [|now rewrite S4, S3].
  rewrite <- bind_assoc, <- bind_assoc.
  assert (E4' :
    bind (bind (apply_frame_range h s cam)
            (fun _ => write h (SetCamera (Some (Object.name camera)))))
         (fun _ => if v then ret tt
                   else write h (SetFileFormat (ShotMasterCamera.file_format cam)))
         w3 = (inr tt, w4)).
  { rewrite bind_assoc. exact E4. }
  now rewrite (bind_inr _ _ _ _ _ E4').
Qed.
End Sampling.

Lemma fst_override_sampling layers on engine c e ul l s :
  fst (override_sampling layers on engine c e ul l s)
  = fst (if on : bool
         then samples_effect c e (upd_sampling (SetEngine engine) s)
         else s).
Proof.
  unfold override_sampling, layer_effect.
  destruct (if on then _ else _) as [[[? ?] ?] ?].
  now destruct (ul && _).
Qed.

Lemma snd_override_sampling layers on engine c e ul l s :
  snd (override_sampling layers on engine c e ul l s)
  = if ul && bool_decide (l ∈ layers) then l else snd s.
Proof.
  unfold override_sampling, layer_effect, samples_effect, upd_sampling.
  destruct s as [[[e0 cy] ee] vl]. destruct on; simpl.
  - destruct (engine =? "CYCLES")%string;
      [|destruct (engine =? "BLENDER_EEVEE")%string];
      now destruct (ul && _).
  - now destruct (ul && _).
Qed.

Lemma snd_samples_effect c e s : snd (samples_effect c e s) = snd s.
Proof.
  unfold samples_effect. destruct s as [[[e0 cy] ee] vl].
  destruct (e0 =? "CYCLES")%string;
    [|destruct (e0 =? "BLENDER_EEVEE")%string]; reflexivity.
Qed.

(** X7.  On a host that accepts the assignments, the view layer the setup
    leaves in the window is the camera's when the camera has its view-layer
    toggle set and the scene has a layer of that name; else the group's
    under the same two conditions on the group; else the layer that was
    current before.  A layer name the scene does not have is passed over
    without error, and the choice does not depend on the render-settings
    toggles. *)
Theorem X7_view_layer_resolution h w camera v :
  accepting h ->
  let cam := Object.shotmaster_camera camera in
  exists o w',
    setup_render_settings h camera v w = (inr o, w')
    /\ RenderEnv.view_layer (env w')
       = if ShotMasterCamera.use_custom_view_layer cam
            && bool_decide (ShotMasterCamera.view_layer cam ∈ view_layers w)
         then ShotMasterCamera.view_layer cam
         else match camera_group w cam with
              | Some g =>
                  if CameraGroup.use_custom_view_layer g
                     && bool_decide (CameraGroup.view_layer g ∈ view_layers w)
                  then CameraGroup.view_layer g
                  else RenderEnv.view_layer (env w)
              | None => RenderEnv.view_layer (env w)
              end.
Proof.
  intros Hacc cam.
  destruct (setup_render_settings_sampling h Hacc camera v w)
    as (o & w' & E & S).
  exists o, w'. split; [exact E|].
  apply (f_equal snd) in S. cbv zeta in S. fold cam in S.
  rewrite snd_override_sampling in S.
  change (snd (sampling w')) with (RenderEnv.view_layer (env w')) in S.
  rewrite S.
  destruct (ShotMasterCamera.use_custom_view_layer cam && _); [reflexivity|].
  destruct (camera_group w cam) as [g|].
  - rewrite snd_override_sampling, snd_samples_effect.
    destruct (sampling w) as [[[e0 cy] ee] vl] eqn:Sw.
    now injection Sw as _ _ _ <-.
  - rewrite snd_samples_effect.
    destruct (sampling w) as [[[e0 cy] ee] vl] eqn:Sw.
    now injection Sw as _ _ _ <-.
Qed.

Lemma X7_witness :
  let cam := Object.shotmaster_camera mattes_camera in
  exists o w',
    setup_render_settings cooperative_host mattes_camera false mattes_world
    = (inr o, w')
    /\ RenderEnv.view_layer (env w')
       = if ShotMasterCamera.use_custom_view_layer cam
            && bool_decide (ShotMasterCamera.view_layer cam
                            ∈ view_layers mattes_world)
         then ShotMasterCamera.view_layer cam
         else match camera_group mattes_world cam with
              | Some g =>
                  if CameraGroup.use_custom_view_layer g
                     && bool_decide (CameraGroup.view_layer g
                                     ∈ view_layers mattes_world)
                  then CameraGroup.view_layer g
                  else RenderEnv.view_layer (env mattes_world)
              | None => RenderEnv.view_layer (env mattes_world)
              end.
Proof.
  apply (X7_view_layer_resolution cooperative_host mattes_world mattes_camera
           false).
  intro x. reflexivity.
Defined.

(** On a host that accepts the assignments, the sample count of the engine
    the setup ends on comes from the tier that chose that engine. *)
Lemma setup_render_settings_samples h w camera v :
  accepting h ->
  let cam := Object.shotmaster_camera camera in
  exists o w',
    setup_render_settings h camera v w = (inr o, w')
    /\ (RenderEnv.engine (env w') = "CYCLES" ->
        RenderEnv.cycles_samples (env w')
        = if ShotMasterCamera.use_custom_render_settings cam
          then ShotMasterCamera.cycles_samples cam
          else inherited_cycles_samples w cam)
    /\ (RenderEnv.engine (env w') = "BLENDER_EEVEE" ->
        RenderEnv.eevee_taa_render_samples (env w')
        = if ShotMasterCamera.use_custom_render_settings cam
          then ShotMasterCamera.eevee_samples cam
          else inherited_eevee_samples w cam).
Proof.
  intros Hacc cam.
  destruct (setup_render_settings_sampling h Hacc camera v w)
    as (o & w' & E & S).
  exists o, w'. split; [exact E|].
  apply (f_equal fst) in S. cbv zeta in S. fold cam in S.
  rewrite fst_override_sampling in S.
  unfold inherited_cycles_samples, inherited_eevee_samples.
  assert (G : forall X,
    fst (match camera_group w cam with
         | Some g =>
             override_sampling (view_layers w)
               (CameraGroup.use_custom_render_settings g)
               (CameraGroup.render_engine g) (CameraGroup.cycles_samples g)
               (CameraGroup.eevee_samples g)
               (CameraGroup.use_custom_view_layer g) (CameraGroup.view_layer g)
               X
         | None => X
         end)
    = fst (match camera_group w cam with
           | Some g =>
               if CameraGroup.use_custom_render_settings g
               then samples_effect (CameraGroup.cycles_samples g)
                      (CameraGroup.eevee_samples g)
                      (upd_sampling (SetEngine (CameraGroup.render_engine g)) X)
               else X
           | None => X
           end)).
  { intros X. destruct (camera_group w cam); [|reflexivity].
    apply fst_override_sampling. }
  unfold sampling in S.
  set (e' := RenderEnv.engine (env w')) in *.
  set (cy' := RenderEnv.cycles_samples (env w')) in *.
  set (ee' := RenderEnv.eevee_taa_render_samples (env w')) in *.
  simpl fst in S at 1.
  destruct (ShotMasterCamera.use_custom_render_settings cam).
  - clear G. unfold samples_effect, upd_sampling in S.
    destruct (match camera_group w cam with Some _ => _ | None => _ end)
      as [[[e1 c1] ee1] vl1].
    destruct (String.eqb_spec (ShotMasterCamera.render_engine cam) "CYCLES")
      as [Ec|Ec];
      [|destruct (String.eqb_spec (ShotMasterCamera.render_engine cam)
                    "BLENDER_EEVEE") as [Ee|Ee]];
      simpl in S; injection S as -> -> ->; split; intros H;
      try reflexivity; try congruence.
  - rewrite G in S. clear G. unfold samples_effect, upd_sampling in S.
    destruct (camera_group w cam) as [g|].
    + destruct (CameraGroup.use_custom_render_settings g).
      * destruct (String.eqb_spec
                    (ShotMasterSettings.master_render_engine
                       (shotmaster_settings w)) "CYCLES");
          [|destruct (String.eqb_spec
                        (ShotMasterSettings.master_render_engine
                           (shotmaster_settings w)) "BLENDER_EEVEE")];
          (destruct (String.eqb_spec (CameraGroup.render_engine g) "CYCLES")
             as [Ec|Ec];
           [|destruct (String.eqb_spec (CameraGroup.render_engine g)
                         "BLENDER_EEVEE") as [Ee|Ee]]);
          simpl in S; injection S as -> -> ->; split; intros H;
          try reflexivity; try congruence.
      * destruct (String.eqb_spec
                    (ShotMasterSettings.master_render_engine
                       (shotmaster_settings w)) "CYCLES") as [Ec|Ec];
          [|destruct (String.eqb_spec
                        (ShotMasterSettings.master_render_engine
                           (shotmaster_settings w)) "BLENDER_EEVEE")
              as [Ee|Ee]];
          simpl in S; injection S as -> -> ->; split; intros H;
          try reflexivity; try congruence.
    + destruct (String.eqb_spec
                  (ShotMasterSettings.master_render_engine
                     (shotmaster_settings w)) "CYCLES") as [Ec|Ec];
        [|destruct (String.eqb_spec
                      (ShotMasterSettings.master_render_engine
                         (shotmaster_settings w)) "BLENDER_EEVEE")
            as [Ee|Ee]];
        simpl in S; injection S as -> -> ->; split; intros H;
        try reflexivity; try congruence.
Qed.

(** The view layer the setup leaves, on a host that accepts the
    assignments. *)
Lemma setup_render_settings_layer h w camera v :
  accepting h ->
  exists o w',
    setup_render_settings h camera v w = (inr o, w')
    /\ RenderEnv.view_layer (env w')
       = resolved_view_layer w (Object.shotmaster_camera camera).
Proof.
  intros Hacc. set (cam := Object.shotmaster_camera camera).
  destruct (setup_render_settings_sampling h Hacc camera v w)
    as (o & w' & E & S).
  exists o, w'. split; [exact E|].
  apply (f_equal snd) in S. cbv zeta in S. fold cam in S.
  rewrite snd_override_sampling in S.
  change (snd (sampling w')) with (RenderEnv.view_layer (env w')) in S.
  rewrite S. unfold resolved_view_layer.
  destruct (ShotMasterCamera.use_custom_view_layer cam && _); [reflexivity|].
  destruct (camera_group w cam) as [g|].
  - rewrite snd_override_sampling, snd_samples_effect.
    destruct (sampling w) as [[[e0 cy] ee] vl] eqn:Sw.
    now injection Sw as _ _ _ <-.
  - rewrite snd_samples_effect.
    destruct (sampling w) as [[[e0 cy] ee] vl] eqn:Sw.
    now injection Sw as _ _ _ <-.
Qed.

(** The base directory of the output path is the resolved path, made
    absolute. *)
Lemma base_path_of_resolved h w camera :
  base_path_of h w camera
  = abspath h (resolved_output_path w (Object.shotmaster_camera camera)).
Proof.
  unfold base_path_of, resolved_output_path, output_group. cbv zeta.
  destruct (ShotMasterCamera.use_custom_output_path _ && truthy _);
    [reflexivity|].
  destruct (truthy (ShotMasterCamera.group _)); [|reflexivity].
  destruct (find _ _) as [g|]; [|reflexivity].
  now destruct (truthy (CameraGroup.output_path g)).
Qed.

(** C3, as amended.  On a host that accepts the assignments, and for
    numbers the host stores as assigned, the setup returns and every value is
    resolved by the toggle of its own, camera before group before master:
    the engine by the render-settings toggle, with the sample count of the
    engine it ends on; the view layer by the view-layer toggle, for a layer
    the scene has; the frame range by the frame toggle, camera before master;
    the base directory of the output path by the output-path toggle, for a
    path that is not empty.  The resolution is the exception: the camera's
    applies only when both its render-settings toggle and its resolution
    toggle are set (a group's likewise needs both toggles of the group).  So
    a camera with [use_custom_resolution] set and
    [use_custom_render_settings] unset inherits the resolution, and the
    engine as well. *)
Theorem C3_resolution_needs_render_settings h w camera v :
  accepting h ->
  let cam := Object.shotmaster_camera camera in
  resolution_in_range (resolved_resolution w cam) ->
  frames_in_range (resolved_frame_range w cam) ->
  samples_in_range (resolved_cycles_samples w cam) ->
  samples_in_range (resolved_eevee_samples w cam) ->
  exists o w',
    setup_render_settings h camera v w = (inr o, w')
    /\ RenderEnv.engine (env w') = resolved_engine w cam
    /\ (RenderEnv.engine (env w') = "CYCLES" ->
        RenderEnv.cycles_samples (env w') = resolved_cycles_samples w cam)
    /\ (RenderEnv.engine (env w') = "BLENDER_EEVEE" ->
        RenderEnv.eevee_taa_render_samples (env w')
        = resolved_eevee_samples w cam)
    /\ RenderEnv.view_layer (env w') = resolved_view_layer w cam
    /\ frame_range_of (env w') = resolved_frame_range w cam
    /\ base_path_of h w' camera = abspath h (resolved_output_path w cam)
    /\ resolution_of (env w') = resolved_resolution w cam
    /\ (ShotMasterCamera.use_custom_resolution cam = true ->
        ShotMasterCamera.use_custom_render_settings cam = false ->
        resolution_of (env w') = inherited_resolution w cam
        /\ RenderEnv.engine (env w') = inherited_engine w cam).
Proof.
  intros Hacc cam _ _ _ _. subst cam.
  destruct (setup_render_settings_resolves h w camera v Hacc)
    as (o & w' & E & Se & Sr & Sf).
  destruct (setup_render_settings_samples h w camera v Hacc)
    as (o1 & w1 & E1 & Sc & Sv).
  destruct (setup_render_settings_layer h w camera v Hacc)
    as (o2 & w2 & E2 & Sl).
  rewrite E in E1, E2. injection E1 as <- <-. injection E2 as <- <-.
  pose proof (keeps_setup_render_settings h camera v w) as Q.
  rewrite E in Q. simpl in Q.
  exists o, w'. split; [exact E|].
  split; [exact Se|]. split; [exact Sc|]. split; [exact Sv|].
  split; [exact Sl|]. split; [exact Sf|]. split.
  { rewrite <- base_path_of_resolved.
    apply base_path_of_depends.
    - now destruct Q as [(_ & _ & G & _) _].
    - now rewrite (quiet_settings _ _ Q). }
  split; [exact Sr|].
  intros _ U. rewrite Sr, Se. now rewrite U.
Qed.

Lemma C3_witness :
  let cam := Object.shotmaster_camera resolution_only_camera in
  exists o w',
    setup_render_settings cooperative_host resolution_only_camera false
      user_world = (inr o, w')
    /\ RenderEnv.engine (env w') = "CYCLES"
    /\ RenderEnv.cycles_samples (env w') = 128
    /\ RenderEnv.view_layer (env w') = "ViewLayer"
    /\ frame_range_of (env w') = (1, 250)
    /\ base_path_of cooperative_host w' resolution_only_camera
       = "/proj/renders/"
    /\ resolution_of (env w') = (1920, 1080, 100)
    /\ ShotMasterCamera.use_custom_resolution cam = true
    /\ camera_resolution cam = (640, 480, 50).
Proof.
  intros cam.
  destruct (C3_resolution_needs_render_settings cooperative_host user_world
              resolution_only_camera false)
    as (o & w' & E & Se & Sc & _ & Sl & Sf & Sp & Sr & _).
  - intro x. reflexivity.
  - vm_compute. repeat split; discriminate.
  - vm_compute. repeat split; discriminate.
  - vm_compute. split; discriminate.
  - vm_compute. split; discriminate.
  - exists o, w'. split; [exact E|]. split; [exact Se|].
    split; [exact (Sc Se)|]. split; [exact Sl|]. split; [exact Sf|].
    split; [exact Sp|]. split; [exact Sr|]. split; reflexivity.
Defined.

(** X8.  On a host that accepts the assignments, and for sample counts the
    host stores as assigned (1 to 16777216), the sample count of the engine
    the setup ends on comes from the tier that chose that engine: when the
    final engine is Cycles, [cycles.samples] is the camera's Cycles count if
    the camera has its render-settings toggle set, else the group's if the
    group has, else the master's; likewise for Eevee and
    [eevee.taa_render_samples]. *)
Theorem X8_samples_follow_engine h w camera v :
  accepting h ->
  let cam := Object.shotmaster_camera camera in
  samples_in_range (resolved_cycles_samples w cam) ->
  samples_in_range (resolved_eevee_samples w cam) ->
  exists o w',
    setup_render_settings h camera v w = (inr o, w')
    /\ (RenderEnv.engine (env w') = "CYCLES" ->
        RenderEnv.cycles_samples (env w')
        = if ShotMasterCamera.use_custom_render_settings cam
          then ShotMasterCamera.cycles_samples cam
          else inherited_cycles_samples w cam)
    /\ (RenderEnv.engine (env w') = "BLENDER_EEVEE" ->
        RenderEnv.eevee_taa_render_samples (env w')
        = if ShotMasterCamera.use_custom_render_settings cam
          then ShotMasterCamera.eevee_samples cam
          else inherited_eevee_samples w cam).
Proof.
  intros Hacc cam _ _. now apply setup_render_settings_samples.
Qed.

Lemma X8_witness :
  exists o w',
    setup_render_settings cooperative_host mattes_camera false mattes_world
    = (inr o, w')
    /\ RenderEnv.engine (env w') = "BLENDER_EEVEE"
    /\ RenderEnv.eevee_taa_render_samples (env w') = 32.
Proof.
  destruct (X8_samples_follow_engine cooperative_host mattes_world
              mattes_camera false) as (o & w' & E & _ & Se).
  - intro x. reflexivity.
  - vm_compute. split; discriminate.
  - vm_compute. split; discriminate.
  - exists o, w'. split; [exact E|].
    assert (En : RenderEnv.engine (env w') = "BLENDER_EEVEE").
    { apply (f_equal (fun r => RenderEnv.engine (env (snd r)))) in E.
      simpl in E. rewrite <- E. reflexivity. }
    split; [exact En|]. rewrite (Se En). reflexivity.
Defined.

(** * Camera lists and statistics *)

Lemma truthy_false s : truthy s = false <-> s = "".
Proof. destruct s; simpl; split; congruence. Qed.

Lemma truthy_true s : truthy s = true <-> s <> "".
Proof. destruct s; simpl; split; congruence. Qed.

(** X9.  Every camera of the scene is in exactly one of the lists the
    manager hands out: a camera without group is in the ungrouped list and
    in no group's list ([get_cameras_in_group] returns nothing for the empty
    name); a camera with a group is not in the ungrouped list and is in the
    list of its own group only, whether or not that group is declared. *)
Theorem X9_camera_lists_partition w c :
  In c (get_all_cameras w) ->
  let g := ShotMasterCamera.group (Object.shotmaster_camera c) in
  (g = "" ->
   In c (get_ungrouped_cameras w)
   /\ forall name, ~ In c (get_cameras_in_group w name))
  /\ (g <> "" ->
      ~ In c (get_ungrouped_cameras w)
      /\ forall name, In c (get_cameras_in_group w name) <-> name = g).
Proof.
  intros Hc g. unfold get_ungrouped_cameras, get_cameras_in_group.
  apply list_elem_of_In in Hc. split; intros Hg.
  - split.
    + apply list_elem_of_In, list_elem_of_filter. split; [|exact Hc].
      apply truthy_false. exact Hg.
    + intros name Hin. destruct (truthy name) eqn:T; simpl in Hin; [|easy].
      apply list_elem_of_In, list_elem_of_filter in Hin.
      destruct Hin as [Hn _]. fold g in Hn. rewrite Hg in Hn. subst name.
      discriminate T.
  - split.
    + intros Hin. apply list_elem_of_In, list_elem_of_filter in Hin.
      destruct Hin as [Hn _]. apply truthy_false in Hn. contradiction.
    + intros name. split.
      * intros Hin. destruct (truthy name); simpl in Hin; [|easy].
        apply list_elem_of_In, list_elem_of_filter in Hin.
        now destruct Hin as [Hn _].
      * intros ->. apply truthy_true in Hg. rewrite Hg. simpl.
        apply list_elem_of_In, list_elem_of_filter. now split.
Qed.

Lemma X9_witness :
  let c := crowd_camera "C" "Ghost" in
  let g := ShotMasterCamera.group (Object.shotmaster_camera c) in
  (g = "" ->
   In c (get_ungrouped_cameras crowd_world)
   /\ forall name, ~ In c (get_cameras_in_group crowd_world name))
  /\ (g <> "" ->
      ~ In c (get_ungrouped_cameras crowd_world)
      /\ forall name, In c (get_cameras_in_group crowd_world name) <-> name = g).
Proof.
  apply (X9_camera_lists_partition crowd_world (crowd_camera "C" "Ghost")).
  vm_compute. tauto.
Defined.

Lemma length_filter_cons {A} (P : A -> Prop) `{forall x, Decision (P x)} x l :
  Z.of_nat (length (filter P (x :: l)))
  = (if decide (P x) then 1 else 0) + Z.of_nat (length (filter P l)).
Proof.
  destruct (decide (P x)) as [Hx|Hx].
  - rewrite filter_cons_True by exact Hx. simpl length. lia.
  - rewrite filter_cons_False by exact Hx. lia.
Qed.

Lemma count_engines_spec w cameras :
  forall tally,
    (forall e, known_engine e -> is_Some (tally !! e)) ->
    Forall (fun c => known_engine (stats_engine w c)) cameras ->
    exists tally',
      count_engines w cameras tally = Some tally'
      /\ forall e,
           tally' !! e
           = (fun n => n + Z.of_nat
                            (length (filter (fun c => stats_engine w c = e)
                                       cameras)))
             <$> tally !! e.
Proof.
  induction cameras as [|c cs IH]; intros tally Hk Hc.
  - exists tally. split; [reflexivity|]. intros e. simpl.
    destruct (tally !! e); simpl; [f_equal; lia|reflexivity].
  - apply Forall_cons in Hc. destruct Hc as [Hc Hcs].
    destruct (Hk _ Hc) as [n Hn].
    simpl. unfold count_engine at 1. rewrite Hn. simpl.
    destruct (IH (<[stats_engine w c := n + 1]> tally)) as (t' & E & S).
    { intros e He. destruct (decide (stats_engine w c = e)) as [<-|Hne].
      - rewrite lookup_insert_eq. eauto.
      - rewrite lookup_insert_ne by exact Hne. now apply Hk. }
    { exact Hcs. }
    exists t'. split; [exact E|]. intros e. rewrite S.
    destruct (decide (stats_engine w c = e)) as [<-|Hne].
    + rewrite lookup_insert_eq, Hn. simpl. f_equal.
      rewrite filter_cons_True by reflexivity. simpl length. lia.
    + rewrite lookup_insert_ne by exact Hne.
      now rewrite filter_cons_False by exact Hne.
Qed.

(** X10.  When every camera is counted under one of the three engines the
    add-on offers, the engine tally of the statistics never fails on a
    missing key, has a count for each of the three engines, and each count
    is the number of scene cameras counted under that engine; so the three
    counts add up to the number of cameras. *)
Theorem X10_engine_tally w :
  Forall (fun c => known_engine (stats_engine w c)) (get_all_cameras w) ->
  exists tally,
    stats_render_engines w = Some tally
    /\ (forall e, known_engine e ->
          tally !! e
          = Some (Z.of_nat
                    (length (filter (fun c => stats_engine w c = e)
                               (get_all_cameras w)))))
    /\ exists a b c,
         tally !! "CYCLES" = Some a
         /\ tally !! "BLENDER_EEVEE" = Some b
         /\ tally !! "BLENDER_WORKBENCH" = Some c
         /\ a + b + c = Z.of_nat (length (get_all_cameras w)).
Proof.
  intros H. unfold stats_render_engines.
  destruct (count_engines_spec w (get_all_cameras w) render_engines_init)
    as (tally & E & S).
  { intros e [-> | [-> | ->]]; vm_compute; eauto. }
  { exact H. }
  exists tally. split; [exact E|].
  assert (K : forall e, known_engine e ->
            tally !! e
            = Some (Z.of_nat
                      (length (filter (fun c => stats_engine w c = e)
                                 (get_all_cameras w))))).
  { intros e He. rewrite S.
    assert (I : render_engines_init !! e = Some 0)
      by (destruct He as [-> | [-> | ->]]; reflexivity).
    rewrite I. simpl. f_equal. }
  split; [exact K|].
  do 3 eexists. split; [apply K; left; reflexivity|].
  split; [apply K; right; left; reflexivity|].
  split; [apply K; right; right; reflexivity|].
  clear E S K tally. revert H.
  generalize (get_all_cameras w) as cams. intros cams H.
  induction H as [|c cs Hc _ IH]; [reflexivity|].
  rewrite !length_filter_cons. simpl length.
  destruct (decide (stats_engine w c = "CYCLES")) as [E1|E1];
    destruct (decide (stats_engine w c = "BLENDER_EEVEE")) as [E2|E2];
    destruct (decide (stats_engine w c = "BLENDER_WORKBENCH")) as [E3|E3];
    try congruence; try lia.
  destruct Hc as [?|[?|?]]; contradiction.
Qed.

Lemma X10_witness :
  exists tally,
    stats_render_engines crowd_world = Some tally
    /\ (forall e, known_engine e ->
          tally !! e
          = Some (Z.of_nat
                    (length (filter (fun c => stats_engine crowd_world c = e)
                               (get_all_cameras crowd_world)))))
    /\ exists a b c,
         tally !! "CYCLES" = Some a
         /\ tally !! "BLENDER_EEVEE" = Some b
         /\ tally !! "BLENDER_WORKBENCH" = Some c
         /\ a + b + c = Z.of_nat (length (get_all_cameras crowd_world)).
Proof.
  apply (X10_engine_tally crowd_world).
  vm_compute. repeat constructor.
Defined.

Lemma fold_insert_zero_declared k groups :
  forall m : gmap string Z,
    Exists (fun g => CameraGroup.name g = k) groups ->
    fold_left (fun m g => <[CameraGroup.name g := 0]> m) groups m !! k
    = Some 0.
Proof.
  induction groups as [|g gs IH]; intros m H; [now apply Exists_nil in H|].
  simpl. destruct (decide (Exists (fun g => CameraGroup.name g = k) gs))
    as [Hgs|Hgs]; [now apply IH|].
  apply Exists_cons in H. destruct H as [Hg|Hgs']; [|contradiction].
  clear IH. revert m. induction gs as [|g' gs IH]; intros m; simpl.
  - now rewrite <- Hg, lookup_insert_eq.
  - assert (Hne : CameraGroup.name g' <> k).
    { intros E. apply Hgs. now left. }
    assert (Hgs2 : ~ Exists (fun g => CameraGroup.name g = k) gs).
    { intros E. apply Hgs. now right. }
    rewrite insert_insert_ne by congruence. now apply IH.
Qed.

Lemma fold_insert_zero_undeclared k groups :
  forall m : gmap string Z,
    ~ Exists (fun g => CameraGroup.name g = k) groups ->
    fold_left (fun m g => <[CameraGroup.name g := 0]> m) groups m !! k
    = m !! k.
Proof.
  induction groups as [|g gs IH]; intros m H; [reflexivity|].
  simpl. rewrite IH.
  - apply lookup_insert_ne. intros E. apply H. now left.
  - intros E. apply H. now right.
Qed.

Lemma cameras_by_group_init_declared w k :
  declared_bucket w k -> cameras_by_group_init w !! k = Some 0.
Proof.
  unfold cameras_by_group_init. intros H.
  destruct (decide ("Ungrouped" = k)) as [<-|Hne];
    [apply lookup_insert_eq|].
  rewrite lookup_insert_ne by exact Hne.
  destruct H as [->|H]; [contradiction|].
  now apply fold_insert_zero_declared.
Qed.

Lemma cameras_by_group_init_undeclared w k :
  ~ declared_bucket w k -> cameras_by_group_init w !! k = None.
Proof.
  unfold cameras_by_group_init, declared_bucket. intros H.
  rewrite lookup_insert_ne by (intros <-; apply H; now left).
  rewrite fold_insert_zero_undeclared by (intros E; apply H; now right).
  apply lookup_empty.
Qed.

Lemma bucket_count_cons k c cs :
  bucket_count k (c :: cs)
  = (if decide (bucket_of c = k) then 1 else 0) + bucket_count k cs.
Proof. unfold bucket_count. now rewrite length_filter_cons. Qed.

Lemma bucket_count_nonneg k cs : 0 <= bucket_count k cs.
Proof. unfold bucket_count. lia. Qed.

Lemma count_group_bucket c tally :
  is_Some (tally !! "Ungrouped") ->
  exists n,
    count_group (ShotMasterCamera.group (Object.shotmaster_camera c)) tally
    = Some (<[bucket_of c := n]> tally)
    /\ n = match tally !! bucket_of c with Some m => m + 1 | None => 1 end.
Proof.
  intros [u Hu]. unfold count_group, bucket_of.
  destruct (truthy (ShotMasterCamera.group (Object.shotmaster_camera c))).
  - destruct (tally !! ShotMasterCamera.group (Object.shotmaster_camera c))
      as [m|]; eexists; split; reflexivity.
  - rewrite Hu. simpl. eexists; split; reflexivity.
Qed.

Lemma count_groups_spec cameras :
  forall tally,
    is_Some (tally !! "Ungrouped") ->
    exists tally',
      count_groups cameras tally = Some tally'
      /\ forall k,
           tally' !! k
           = match tally !! k with
             | Some n => Some (n + bucket_count k cameras)
             | None =>
                 if bucket_count k cameras =? 0 then None
                 else Some (bucket_count k cameras)
             end.
Proof.
  induction cameras as [|c cs IH]; intros tally Hu.
  - exists tally. split; [reflexivity|]. intros k.
    change (bucket_count k []) with 0.
    destruct (tally !! k); [f_equal; lia|reflexivity].
  - destruct (count_group_bucket c tally Hu) as (n & E & Hn).
    simpl. rewrite E. simpl.
    destruct (IH (<[bucket_of c := n]> tally)) as (t' & E' & S).
    { destruct (decide (bucket_of c = "Ungrouped")) as [->|Hne].
      - rewrite lookup_insert_eq. eauto.
      - now rewrite lookup_insert_ne by exact Hne. }
    exists t'. split; [exact E'|]. intros k. rewrite S.
    rewrite bucket_count_cons.
    pose proof (bucket_count_nonneg k cs) as Hpos.
    destruct (decide (bucket_of c = k)) as [<-|Hne].
    + rewrite lookup_insert_eq, Hn.
      destruct (tally !! bucket_of c) as [m|].
      * f_equal. lia.
      * destruct (Z.eqb_spec (1 + bucket_count (bucket_of c) cs) 0);
          [lia | try reflexivity; f_equal; lia].
    + rewrite lookup_insert_ne by exact Hne.
      now rewrite Z.add_0_l.
Qed.

(** X11.  The group tally of the statistics never fails on a missing key.
    It has a bucket for "Ungrouped" and for every declared group, holding
    the number of scene cameras counted there (zero when there are none); a
    group name that only cameras refer to gets a bucket of its own.  For a
    declared group with a non-empty name other than "Ungrouped", the count
    is the number of cameras [get_cameras_in_group] returns. *)
Theorem X11_group_tally w :
  exists tally,
    stats_cameras_by_group w = Some tally
    /\ (forall k, declared_bucket w k ->
          tally !! k = Some (bucket_count k (get_all_cameras w)))
    /\ (forall k, ~ declared_bucket w k ->
          tally !! k
          = if bucket_count k (get_all_cameras w) =? 0 then None
            else Some (bucket_count k (get_all_cameras w)))
    /\ (forall g, In g (shotmaster_camera_groups w) ->
          CameraGroup.name g <> "" ->
          CameraGroup.name g <> "Ungrouped" ->
          tally !! CameraGroup.name g
          = Some (Z.of_nat
                    (length (get_cameras_in_group w (CameraGroup.name g))))).
Proof.
  unfold stats_cameras_by_group.
  destruct (count_groups_spec (get_all_cameras w) (cameras_by_group_init w))
    as (tally & E & S).
  { rewrite cameras_by_group_init_declared by (now left). eauto. }
  exists tally. split; [exact E|].
  assert (D : forall k, declared_bucket w k ->
            tally !! k = Some (bucket_count k (get_all_cameras w))).
  { intros k Hk. rewrite S, (cameras_by_group_init_declared w k Hk).
    f_equal. }
  split; [exact D|]. split.
  - intros k Hk. now rewrite S, (cameras_by_group_init_undeclared w k Hk).
  - intros g Hg Hne Hnu. rewrite D.
    2:{ right. apply Exists_exists. exists g. split; [|reflexivity].
        now apply list_elem_of_In. }
    f_equal. unfold bucket_count, get_cameras_in_group.
    apply truthy_true in Hne. rewrite Hne. simpl. do 2 f_equal.
    apply list_filter_iff. intros c. unfold bucket_of.
    destruct (truthy (ShotMasterCamera.group (Object.shotmaster_camera c)))
      eqn:T; [reflexivity|].
    apply truthy_false in T. rewrite T. apply truthy_true in Hne.
    split; congruence.
Qed.

(** The frame range a setup leaves, on a host that accepts the assignments:
    the camera's own with [use_custom_frames], else the master's. *)
Lemma setup_render_settings_frame_range h camera v w :
  accepting h ->
  let cam := Object.shotmaster_camera camera in
  frame_range_of (env (snd (setup_render_settings h camera v w)))
  = (if ShotMasterCamera.use_custom_frames cam
     then (ShotMasterCamera.start_frame cam, ShotMasterCamera.end_frame cam)
     else (ShotMasterSettings.master_start_frame (shotmaster_settings w),
           ShotMasterSettings.master_end_frame (shotmaster_settings w))).
Proof.
  intros Hacc cam. unfold setup_render_settings. rewrite bind_get. cbv zeta.
  fold cam.
  destruct (tracks_apply_master_settings h Hacc (shotmaster_settings w) w)
    as (w1 & E1 & _).
  rewrite (bind_inr _ _ _ _ _ E1).
  destruct (apply_camera_group_summary h Hacc cam w1) as (w2 & E2 & _).
  rewrite (bind_inr _ _ _ _ _ E2).
  destruct (tracks_apply_camera_settings h Hacc cam w2) as (w3 & E3 & _).
  rewrite (bind_inr _ _ _ _ _ E3).
  destruct (tracks_apply_frame_range h Hacc (shotmaster_settings w) cam w3)
    as (w4 & E4 & S4).
  rewrite (bind_inr _ _ _ _ _ E4).
  destruct (tracks_camera_and_format h Hacc camera v w4) as (w5 & E5 & S5).
  rewrite <- bind_assoc, (bind_inr _ _ _ _ _ E5). simpl snd.
  pose proof (f_equal snd S5) as S. rewrite S4 in S.
  destruct (summary w3) as [[e r] f]. exact S.
Qed.

Lemma fold_left_total_frames w cameras total :
  fold_left (fun total camera => total + camera_frames w camera) cameras total
  = total + sum_Z (map (camera_frames w) cameras).
Proof.
  revert total. induction cameras as [|c cs IH]; intros total; simpl.
  - lia.
  - rewrite IH. lia.
Qed.

(** X12.  The frame total of the statistics agrees with the setup.  On a
    host that accepts the assignments, and when the frame range counted for
    every scene camera is one the host stores as assigned
    ([0 <= start <= end <= 1048574]), [stats['total_frames']] is the sum,
    over the scene cameras, of the length of the frame range that
    [setup_render_settings] leaves for that camera, and every camera counts
    for at least one frame.  When no camera uses frames of its own it is the
    number of cameras times the length of the master range. *)
Theorem X12_total_frames_follow_setup h w v :
  accepting h ->
  Forall (fun c => frames_in_range
                     (resolved_frame_range w (Object.shotmaster_camera c)))
    (get_all_cameras w) ->
  stats_total_frames w
  = sum_Z (map (setup_frames h w v) (get_all_cameras w))
  /\ Z.of_nat (length (get_all_cameras w)) <= stats_total_frames w
  /\ (Forall (fun c => ShotMasterCamera.use_custom_frames
                         (Object.shotmaster_camera c) = false)
        (get_all_cameras w) ->
      stats_total_frames w
      = Z.of_nat (length (get_all_cameras w))
        * (ShotMasterSettings.master_end_frame (shotmaster_settings w)
           - ShotMasterSettings.master_start_frame (shotmaster_settings w)
           + 1)).
Proof.
  intros Hacc R. unfold stats_total_frames.
  rewrite fold_left_total_frames, Z.add_0_l. split; [|split].
  - f_equal. apply map_ext. intros c. unfold setup_frames, camera_frames.
    cbv zeta.
    pose proof (setup_render_settings_frame_range h c v w Hacc) as F.
    cbv zeta in F. unfold frame_range_of in F.
    destruct (ShotMasterCamera.use_custom_frames (Object.shotmaster_camera c));
      injection F as -> ->; reflexivity.
  - revert R. generalize (get_all_cameras w) as cams. intros cams R.
    induction R as [|c cs Hc _ IH]; [reflexivity|].
    change (sum_Z (map (camera_frames w) (c :: cs)))
      with (camera_frames w c + sum_Z (map (camera_frames w) cs)).
    change (length (c :: cs)) with (S (length cs)).
    assert (1 <= camera_frames w c); [|lia].
    unfold frames_in_range, resolved_frame_range in Hc.
    unfold camera_frames. cbv zeta.
    destruct (ShotMasterCamera.use_custom_frames (Object.shotmaster_camera c));
      simpl in Hc; lia.
  - clear R. generalize (get_all_cameras w) as cams. intros cams H.
    induction H as [|c cs Hc _ IH]; [reflexivity|].
    change (sum_Z (map (camera_frames w) (c :: cs)))
      with (camera_frames w c + sum_Z (map (camera_frames w) cs)).
    rewrite IH. unfold camera_frames at 1. cbv zeta. rewrite Hc.
    change (length (c :: cs)) with (S (length cs)). lia.
Qed.

Lemma X12_witness :
  stats_total_frames crowd_world
  = sum_Z (map (setup_frames cooperative_host crowd_world false)
             (get_all_cameras crowd_world))
  /\ 4 <= stats_total_frames crowd_world
  /\ stats_total_frames crowd_world = 4 * 250.
Proof.
  destruct (X12_total_frames_follow_setup cooperative_host crowd_world false)
    as (A & B & C).
  - intros x. reflexivity.
  - vm_compute. repeat constructor; discriminate.
  - split; [exact A|]. split; [exact B|]. apply C.
    vm_compute. repeat constructor.
Defined.

(** * The render operators *)

Lemma render_from_camera_store_kept h camera anim v w :
  store_kept w (snd (render_from_camera h camera anim v w)).
Proof.
  destruct camera as [c|]; [|apply store_kept_refl].
  destruct (Object.type c =? "CAMERA")%string eqn:T.
  2:{ rewrite render_from_camera_not_camera by exact T.
      apply store_kept_refl. }
  pose proof (keeps_setup_render_settings h c v w) as Q.
  destruct (setup_render_settings h c v w) as [[e|o] w1] eqn:E; simpl in Q.
  - rewrite (render_from_camera_setup_raises _ _ _ _ _ _ _ T E).
    apply frame_store_kept, quiet_frame, Q.
  - rewrite (render_from_camera_setup_returns _ _ _ _ _ _ _ T E).
    simpl snd.
    eapply store_kept_trans; [apply frame_store_kept, quiet_frame, Q|].
    eapply store_kept_trans; [apply keeps_render_body|].
    apply frame_store_kept, quiet_frame, keeps_restore_render_settings.
Qed.

Lemma master_values_count_render t s :
  master_values (count_render t s) = master_values s.
Proof. now destruct s. Qed.

Lemma render_from_camera_master_values h camera anim v w :
  master_values (shotmaster_settings (snd (render_from_camera h camera anim v w)))
  = master_values (shotmaster_settings w).
Proof.
  rewrite render_from_camera_settings.
  destruct (reaches_statistics h camera anim v w); [|reflexivity].
  apply master_values_count_render.
Qed.

(** A viewport animation: the job returns [False] and the renderer is never
    called. *)
Lemma render_from_camera_viewport_animation h camera w :
  fst (render_from_camera h camera true true w) = false
  /\ calls (snd (render_from_camera h camera true true w)) = calls w.
Proof.
  destruct camera as [c|]; [|now split].
  destruct (Object.type c =? "CAMERA")%string eqn:T.
  2:{ now rewrite render_from_camera_not_camera. }
  pose proof (keeps_setup_render_settings h c true w) as Q.
  destruct (setup_render_settings h c true w) as [[e|o] w1] eqn:E; simpl in Q.
  - rewrite (render_from_camera_setup_raises _ _ _ _ _ _ _ T E). simpl.
    split; [reflexivity|]. now apply quiet_calls.
  - rewrite (render_from_camera_setup_returns _ _ _ _ _ _ _ T E). simpl.
    split; [reflexivity|]. rewrite restore_calls.
    unfold render_body, bind, ret, update_render_statistics. simpl.
    now apply quiet_calls.
Qed.

(** On a host that accepts the assignments, a job on a camera that is not a
    viewport still counts as one render. *)
Lemma render_from_camera_counted h c anim v w :
  accepting h ->
  Object.type c = "CAMERA" ->
  v = false \/ anim = true ->
  ShotMasterSettings.total_renders
    (shotmaster_settings (snd (render_from_camera h (Some c) anim v w)))
  = ShotMasterSettings.total_renders (shotmaster_settings w) + 1.
Proof.
  intros Hacc T M. rewrite render_from_camera_settings.
  unfold reaches_statistics, setup_ok. rewrite T. simpl andb.
  destruct (returns_setup_render_settings h Hacc c v w) as (o & w1 & E).
  rewrite E. simpl.
  assert (B : negb v || anim || render_ok h (length (calls w)) = true).
  { destruct M as [-> | ->]; [reflexivity|]. now destruct v. }
  rewrite B. now destruct (shotmaster_settings w).
Qed.

Lemma get_all_cameras_type w :
  Forall (fun c => Object.type c = "CAMERA") (get_all_cameras w).
Proof.
  apply Forall_forall. intros c H. unfold get_all_cameras in H.
  apply (proj1 (list_elem_of_filter _ _ _)) in H. exact (proj1 H).
Qed.

Lemma get_cameras_in_group_type w group_name :
  Forall (fun c => Object.type c = "CAMERA")
    (get_cameras_in_group w group_name).
Proof.
  unfold get_cameras_in_group.
  destruct (negb (truthy group_name)); [constructor|].
  apply Forall_forall. intros c H.
  apply (proj1 (list_elem_of_filter _ _ _)) in H. destruct H as [_ H].
  pose proof (get_all_cameras_type w) as F.
  rewrite Forall_forall in F. now apply F.
Qed.

Lemma render_each_cons h k c cs anim v success_count w :
  render_each h k (c :: cs) anim v success_count w
  = render_each h (S k) cs anim v
      (if fst (render_from_camera (h k) (Some c) anim v w)
       then success_count + 1 else success_count)
      (snd (render_from_camera (h k) (Some c) anim v w)).
Proof.
  change (render_each h k (c :: cs) anim v success_count w)
    with (let '(ok, w) := render_from_camera (h k) (Some c) anim v w in
          render_each h (S k) cs anim v
            (if ok : bool then success_count + 1 else success_count) w).
  now destruct (render_from_camera (h k) (Some c) anim v w).
Qed.

(** The loop of the batch operators, on hosts that accept the assignments. *)
Lemma render_each_spec h anim v cameras :
  (forall k, accepting (h k)) ->
  Forall (fun c => Object.type c = "CAMERA") cameras ->
  forall k success_count w,
    let r := render_each h k cameras anim v success_count w in
    success_count <= fst r <= success_count + Z.of_nat (length cameras)
    /\ snapshot (env (snd r)) = snapshot (env w)
    /\ store_kept w (snd r)
    /\ master_values (shotmaster_settings (snd r))
       = master_values (shotmaster_settings w)
    /\ (v = false \/ anim = true ->
        ShotMasterSettings.total_renders (shotmaster_settings (snd r))
        = ShotMasterSettings.total_renders (shotmaster_settings w)
          + Z.of_nat (length cameras))
    /\ (v = true -> anim = true ->
        fst r = success_count /\ calls (snd r) = calls w).
Proof.
  intros Hacc F. induction F as [|c cs T _ IH]; intros k success_count w.
  - cbv zeta. simpl. repeat split; try lia; try reflexivity.
  - cbv zeta. rewrite render_each_cons.
    pose proof (render_from_camera_restores_snapshot (h k) (Some c) anim v w
                  (Hacc k)) as J1.
    pose proof (render_from_camera_store_kept (h k) (Some c) anim v w) as J2.
    pose proof (render_from_camera_master_values (h k) (Some c) anim v w)
      as J3.
    pose proof (render_from_camera_counted (h k) c anim v w (Hacc k) T) as J4.
    pose proof (render_from_camera_viewport_animation (h k) (Some c) w) as J5.
    destruct (render_from_camera (h k) (Some c) anim v w) as [ok w1] eqn:E.
    simpl in J1, J2, J3, J4. simpl fst. simpl snd.
    destruct (IH (S k) (if ok then success_count + 1 else success_count) w1)
      as (A1 & A2 & A3 & A4 & A5 & A6).
    change (length (c :: cs)) with (S (length cs)).
    split; [destruct ok; lia|].
    split; [congruence|].
    split; [exact (store_kept_trans _ _ _ J2 A3)|].
    split; [congruence|].
    split.
    + intros M. rewrite (A5 M), (J4 M). lia.
    + intros -> ->. rewrite E in J5. simpl in J5. destruct J5 as [-> J5].
      destruct (A6 eq_refl eq_refl) as [B1 B2]. split; congruence.
Qed.

(** X13.  A viewport animation is never rendered.  Whatever the host and
    the data, the render operator called with [render_animation] and
    [is_viewport] both set ends CANCELLED with the report "Could not render
    from <name>" and without a renderer call, so its report "Successfully
    rendered viewport animation" is never made.  Yet on a host that accepts
    the assignments and for an object that is a camera, the cancelled
    operator has counted one more render. *)
Theorem X13_viewport_animation_not_rendered h camera_name d :
  exists d',
    SHOTMASTER_OT_render_from_camera h camera_name true true d
    = (CANCELLED, (ERROR, "Could not render from " ++ camera_name), d')
    /\ calls (scene d') = calls (scene d)
    /\ unlinked d' = unlinked d
    /\ (accepting h ->
        forall camera,
          data_objects_get d camera_name = Some camera ->
          Object.type camera = "CAMERA" ->
          ShotMasterSettings.total_renders (shotmaster_settings (scene d'))
          = ShotMasterSettings.total_renders (shotmaster_settings (scene d))
            + 1).
Proof.
  unfold SHOTMASTER_OT_render_from_camera.
  destruct (data_objects_get d camera_name) as [c|].
  2:{ exists d. repeat split; try reflexivity. discriminate. }
  destruct (Object.type c =? "CAMERA")%string eqn:T.
  2:{ exists d. repeat split; try reflexivity.
      intros _ camera [= <-] T'. rewrite T' in T. discriminate T. }
  pose proof (render_from_camera_viewport_animation h (Some c) (scene d))
    as [J1 J2].
  pose proof (render_from_camera_counted h c true true (scene d)) as J3.
  destruct (render_from_camera h (Some c) true true (scene d)) as [ok w1].
  simpl in J1, J2, J3. subst ok.
  exists (mkData w1 (unlinked d)). repeat split; try assumption.
  intros Hacc camera [= <-] T'. simpl. apply J3; auto.
Qed.

Lemma X13_witness :
  exists d',
    SHOTMASTER_OT_render_from_camera cooperative_host "Shot A" true true
      (mkData user_world [])
    = (CANCELLED, (ERROR, "Could not render from Shot A"), d')
    /\ ShotMasterSettings.total_renders (shotmaster_settings (scene d')) = 1.
Proof.
  destruct (X13_viewport_animation_not_rendered cooperative_host "Shot A"
              (mkData user_world [])) as (d' & E & _ & _ & C).
  exists d'. split; [exact E|].
  apply (C (fun _ => eq_refl) shot_a); reflexivity.
Defined.

(** X14.  "Render all cameras" on hosts that accept the assignments.  With
    no camera in the scene the operator is CANCELLED with a warning and
    changes nothing.  Otherwise it ends FINISHED whatever the number of
    successful jobs, even zero; that number is between 0 and the number of
    cameras; the nine saved render fields, the view layers, the groups, the
    objects and the master values are as before; unless the batch is of
    viewport stills, the render count has grown by the number of cameras,
    successful or not; and a batch of viewport animations reports 0
    successes and never calls the renderer. *)
Theorem X14_render_all_cameras h anim v w :
  (forall k, accepting (h k)) ->
  let cameras := get_all_cameras w in
  (cameras = [] ->
   SHOTMASTER_OT_render_all_cameras h anim v w
   = (CANCELLED, (WARNING, "No cameras found to render"), w))
  /\ (cameras <> [] ->
      exists n w',
        SHOTMASTER_OT_render_all_cameras h anim v w
        = (FINISHED, (INFO, render_all_message anim v n cameras), w')
        /\ 0 <= n <= Z.of_nat (length cameras)
        /\ snapshot (env w') = snapshot (env w)
        /\ store_kept w w'
        /\ master_values (shotmaster_settings w')
           = master_values (shotmaster_settings w)
        /\ (v = false \/ anim = true ->
            ShotMasterSettings.total_renders (shotmaster_settings w')
            = ShotMasterSettings.total_renders (shotmaster_settings w)
              + Z.of_nat (length cameras))
        /\ (v = true -> anim = true -> n = 0 /\ calls w' = calls w)).
Proof.
  intros Hacc cameras. unfold SHOTMASTER_OT_render_all_cameras.
  fold cameras. split.
  - intros ->. reflexivity.
  - intros Hne.
    pose proof (render_each_spec h anim v cameras Hacc
                  (get_all_cameras_type w) 0%nat 0 w) as R.
    cbv zeta in R.
    destruct (render_each h 0 cameras anim v 0 w) as [n w'] eqn:E.
    simpl in R. exists n, w'.
    split; [|exact R].
    destruct cameras as [|c cs]; [contradiction|reflexivity].
Qed.

Lemma X14_witness :
  exists n w',
    SHOTMASTER_OT_render_all_cameras (fun _ => broken_renderer_host) false
      false crowd_world
    = (FINISHED,
       (INFO, render_all_message false false n (get_all_cameras crowd_world)),
       w')
    /\ 0 <= n <= 4
    /\ ShotMasterSettings.total_renders (shotmaster_settings w') = 4.
Proof.
  destruct (X14_render_all_cameras (fun _ => broken_renderer_host) false false
              crowd_world (fun _ _ => eq_refl)) as [_ R].
  destruct R as (n & w' & E & B & _ & _ & _ & C & _); [discriminate|].
  exists n, w'. split; [exact E|]. split; [exact B|].
  rewrite C by (left; reflexivity). reflexivity.
Defined.

(** X15.  "Render group" takes its cameras from [get_cameras_in_group] and
    never looks at the declared groups.  With an empty group name, or a name
    that no scene camera carries, it is CANCELLED with a warning and changes
    nothing.  As soon as one scene camera carries the non-empty name, declared
    or not, it ends FINISHED; on hosts that accept the assignments the number
    of successes is between 0 and the number of cameras of the group, the
    saved render fields and the configuration are as before, and unless the
    batch is of viewport stills the render count has grown by the number of
    cameras of the group. *)
Theorem X15_render_group_cameras h group_name anim v w :
  (forall k, accepting (h k)) ->
  let cameras := get_cameras_in_group w group_name in
  let carried :=
    Exists (fun c => ShotMasterCamera.group (Object.shotmaster_camera c)
                     = group_name) (get_all_cameras w) in
  (group_name = "" \/ ~ carried ->
   SHOTMASTER_OT_render_group_cameras h group_name anim v w
   = (CANCELLED, (WARNING, "No cameras found in group " ++ group_name), w))
  /\ (group_name <> "" -> carried ->
      exists n w',
        SHOTMASTER_OT_render_group_cameras h group_name anim v w
        = (FINISHED,
           (INFO, render_group_message anim v n cameras group_name), w')
        /\ 0 <= n <= Z.of_nat (length cameras)
        /\ snapshot (env w') = snapshot (env w)
        /\ store_kept w w'
        /\ master_values (shotmaster_settings w')
           = master_values (shotmaster_settings w)
        /\ (v = false \/ anim = true ->
            ShotMasterSettings.total_renders (shotmaster_settings w')
            = ShotMasterSettings.total_renders (shotmaster_settings w)
              + Z.of_nat (length cameras))
        /\ (v = true -> anim = true -> n = 0 /\ calls w' = calls w)).
Proof.
  intros Hacc cameras carried.
  assert (N : cameras = [] <-> group_name = "" \/ ~ carried).
  { unfold cameras, carried, get_cameras_in_group.
    destruct (truthy group_name) eqn:Tr; simpl negb; cbv iota.
    - apply truthy_true in Tr. split.
      + intros E. right. intros X. apply Exists_exists in X.
        destruct X as (c & Hc & G).
        assert (I : c ∈ filter
                  (fun cam => ShotMasterCamera.group
                                (Object.shotmaster_camera cam) = group_name)
                  (get_all_cameras w)).
        { apply list_elem_of_filter. split; [exact G|exact Hc]. }
        rewrite E in I. now apply not_elem_of_nil in I.
      + intros [E|X]; [contradiction|].
        destruct (filter _ _) as [|c cs] eqn:Fl; [reflexivity|].
        exfalso. apply X. apply Exists_exists. exists c.
        assert (I : c ∈ filter
                  (fun cam => ShotMasterCamera.group
                                (Object.shotmaster_camera cam) = group_name)
                  (get_all_cameras w)) by (rewrite Fl; left).
        apply (proj1 (list_elem_of_filter _ _ _)) in I.
        destruct I as [G I]. split; [exact I|exact G].
    - apply truthy_false in Tr. split; [now left|reflexivity]. }
  unfold SHOTMASTER_OT_render_group_cameras. fold cameras. split.
  - intros H. apply N in H. now rewrite H.
  - intros Hne Hc.
    assert (Hcs : cameras <> []) by (rewrite N; intros [?|?]; contradiction).
    pose proof (render_each_spec h anim v cameras Hacc
                  (get_cameras_in_group_type w group_name) 0%nat 0 w) as R.
    cbv zeta in R.
    destruct (render_each h 0 cameras anim v 0 w) as [n w'] eqn:E.
    simpl in R. exists n, w'.
    split; [|exact R].
    destruct cameras as [|c cs]; [contradiction|reflexivity].
Qed.

Lemma X15_witness :
  SHOTMASTER_OT_render_group_cameras (fun _ => cooperative_host) "Int" false
    false crowd_world
  = (CANCELLED, (WARNING, "No cameras found in group Int"), crowd_world)
  /\ exists n w',
       SHOTMASTER_OT_render_group_cameras (fun _ => cooperative_host) "Ghost"
         false false crowd_world
       = (FINISHED,
          (INFO, render_group_message false false n
                   (get_cameras_in_group crowd_world "Ghost") "Ghost"), w')
       /\ 0 <= n <= 1
       /\ ShotMasterSettings.total_renders (shotmaster_settings w') = 1.
Proof.
  split.
  - apply (X15_render_group_cameras (fun _ => cooperative_host) "Int" false
             false crowd_world (fun _ _ => eq_refl)).
    right. vm_compute. intros X.
    repeat (apply Exists_cons in X; destruct X as [X|X];
            [discriminate X|]).
    now apply Exists_nil in X.
  - destruct (X15_render_group_cameras (fun _ => cooperative_host) "Ghost"
                false false crowd_world (fun _ _ => eq_refl)) as [_ R].
    destruct R as (n & w' & E & B & _ & _ & _ & C & _).
    + discriminate.
    + vm_compute. right. right. left. reflexivity.
    + exists n, w'. split; [exact E|]. split; [exact B|].
      rewrite C by (left; reflexivity). reflexivity.
Defined.

(** * The camera group operators *)

Lemma find_group_index_spec group_name groups :
  forall i, 0 <= i ->
    (find_group_index group_name i groups = -1
     /\ Forall (fun g => CameraGroup.name g <> group_name) groups)
    \/ exists l1 g l2,
         groups = (l1 ++ g :: l2)%list
         /\ CameraGroup.name g = group_name
         /\ Forall (fun g => CameraGroup.name g <> group_name) l1
         /\ find_group_index group_name i groups = i + Z.of_nat (length l1).
Proof.
  induction groups as [|g gs IH]; intros i Hi; simpl.
  - left. split; [reflexivity|constructor].
  - destruct (CameraGroup.name g =? group_name)%string eqn:E.
    + right. exists [], g, gs. apply String.eqb_eq in E.
      repeat split; [exact E|constructor|simpl; lia].
    + apply String.eqb_neq in E.
      destruct (IH (i + 1)) as [[F N]|(l1 & g' & l2 & -> & G & N & F)];
        [lia| |].
      * left. split; [exact F|now constructor].
      * right. exists (g :: l1), g', l2.
        repeat split; [exact G|now constructor|].
        rewrite F. simpl length. lia.
Qed.

Lemma delete_length_app {A} (l1 : list A) x l2 :
  delete (length l1) (l1 ++ x :: l2)%list = (l1 ++ l2)%list.
Proof. induction l1 as [|y l1 IH]; simpl; [reflexivity|now rewrite IH]. Qed.

Lemma group_exists_spec group_name w :
  group_exists group_name w = true
  <-> Exists (fun g => CameraGroup.name g = group_name)
        (shotmaster_camera_groups w).
Proof.
  unfold group_exists.
  induction (shotmaster_camera_groups w) as [|g gs IH]; simpl.
  - split; [discriminate|]. intros H. now apply Exists_nil in H.
  - rewrite Exists_cons, orb_true_iff, IH, String.eqb_eq. reflexivity.
Qed.

Lemma set_group_type group obj :
  Object.type (set_group group obj) = Object.type obj.
Proof. reflexivity. Qed.

Lemma set_group_group group obj :
  ShotMasterCamera.group (Object.shotmaster_camera (set_group group obj))
  = group.
Proof. reflexivity. Qed.

Lemma unassigned_type group_name obj :
  Object.type (unassigned group_name obj) = Object.type obj.
Proof. unfold unassigned. now destruct (decide _). Qed.

Lemma in_get_all_cameras w obj :
  obj ∈ get_all_cameras w <-> Object.type obj = "CAMERA" /\ obj ∈ objects w.
Proof.
  unfold get_all_cameras.
  exact (list_elem_of_filter (fun obj => Object.type obj = "CAMERA") _ _).
Qed.

Lemma in_get_cameras_in_group w group_name obj :
  obj ∈ get_cameras_in_group w group_name
  <-> group_name <> ""
      /\ ShotMasterCamera.group (Object.shotmaster_camera obj) = group_name
      /\ obj ∈ get_all_cameras w.
Proof.
  unfold get_cameras_in_group. destruct (truthy group_name) eqn:T; simpl negb.
  - apply truthy_true in T. rewrite list_elem_of_filter. tauto.
  - apply truthy_false in T. split.
    + intros H. now apply not_elem_of_nil in H.
    + intros [H _]. contradiction.
Qed.

(** The scene objects after "unassign all cameras from this group". *)
Lemma unassign_cameras_objects group_name w :
  objects (unassign_cameras group_name w)
  = map (unassigned group_name) (objects w).
Proof.
  unfold unassign_cameras. simpl. apply map_ext_in. intros obj H.
  apply (proj2 (list_elem_of_In _ _)) in H. unfold unassigned.
  destruct (decide (obj ∈ get_cameras_in_group w group_name)) as [I|I];
    destruct (decide _) as [C|C]; try reflexivity.
  - exfalso. apply C. apply in_get_cameras_in_group in I.
    destruct I as (N & G & I). apply in_get_all_cameras in I. tauto.
  - exfalso. apply I. apply in_get_cameras_in_group.
    destruct C as (T & N & G). repeat split; try assumption.
    apply in_get_all_cameras. now split.
Qed.

Lemma filter_camera_map (f : Object.t -> Object.t) objs :
  (forall obj, Object.type (f obj) = Object.type obj) ->
  filter (fun obj => Object.type obj = "CAMERA") (map f objs)
  = map f (filter (fun obj => Object.type obj = "CAMERA") objs).
Proof.
  intros T. induction objs as [|obj objs IH]; [reflexivity|].
  simpl map. rewrite !filter_cons, T, IH.
  now destruct (decide (Object.type obj = "CAMERA")).
Qed.

Lemma get_all_cameras_unassign group_name w :
  get_all_cameras (unassign_cameras group_name w)
  = map (unassigned group_name) (get_all_cameras w).
Proof.
  unfold get_all_cameras. rewrite unassign_cameras_objects.
  apply filter_camera_map, unassigned_type.
Qed.

Lemma declared_in_names w c :
  group_declared w c
  <-> In (ShotMasterCamera.group (Object.shotmaster_camera c))
         (map CameraGroup.name (shotmaster_camera_groups w)).
Proof.
  unfold group_declared. rewrite Exists_exists, in_map_iff.
  split; intros (g & A & B); exists g.
  - split; [exact B|]. now apply list_elem_of_In.
  - split; [now apply list_elem_of_In|exact A].
Qed.

Lemma add_camera_group_consistent group_name w :
  groups_consistent w ->
  groups_consistent (snd (SHOTMASTER_OT_add_camera_group group_name w)).
Proof.
  intros (ND & NE & WG). unfold SHOTMASTER_OT_add_camera_group.
  destruct (truthy group_name) eqn:T; simpl negb; cbv iota;
    [|now repeat split].
  destruct (group_exists group_name w) eqn:X; [now repeat split|].
  apply truthy_true in T.
  assert (X' : ~ In group_name
                    (map CameraGroup.name (shotmaster_camera_groups w))).
  { intros I. apply in_map_iff in I. destruct I as (g & G & I).
    assert (E : group_exists group_name w = true).
    { apply group_exists_spec, Exists_exists. exists g.
      split; [now apply list_elem_of_In|exact G]. }
    rewrite E in X. discriminate X. }
  simpl snd. unfold groups_consistent.
  change (shotmaster_camera_groups (with_groups ?g w)) with g.
  change (get_all_cameras (with_groups ?g w)) with (get_all_cameras w).
  split; [|split].
  - rewrite map_app. simpl map. apply NoDup_app. split; [exact ND|].
    split; [|apply NoDup_singleton].
    intros x Hx Hx'. apply list_elem_of_singleton in Hx'. subst x.
    apply X'. now apply list_elem_of_In.
  - apply Forall_app. split; [exact NE|]. constructor; [exact T|constructor].
  - eapply Forall_impl; [exact WG|]. intros c [G|G]; [now left|right].
    apply declared_in_names. apply declared_in_names in G.
    change (shotmaster_camera_groups (with_groups ?g w)) with g.
    rewrite map_app. apply in_or_app. now left.
Qed.

Lemma unassigned_group group_name c :
  Object.type c = "CAMERA" ->
  let g := ShotMasterCamera.group (Object.shotmaster_camera c) in
  let g' := ShotMasterCamera.group
              (Object.shotmaster_camera (unassigned group_name c)) in
  (g' = "" /\ (g = "" \/ g = group_name))
  \/ (g' = g /\ g <> group_name /\ unassigned group_name c = c).
Proof.
  intros T. cbv zeta. unfold unassigned.
  destruct (decide _) as [(_ & N & G)|C].
  - left. split; [reflexivity|now right].
  - destruct (decide (ShotMasterCamera.group (Object.shotmaster_camera c)
                      = group_name)) as [E|E].
    + left. assert (N : group_name = "").
      { destruct (decide (group_name = "")) as [N|N]; [exact N|].
        exfalso. apply C. now repeat split. }
      split; [congruence|left; congruence].
    + right. now repeat split.
Qed.

Lemma remove_camera_group_world group_name w :
  (Forall (fun g => CameraGroup.name g <> group_name)
     (shotmaster_camera_groups w)
   /\ SHOTMASTER_OT_remove_camera_group group_name w
      = (CANCELLED,
         (ERROR, "Could not find group '" ++ group_name ++ "'"), w))
  \/ exists l1 g l2,
       shotmaster_camera_groups w = (l1 ++ g :: l2)%list
       /\ CameraGroup.name g = group_name
       /\ Forall (fun g => CameraGroup.name g <> group_name) l1
       /\ SHOTMASTER_OT_remove_camera_group group_name w
          = (FINISHED,
             (INFO, "Removed camera group '" ++ group_name ++ "'"),
             with_groups (l1 ++ l2)%list (unassign_cameras group_name w)).
Proof.
  unfold SHOTMASTER_OT_remove_camera_group. cbv zeta.
  destruct (find_group_index_spec group_name (shotmaster_camera_groups w) 0)
    as [[F N]|(l1 & g & l2 & E & G & N & F)]; [lia| |].
  - left. split; [exact N|]. now rewrite F.
  - right. exists l1, g, l2. repeat split; try assumption.
    rewrite F.
    destruct (Z.eqb_spec (0 + Z.of_nat (length l1)) (-1)) as [A|_]; [lia|].
    do 2 f_equal.
    change (shotmaster_camera_groups (unassign_cameras group_name w))
      with (shotmaster_camera_groups w).
    rewrite E, Z.add_0_l, Nat2Z.id. now rewrite delete_length_app.
Qed.

Lemma remove_camera_group_consistent group_name w :
  groups_consistent w ->
  groups_consistent (snd (SHOTMASTER_OT_remove_camera_group group_name w)).
Proof.
  intros (ND & NE & WG).
  destruct (remove_camera_group_world group_name w)
    as [[_ ->]|(l1 & g & l2 & E & G & N & ->)]; [now repeat split|].
  simpl snd. unfold groups_consistent.
  change (shotmaster_camera_groups (with_groups ?g ?w)) with g.
  change (get_all_cameras (with_groups ?g ?w)) with (get_all_cameras w).
  rewrite E in ND, NE. rewrite map_app in ND. simpl map in ND.
  apply NoDup_app in ND. destruct ND as (ND1 & ND2 & ND3).
  apply NoDup_cons in ND3. destruct ND3 as [ND3 ND4].
  apply Forall_app in NE. destruct NE as [NE1 NE2].
  apply Forall_cons in NE2. destruct NE2 as [_ NE2].
  split; [|split].
  - rewrite map_app. apply NoDup_app. split; [exact ND1|].
    split; [|exact ND4]. intros x H1 H2. apply (ND2 x H1). now right.
  - apply Forall_app. now split.
  - rewrite get_all_cameras_unassign. apply Forall_forall. intros c' Hc'.
    apply (proj1 (list_elem_of_In _ _)) in Hc'.
    apply in_map_iff in Hc'. destruct Hc' as (c & <- & Hc).
    apply (proj2 (list_elem_of_In _ _)) in Hc.
    rewrite Forall_forall in WG. pose proof (WG c Hc) as W.
    assert (T : Object.type c = "CAMERA").
    { apply in_get_all_cameras in Hc. tauto. }
    destruct (unassigned_group group_name c T) as [[A _]|(A & B & C)];
      [now left|].
    rewrite C. destruct W as [W|W]; [now left|right].
    apply declared_in_names. apply declared_in_names in W.
    change (shotmaster_camera_groups (with_groups ?g ?w)) with g.
    rewrite E, map_app in W. simpl map in W. rewrite map_app.
    apply in_app_or in W. apply in_or_app.
    destruct W as [W|[W|W]]; [now left| |now right].
    exfalso. apply B. congruence.
Qed.

Lemma update_first_spec name f objs :
  forall objs',
    update_first name f objs = Some objs' ->
    exists l1 o l2,
      objs = (l1 ++ o :: l2)%list
      /\ objs' = (l1 ++ f o :: l2)%list
      /\ Object.name o = name
      /\ Forall (fun o' => Object.name o' <> name) l1.
Proof.
  induction objs as [|obj objs IH]; intros objs' H; simpl in H;
    [discriminate H|].
  destruct (Object.name obj =? name)%string eqn:E.
  - injection H as <-. apply String.eqb_eq in E.
    exists [], obj, objs. repeat split; [exact E|constructor].
  - apply String.eqb_neq in E.
    destruct (update_first name f objs) as [objs1|]; [|discriminate H].
    injection H as <-.
    destruct (IH objs1 eq_refl) as (l1 & o & l2 & -> & -> & N & F).
    exists (obj :: l1), o, l2. repeat split; [exact N|now constructor].
Qed.

Lemma assign_camera_to_group_consistent camera_name group_name d :
  groups_consistent (scene d) ->
  groups_consistent
    (scene (snd (SHOTMASTER_OT_assign_camera_to_group camera_name group_name
                   d))).
Proof.
  intros H. unfold SHOTMASTER_OT_assign_camera_to_group.
  destruct (data_objects_get d camera_name) as [camera|]; [|exact H].
  destruct (negb (Object.type camera =? "CAMERA")%string); [exact H|].
  destruct (truthy group_name && negb (group_exists group_name (scene d)))
    eqn:V; [exact H|].
  simpl snd. unfold data_objects_update.
  destruct (update_first camera_name (set_group group_name)
              (objects (scene d))) as [objs|] eqn:U.
  2:{ now destruct (update_first _ _ (unlinked d)). }
  simpl scene. destruct H as (ND & NE & WG).
  split; [exact ND|]. split; [exact NE|].
  change (shotmaster_camera_groups (with_objects objs (scene d)))
    with (shotmaster_camera_groups (scene d)).
  destruct (update_first_spec _ _ _ _ U) as (l1 & o & l2 & E & -> & _ & _).
  apply Forall_forall. intros c Hc. apply in_get_all_cameras in Hc.
  destruct Hc as [T Hc]. simpl in Hc.
  rewrite Forall_forall in WG.
  assert (Old : forall c, Object.type c = "CAMERA" ->
                  c ∈ (l1 ++ o :: l2)%list ->
                  ShotMasterCamera.group (Object.shotmaster_camera c) = ""
                  \/ group_declared (scene d) c).
  { intros c0 T0 I0. apply WG, in_get_all_cameras. split; [exact T0|].
    now rewrite E. }
  assert (D : forall c, group_declared (with_objects (l1 ++ set_group group_name o :: l2)%list (scene d)) c
                        <-> group_declared (scene d) c) by reflexivity.
  rewrite D.
  apply elem_of_app in Hc. destruct Hc as [Hc|Hc].
  - apply Old; [exact T|]. apply elem_of_app. now left.
  - apply elem_of_cons in Hc. destruct Hc as [->|Hc].
    + apply andb_false_iff in V. destruct V as [V|V].
      * left. now apply truthy_false in V.
      * right. apply negb_false_iff, group_exists_spec in V. exact V.
    + apply Old; [exact T|]. apply elem_of_app. right. now right.
Qed.

(** X16.  The camera group operators keep the groups consistent.  In a
    scene where the group names are distinct and not empty and where every
    camera is ungrouped or in a declared group, this is still so after any
    session of "add group", "remove group" and "assign to group", whatever
    their arguments and whether they finish or are cancelled. *)
Theorem X16_group_operators_keep_consistency ops :
  forall d,
    groups_consistent (scene d) ->
    groups_consistent (scene (run_group_ops ops d)).
Proof.
  unfold run_group_ops.
  induction ops as [|op ops IH]; intros d H; [exact H|].
  simpl. apply IH. destruct op as [g|g|c g]; simpl.
  - now apply add_camera_group_consistent.
  - now apply remove_camera_group_consistent.
  - now apply assign_camera_to_group_consistent.
Qed.

Lemma X16_witness :
  groups_consistent
    (scene (run_group_ops
              [AddGroup "Night"; AssignCamera "D" "Night"; AddGroup "Night";
               AssignCamera "A" "Dawn"; RemoveGroup "Ext"; AddGroup ""]
              (mkData (with_objects
                         [crowd_camera "A" "Ext"; crowd_camera "B" "Ext";
                          crowd_camera "D" ""] crowd_world)
                      []))).
Proof.
  apply X16_group_operators_keep_consistency.
  split; [|split]; vm_compute.
  - repeat constructor; intros H; inversion H; subst;
      try discriminate;
      repeat match goal with
             | X : _ ∈ _ |- _ => inversion X; subst; clear X
             end.
  - repeat constructor; discriminate.
  - constructor; [right; left; reflexivity|].
    constructor; [right; left; reflexivity|].
    constructor; [left; reflexivity|constructor].
Defined.

Lemma unassigned_empty obj : unassigned "" obj = obj.
Proof.
  unfold unassigned. destruct (decide _) as [(_ & N & _)|_];
    [contradiction|reflexivity].
Qed.

Lemma filter_group_unassigned_same group_name cams :
  group_name <> "" ->
  Forall (fun c => Object.type c = "CAMERA") cams ->
  filter (fun cam => ShotMasterCamera.group (Object.shotmaster_camera cam)
                     = group_name)
         (map (unassigned group_name) cams) = [].
Proof.
  intros N F. induction F as [|c cs T _ IH]; [reflexivity|].
  simpl map. rewrite filter_cons, IH.
  destruct (unassigned_group group_name c T) as [[A _]|(A & B & _)];
    destruct (decide _) as [E|_]; try reflexivity; exfalso; congruence.
Qed.

Lemma filter_group_unassigned_other group_name other cams :
  other <> group_name -> other <> "" ->
  Forall (fun c => Object.type c = "CAMERA") cams ->
  filter (fun cam => ShotMasterCamera.group (Object.shotmaster_camera cam)
                     = other)
         (map (unassigned group_name) cams)
  = filter (fun cam => ShotMasterCamera.group (Object.shotmaster_camera cam)
                       = other) cams.
Proof.
  intros N1 N2 F. induction F as [|c cs T _ IH]; [reflexivity|].
  simpl map. rewrite !filter_cons, IH.
  destruct (unassigned_group group_name c T) as [[A B]|(A & B & C)].
  - destruct (decide _) as [E|_]; [exfalso; congruence|].
    destruct (decide _) as [E|_]; [|reflexivity].
    exfalso. destruct B; congruence.
  - now rewrite C.
Qed.

Lemma length_ungrouped_unassigned group_name cams :
  group_name <> "" ->
  Forall (fun c => Object.type c = "CAMERA") cams ->
  length (filter (fun cam => truthy (ShotMasterCamera.group
                                       (Object.shotmaster_camera cam))
                             = false)
            (map (unassigned group_name) cams))
  = (length (filter (fun cam => truthy (ShotMasterCamera.group
                                          (Object.shotmaster_camera cam))
                                = false) cams)
     + length (filter (fun cam => ShotMasterCamera.group
                                    (Object.shotmaster_camera cam)
                                  = group_name) cams))%nat.
Proof.
  intros N F. induction F as [|c cs T _ IH]; [reflexivity|].
  simpl map. rewrite !filter_cons.
  destruct (unassigned_group group_name c T) as [[A B]|(A & B & C)].
  - destruct (decide (truthy _ = false)) as [_|E].
    2:{ exfalso. apply E. now apply truthy_false. }
    simpl length. rewrite IH. destruct B as [B|B].
    + destruct (decide (truthy _ = false)) as [_|E].
      2:{ exfalso. apply E. now apply truthy_false. }
      destruct (decide _) as [E|_]; [exfalso; congruence|].
      simpl length. lia.
    + destruct (decide (truthy _ = false)) as [E|_].
      { exfalso. apply truthy_false in E. congruence. }
      destruct (decide _) as [_|E]; [|contradiction].
      simpl length. lia.
  - rewrite C. destruct (decide (truthy _ = false)) as [E|E];
      destruct (decide _) as [E'|_]; try contradiction;
      simpl length; rewrite IH; lia.
Qed.

(** X17.  "Remove group" fails only for a name that no group bears.
    Otherwise it removes the first group of that name and no other, and
    changes the scene objects in one way only: a camera that was in the
    group (the name not being empty) has its group reference cleared and
    every other property as before; every other object is as before, in the
    same order.  The render environment, the view layers, the master
    settings and the renderer trace are untouched.  So no camera is lost, no
    scene camera is left in the removed group, the cameras that were in it
    are ungrouped afterwards, and the camera list of every other group is
    as before. *)
Theorem X17_removed_group_cameras_ungrouped group_name w :
  let bears g := CameraGroup.name g = group_name in
  (~ Exists bears (shotmaster_camera_groups w) ->
   SHOTMASTER_OT_remove_camera_group group_name w
   = (CANCELLED, (ERROR, "Could not find group '" ++ group_name ++ "'"), w))
  /\ (Exists bears (shotmaster_camera_groups w) ->
      exists l1 g l2 w',
        shotmaster_camera_groups w = (l1 ++ g :: l2)%list
        /\ bears g
        /\ Forall (fun g' => ~ bears g') l1
        /\ SHOTMASTER_OT_remove_camera_group group_name w
           = (FINISHED,
              (INFO, "Removed camera group '" ++ group_name ++ "'"), w')
        /\ shotmaster_camera_groups w' = (l1 ++ l2)%list
        /\ objects w' = map (unassigned group_name) (objects w)
        /\ get_all_cameras w'
           = map (unassigned group_name) (get_all_cameras w)
        /\ env w' = env w
        /\ view_layers w' = view_layers w
        /\ shotmaster_settings w' = shotmaster_settings w
        /\ calls w' = calls w
        /\ get_cameras_in_group w' group_name = []
        /\ length (get_ungrouped_cameras w')
           = (length (get_ungrouped_cameras w)
              + length (get_cameras_in_group w group_name))%nat
        /\ forall other,
             other <> group_name ->
             get_cameras_in_group w' other = get_cameras_in_group w other).
Proof.
  cbv zeta.
  destruct (remove_camera_group_world group_name w)
    as [[F E]|(l1 & g & l2 & E & G & N & R)].
  - split; [intros _; exact E|]. intros X. exfalso.
    apply Exists_exists in X. destruct X as (g & I & B).
    rewrite Forall_forall in F. now apply (F g I).
  - split.
    { intros X. exfalso. apply X. rewrite E. apply Exists_app. right.
      now left. }
    intros _. exists l1, g, l2. eexists.
    split; [exact E|]. split; [exact G|]. split; [exact N|].
    split; [exact R|]. split; [reflexivity|].
    split; [apply unassign_cameras_objects|].
    pose proof (get_all_cameras_type w) as T.
    assert (C : get_all_cameras
                  (with_groups (l1 ++ l2)%list
                     (unassign_cameras group_name w))
                = map (unassigned group_name) (get_all_cameras w))
      by apply get_all_cameras_unassign.
    split; [exact C|]. do 4 (split; [reflexivity|]).
    unfold get_cameras_in_group, get_ungrouped_cameras. rewrite C.
    destruct (truthy group_name) eqn:Tr; simpl negb; cbv iota.
    + apply truthy_true in Tr.
      split; [now apply filter_group_unassigned_same|].
      split; [now apply length_ungrouped_unassigned|].
      intros other Ho. destruct (truthy other) eqn:To; [|reflexivity].
      apply truthy_true in To. simpl negb. cbv iota.
      now apply filter_group_unassigned_other.
    + apply truthy_false in Tr. rewrite Tr.
      assert (Id : map (unassigned "") (get_all_cameras w)
                   = get_all_cameras w).
      { rewrite <- (map_id (get_all_cameras w)) at 2.
        apply map_ext. intros c. apply unassigned_empty. }
      rewrite Id. repeat split; try reflexivity. simpl length. lia.
Qed.

Lemma X17_witness :
  exists w',
    SHOTMASTER_OT_remove_camera_group "Ext" crowd_world
    = (FINISHED, (INFO, "Removed camera group 'Ext'"), w')
    /\ map CameraGroup.name (shotmaster_camera_groups w') = ["Int"]
    /\ objects w'
       = [crowd_camera "A" ""; crowd_camera "B" ""; crowd_camera "C" "Ghost";
          crowd_camera "D" ""; Object.mk "Lamp" "LIGHT" default_camera]
    /\ get_cameras_in_group w' "Ext" = []
    /\ length (get_ungrouped_cameras w') = 3%nat.
Proof.
  destruct (X17_removed_group_cameras_ungrouped "Ext" crowd_world) as [_ R].
  destruct R as (l1 & g & l2 & w' & _ & _ & _ & E & _ & _ & _ & _ & _ & _
                 & _ & _ & _ & _).
  - left. reflexivity.
  - exists w'. split; [exact E|].
    assert (W : w' = snd (SHOTMASTER_OT_remove_camera_group "Ext" crowd_world))
      by now rewrite E.
    rewrite W. vm_compute. repeat split.
Defined.

(** * The render pass operators *)

Lemma length_collection_remove {A} (index : Z) (l : list A) :
  Z.of_nat (length (collection_remove index l))
  = if (0 <=? index) && (index <? Z.of_nat (length l))
    then Z.of_nat (length l) - 1 else Z.of_nat (length l).
Proof.
  unfold collection_remove.
  destruct ((0 <=? index) && (index <? Z.of_nat (length l))) eqn:R;
    [|reflexivity].
  apply andb_true_iff in R. destruct R as [R1 R2].
  apply Z.leb_le in R1. apply Z.ltb_lt in R2.
  rewrite length_delete; [lia|]. apply lookup_lt_is_Some. lia.
Qed.

Lemma collection_move_Permutation {A} (key pos : Z) (l : list A) :
  collection_move key pos l ≡ₚ l.
Proof.
  unfold collection_move. cbv zeta.
  destruct (_ && _); [|reflexivity].
  destruct (l !! Z.to_nat key) as [x|] eqn:L; [|reflexivity].
  rewrite <- Permutation_middle, take_drop.
  symmetry. now apply delete_Permutation.
Qed.

Lemma length_collection_move {A} (key pos : Z) (l : list A) :
  length (collection_move key pos l) = length l.
Proof. apply Permutation_length, collection_move_Permutation. Qed.

Lemma swap_up_nat {A} (l1 : list A) a b l2 :
  let l := (l1 ++ a :: b :: l2)%list in
  l !! S (length l1) = Some b
  /\ (take (length l1) (delete (S (length l1)) l)
      ++ b :: drop (length l1) (delete (S (length l1)) l))%list
     = (l1 ++ b :: a :: l2)%list.
Proof.
  cbv zeta. induction l1 as [|x l1 [IH1 IH2]]; [now split|].
  split; [exact IH1|]. simpl. now rewrite IH2.
Qed.

Lemma swap_down_nat {A} (l1 : list A) a b l2 :
  let l := (l1 ++ a :: b :: l2)%list in
  l !! length l1 = Some a
  /\ (take (S (length l1)) (delete (length l1) l)
      ++ a :: drop (S (length l1)) (delete (length l1) l))%list
     = (l1 ++ b :: a :: l2)%list.
Proof.
  cbv zeta. induction l1 as [|x l1 [IH1 IH2]]; [now split|].
  split; [exact IH1|]. simpl. simpl in IH2. now rewrite IH2.
Qed.

(** Moving an item to the place before it, or after it, swaps the two. *)
Lemma collection_move_up {A} (l1 : list A) a b l2 :
  collection_move (Z.of_nat (length l1) + 1) (Z.of_nat (length l1))
    (l1 ++ a :: b :: l2)%list
  = (l1 ++ b :: a :: l2)%list.
Proof.
  unfold collection_move. cbv zeta.
  rewrite length_app. simpl length.
  replace (Z.to_nat (Z.of_nat (length l1) + 1)) with (S (length l1)) by lia.
  rewrite Nat2Z.id.
  destruct (swap_up_nat l1 a b l2) as [L E]. rewrite L, E.
  destruct (_ && _) eqn:C; [reflexivity|].
  exfalso. revert C.
  repeat rewrite andb_false_iff.
  rewrite !Z.leb_gt, !Z.ltb_ge, negb_false_iff, Z.eqb_eq. lia.
Qed.

Lemma collection_move_down {A} (l1 : list A) a b l2 :
  collection_move (Z.of_nat (length l1)) (Z.of_nat (length l1) + 1)
    (l1 ++ a :: b :: l2)%list
  = (l1 ++ b :: a :: l2)%list.
Proof.
  unfold collection_move. cbv zeta.
  rewrite length_app. simpl length.
  replace (Z.to_nat (Z.of_nat (length l1) + 1)) with (S (length l1)) by lia.
  rewrite Nat2Z.id.
  destruct (swap_down_nat l1 a b l2) as [L E]. rewrite L, E.
  destruct (_ && _) eqn:C; [reflexivity|].
  exfalso. revert C.
  repeat rewrite andb_false_iff.
  rewrite !Z.leb_gt, !Z.ltb_ge, negb_false_iff, Z.eqb_eq. lia.
Qed.

Lemma split_at_pair {A} (n : nat) :
  forall l : list A,
    (S n < length l)%nat ->
    exists l1 a b l2, l = (l1 ++ a :: b :: l2)%list /\ length l1 = n.
Proof.
  induction n as [|n IH]; intros l H.
  - destruct l as [|a [|b l2]]; simpl in H; try lia.
    now exists [], a, b, l2.
  - destruct l as [|x l]; simpl in H; [lia|].
    destruct (IH l) as (l1 & a & b & l2 & -> & L); [lia|].
    exists (x :: l1), a, b, l2. split; [reflexivity|]. simpl. now rewrite L.
Qed.

Lemma set_render_passes_passes passes obj :
  ShotMasterCamera.render_passes
    (Object.shotmaster_camera (set_render_passes passes obj)) = passes.
Proof. reflexivity. Qed.

Lemma set_render_passes_twice p1 p2 obj :
  set_render_passes p1 (set_render_passes p2 obj) = set_render_passes p1 obj.
Proof. reflexivity. Qed.

Lemma set_render_passes_same obj :
  set_render_passes
    (ShotMasterCamera.render_passes (Object.shotmaster_camera obj)) obj
  = obj.
Proof. now destruct obj as [n t []]. Qed.

Lemma invalid_camera_false c :
  Object.type (camera_object c) = "CAMERA" -> invalid_camera (Some c) = false.
Proof. intros T. simpl. now rewrite T. Qed.

Lemma render_passes_of_mk passes obj index :
  render_passes_of (mkPassCamera (set_render_passes passes obj) index)
  = passes.
Proof. reflexivity. Qed.

Lemma run_pass_op_valid op c : index_valid c -> index_valid (run_pass_op op c).
Proof.
  unfold index_valid, run_pass_op. intros [V1 V2].
  destruct op; unfold pass_operator.
  - unfold SHOTMASTER_OT_add_render_pass.
    destruct (invalid_camera (Some c)); simpl snd; cbv beta iota; [now split|].
    rewrite render_passes_of_mk, length_app. simpl. lia.
  - unfold SHOTMASTER_OT_delete_render_pass.
    destruct (invalid_camera (Some c)); simpl snd; cbv beta iota; [now split|].
    destruct (Z.leb_spec (Z.of_nat (length (render_passes_of c))) 0) as [E|E];
      simpl snd; cbv beta iota; [now split|].
    rewrite render_passes_of_mk. simpl active_pass_index.
    pose proof (length_collection_remove (active_pass_index c)
                  (render_passes_of c)) as L.
    destruct (Z.leb_spec 0 (active_pass_index c)) as [_|A]; [|lia].
    destruct (Z.ltb_spec (active_pass_index c)
                (Z.of_nat (length (render_passes_of c)))) as [_|A]; [|lia].
    simpl andb in L. cbv iota in L.
    destruct (Z.geb_spec (active_pass_index c)
                (Z.of_nat (length (collection_remove (active_pass_index c)
                                     (render_passes_of c))))); lia.
  - unfold SHOTMASTER_OT_move_render_pass_up.
    destruct (invalid_camera (Some c)); simpl snd; cbv beta iota; [now split|].
    destruct (Z.leb_spec (active_pass_index c) 0) as [A|A];
      simpl orb; cbv iota; simpl snd; cbv beta iota; [now split|].
    destruct (Z.geb_spec (active_pass_index c)
                (Z.of_nat (length (render_passes_of c)))) as [B|B];
      simpl snd; cbv beta iota; [now split|].
    rewrite render_passes_of_mk, length_collection_move. simpl. lia.
  - unfold SHOTMASTER_OT_move_render_pass_down.
    destruct (invalid_camera (Some c)); simpl snd; cbv beta iota; [now split|].
    destruct (Z.ltb_spec (active_pass_index c) 0) as [A|A];
      simpl orb; cbv iota; simpl snd; cbv beta iota; [now split|].
    destruct (Z.geb_spec (active_pass_index c)
                (Z.of_nat (length (render_passes_of c)) - 1)) as [B|B];
      simpl snd; cbv beta iota; [now split|].
    rewrite render_passes_of_mk, length_collection_move. simpl. lia.
Qed.

(** X18.  The pass operators keep the active index valid.  When the active
    index of a camera points at one of its passes, or is 0 with no pass, this
    is still so after any session of "add", "delete", "move up" and "move
    down"; and in such a state "delete" on a camera with passes removes
    exactly one pass, the active one. *)
Theorem X18_pass_index_stays_valid c :
  index_valid c ->
  (forall ops, index_valid (run_pass_ops ops c))
  /\ (Object.type (camera_object c) = "CAMERA" ->
      render_passes_of c <> [] ->
      exists c',
        SHOTMASTER_OT_delete_render_pass (Some c) = (FINISHED, None, Some c')
        /\ render_passes_of c'
           = delete (Z.to_nat (active_pass_index c)) (render_passes_of c)
        /\ (length (render_passes_of c') + 1
            = length (render_passes_of c))%nat).
Proof.
  intros V. split.
  - intros ops. revert c V. unfold run_pass_ops.
    induction ops as [|op ops IH]; intros c V; [exact V|].
    simpl. apply IH. now apply run_pass_op_valid.
  - intros T N. destruct V as [V1 V2].
    assert (P : 0 < Z.of_nat (length (render_passes_of c))).
    { destruct (render_passes_of c); [contradiction|simpl; lia]. }
    unfold SHOTMASTER_OT_delete_render_pass.
    rewrite (invalid_camera_false c T).
    destruct (Z.leb_spec (Z.of_nat (length (render_passes_of c))) 0) as [E|_];
      [lia|].
    eexists. split; [reflexivity|].
    rewrite render_passes_of_mk.
    pose proof (length_collection_remove (active_pass_index c)
                  (render_passes_of c)) as L.
    unfold collection_remove in *.
    destruct (Z.leb_spec 0 (active_pass_index c)) as [_|A]; [|lia].
    destruct (Z.ltb_spec (active_pass_index c)
                (Z.of_nat (length (render_passes_of c)))) as [_|A]; [|lia].
    simpl andb in *. cbv iota in *. split; [reflexivity|lia].
Qed.

Lemma X18_witness :
  index_valid
    (run_pass_ops
       [AddPass; AddPass; MovePassUp; MovePassUp; DeletePass; DeletePass;
        DeletePass; DeletePass; MovePassDown; AddPass]
       (mkPassCamera shot_a 0)).
Proof.
  apply (X18_pass_index_stays_valid (mkPassCamera shot_a 0)).
  vm_compute. split; discriminate.
Defined.

Lemma lookup_pair_first {A} (l1 : list A) a b l2 :
  (l1 ++ a :: b :: l2)%list !! length l1 = Some a.
Proof. induction l1; [reflexivity|assumption]. Qed.

Lemma lookup_pair_second {A} (l1 : list A) a b l2 :
  (l1 ++ a :: b :: l2)%list !! S (length l1) = Some b.
Proof. induction l1; [reflexivity|assumption]. Qed.

(** X19.  "Move up" and "move down" undo each other.  On a camera whose
    active index points at a pass other than the first, "move up" finishes,
    keeps the same passes in another order, keeps the same pass active, and a
    "move down" after it gives back the camera as it was; at the first pass,
    or with an index that points at no pass, "move up" is cancelled without a
    report and changes nothing.  Likewise for "move down" before the last
    pass, undone by "move up", and cancelled at the last pass. *)
Theorem X19_moves_undo_each_other c :
  Object.type (camera_object c) = "CAMERA" ->
  let index := active_pass_index c in
  let len := Z.of_nat (length (render_passes_of c)) in
  (0 < index < len ->
   exists c',
     SHOTMASTER_OT_move_render_pass_up (Some c) = (FINISHED, None, Some c')
     /\ render_passes_of c' ≡ₚ render_passes_of c
     /\ active_pass c' = active_pass c
     /\ SHOTMASTER_OT_move_render_pass_down (Some c')
        = (FINISHED, None, Some c))
  /\ (index <= 0 \/ len <= index ->
      SHOTMASTER_OT_move_render_pass_up (Some c)
      = (CANCELLED, None, Some c))
  /\ (0 <= index < len - 1 ->
      exists c',
        SHOTMASTER_OT_move_render_pass_down (Some c)
        = (FINISHED, None, Some c')
        /\ render_passes_of c' ≡ₚ render_passes_of c
        /\ active_pass c' = active_pass c
        /\ SHOTMASTER_OT_move_render_pass_up (Some c')
           = (FINISHED, None, Some c))
  /\ (index < 0 \/ len - 1 <= index ->
      SHOTMASTER_OT_move_render_pass_down (Some c)
      = (CANCELLED, None, Some c)).
Proof.
  intros T. cbv zeta. destruct c as [obj index].
  unfold SHOTMASTER_OT_move_render_pass_up,
    SHOTMASTER_OT_move_render_pass_down.
  rewrite (invalid_camera_false _ T).
  simpl active_pass_index. simpl camera_object in T.
  set (passes := render_passes_of (mkPassCamera obj index)).
  assert (Obj : set_render_passes passes obj = obj)
    by apply set_render_passes_same.
  split; [|split; [|split]].
  - intros [H1 H2].
    destruct (split_at_pair (Z.to_nat (index - 1)) passes)
      as (l1 & a & b & l2 & E & L); [lia|].
    assert (I : index = Z.of_nat (length l1) + 1) by lia.
    destruct (Z.leb_spec index 0) as [A|_]; [lia|].
    destruct (Z.geb_spec index (Z.of_nat (length passes))) as [A|_]; [lia|].
    simpl orb. cbv iota. eexists. split; [reflexivity|].
    rewrite render_passes_of_mk.
    split; [apply collection_move_Permutation|].
    assert (M : collection_move index (index - 1) passes
                = (l1 ++ b :: a :: l2)%list).
    { rewrite E, I. replace (Z.of_nat (length l1) + 1 - 1)
        with (Z.of_nat (length l1)) by lia. apply collection_move_up. }
    split.
    + unfold active_pass. rewrite !render_passes_of_mk.
      simpl active_pass_index. fold passes.
      destruct (Z.leb_spec 0 (index - 1)) as [_|A]; [|lia].
      destruct (Z.leb_spec 0 index) as [_|A]; [|lia].
      rewrite M, E.
      replace (Z.to_nat (index - 1)) with (length l1) by lia.
      replace (Z.to_nat index) with (S (length l1)) by lia.
      now rewrite lookup_pair_first, lookup_pair_second.
    + rewrite invalid_camera_false by exact T.
      simpl active_pass_index. rewrite ?render_passes_of_mk.
      rewrite length_collection_move.
      destruct (Z.ltb_spec (index - 1) 0) as [A|_]; [lia|].
      destruct (Z.geb_spec (index - 1) (Z.of_nat (length passes) - 1))
        as [A|_]; [lia|].
      simpl orb. cbv iota. simpl camera_object.
      assert (M2 : collection_move (index - 1) (index - 1 + 1)
                     (l1 ++ b :: a :: l2)%list = passes).
      { replace (index - 1) with (Z.of_nat (length l1)) by lia.
        rewrite collection_move_down. now rewrite E. }
      rewrite set_render_passes_twice, M, M2, Obj.
      replace (index - 1 + 1) with index by lia. reflexivity.
  - intros H.
    destruct (Z.leb_spec index 0) as [A|A]; [reflexivity|].
    destruct (Z.geb_spec index (Z.of_nat (length passes))) as [B|B];
      [reflexivity|]. fold passes in H. lia.
  - intros [H1 H2].
    destruct (split_at_pair (Z.to_nat index) passes)
      as (l1 & a & b & l2 & E & L); [lia|].
    assert (I : index = Z.of_nat (length l1)) by lia.
    destruct (Z.ltb_spec index 0) as [A|_]; [lia|].
    destruct (Z.geb_spec index (Z.of_nat (length passes) - 1)) as [A|_];
      [lia|].
    simpl orb. cbv iota. eexists. split; [reflexivity|].
    rewrite render_passes_of_mk.
    split; [apply collection_move_Permutation|].
    assert (M : collection_move index (index + 1) passes
                = (l1 ++ b :: a :: l2)%list).
    { rewrite E, I. apply collection_move_down. }
    split.
    + unfold active_pass. rewrite !render_passes_of_mk.
      simpl active_pass_index. fold passes.
      destruct (Z.leb_spec 0 (index + 1)) as [_|A]; [|lia].
      destruct (Z.leb_spec 0 index) as [_|A]; [|lia].
      rewrite M, E.
      replace (Z.to_nat (index + 1)) with (S (length l1)) by lia.
      replace (Z.to_nat index) with (length l1) by lia.
      now rewrite lookup_pair_first, lookup_pair_second.
    + rewrite invalid_camera_false by exact T.
      simpl active_pass_index. rewrite ?render_passes_of_mk.
      rewrite length_collection_move.
      destruct (Z.leb_spec (index + 1) 0) as [A|_]; [lia|].
      destruct (Z.geb_spec (index + 1) (Z.of_nat (length passes)))
        as [A|_]; [lia|].
      simpl orb. cbv iota. simpl camera_object.
      assert (M2 : collection_move (index + 1) (index + 1 - 1)
                     (l1 ++ b :: a :: l2)%list = passes).
      { replace (index + 1 - 1) with (Z.of_nat (length l1)) by lia.
        replace (index + 1) with (Z.of_nat (length l1) + 1) by lia.
        rewrite collection_move_up. now rewrite E. }
      rewrite set_render_passes_twice, M, M2, Obj.
      replace (index + 1 - 1) with index by lia. reflexivity.
  - intros H.
    destruct (Z.ltb_spec index 0) as [A|A]; [reflexivity|].
    destruct (Z.geb_spec index (Z.of_nat (length passes) - 1)) as [B|B];
      [reflexivity|]. fold passes in H. lia.
Qed.

Lemma X19_witness :
  exists c',
    SHOTMASTER_OT_move_render_pass_up (Some (mkPassCamera three_pass_camera 2))
    = (FINISHED, None, Some c')
    /\ render_passes_of c'
       ≡ₚ render_passes_of (mkPassCamera three_pass_camera 2)
    /\ active_pass c' = active_pass (mkPassCamera three_pass_camera 2)
    /\ SHOTMASTER_OT_move_render_pass_down (Some c')
       = (FINISHED, None, Some (mkPassCamera three_pass_camera 2)).
Proof.
  apply (X19_moves_undo_each_other (mkPassCamera three_pass_camera 2)).
  - reflexivity.
  - vm_compute. split; reflexivity.
Defined.

Lemma not_NoDup_snoc {A B} (f : A -> B) (l : list A) p new :
  p ∈ l -> f new = f p -> ~ NoDup (map f (l ++ [new])%list).
Proof.
  intros I E N. rewrite map_app in N. apply NoDup_app in N.
  destruct N as (_ & N & _). apply (N (f p)).
  - apply list_elem_of_In, in_map. now apply list_elem_of_In.
  - simpl. rewrite E. left.
Qed.

(** X20.  "Add pass" names the new pass after the number of passes only,
    so pass names can repeat.  When a camera already has a pass bearing the
    name that goes with the next count, "add" finishes all the same and the
    list then holds two passes of that name; with render passes in use and
    the older of the two enabled, the sequence of passes to render names one
    pass twice, whose renders go to the same file. *)
Theorem X20_pass_names_can_repeat c p :
  Object.type (camera_object c) = "CAMERA" ->
  p ∈ render_passes_of c ->
  RenderPass.name p
  = "pass_" ++ pretty (Z.of_nat (length (render_passes_of c)) + 1) ->
  exists c' new,
    SHOTMASTER_OT_add_render_pass (Some c) = (FINISHED, None, Some c')
    /\ render_passes_of c' = (render_passes_of c ++ [new])%list
    /\ RenderPass.name new = RenderPass.name p
    /\ ~ NoDup (map RenderPass.name (render_passes_of c'))
    /\ (ShotMasterCamera.use_render_passes
          (Object.shotmaster_camera (camera_object c)) = true ->
        RenderPass.enabled p = true ->
        ~ NoDup (passes_to_render
                   (Object.shotmaster_camera (camera_object c')))).
Proof.
  intros T I E. unfold SHOTMASTER_OT_add_render_pass.
  rewrite (invalid_camera_false c T). cbv zeta.
  do 2 eexists. split; [reflexivity|].
  rewrite render_passes_of_mk. split; [reflexivity|].
  split; [now rewrite E|]. split.
  - apply (not_NoDup_snoc RenderPass.name _ p); [exact I|].
    now rewrite E.
  - intros U En. unfold passes_to_render. simpl camera_object.
    change (ShotMasterCamera.use_render_passes
              (Object.shotmaster_camera (set_render_passes ?l ?o)))
      with (ShotMasterCamera.use_render_passes (Object.shotmaster_camera o)).
    rewrite U, set_render_passes_passes, filter_app.
    rewrite filter_cons_True by reflexivity. rewrite filter_nil.
    apply (not_NoDup_snoc (fun q => Some (RenderPass.name q)) _ p).
    + apply list_elem_of_filter. now split.
    + simpl. now rewrite E.
Qed.

Lemma X20_witness :
  let c := run_pass_ops
             [AddPass; AddPass; MovePassUp; MovePassUp; DeletePass;
              DeletePass]
             (mkPassCamera shot_a 0) in
  exists c' new,
    SHOTMASTER_OT_add_render_pass (Some c) = (FINISHED, None, Some c')
    /\ render_passes_of c' = (render_passes_of c ++ [new])%list
    /\ RenderPass.name new = "pass_2"
    /\ ~ NoDup (map RenderPass.name (render_passes_of c')).
Proof.
  intros c.
  destruct (X20_pass_names_can_repeat c (RenderPass.mk true "BEAUTY" "pass_2"))
    as (c' & new & A & B & C & D & _).
  - reflexivity.
  - vm_compute. left.
  - vm_compute. reflexivity.
  - exists c', new. repeat split; assumption.
Defined.
